(** * The [now dev] development server ([util/dev/server.ts])

    A shallow embedding of the build scheduler, the filesystem-event
    bookkeeping, the environment merge, the request-id generator, the asset
    lookup and the request dispatcher of [DevServer], with the properties
    of the specification stated over it. *)

From Stdlib Require Import ZArith NArith Ascii String List Bool Lia.
From Stdlib Require Import Decimal DecimalString DecimalPos.
From stdpp Require Import base option list strings gmap.

Local Open Scope string_scope.
Local Open Scope list_scope.
Local Open Scope Z_scope.

(** ** Data model *)

(** [BuilderOutput]: the three asset variants the dispatcher switches on.
    The [fn] of a [Lambda] is a handle to the invocable function (it is an
    optional property in the source). *)
Inductive Asset :=
  | FileFsRef (fsPath : string) (mode : N)
  | FileBlob (data : string)
  | Lambda (fn : option nat).

(** [RouteConfig]: a route rule; the server hands rules to the router and
    never inspects them. *)
Record RouteConfig := {
  route_src : string;
  route_dest : option string;
  route_status : option Z;
}.

(** A JS object used as an ordered dictionary: its own properties, in
    [Object.entries] order (names are taken not to be array indices, which
    JavaScript would list first; inherited properties are not modelled). *)
Definition Dict (A : Type) := list (string * A).

Fixpoint dict_get {A} (d : Dict A) (k : string) : option A :=
  match d with
  | [] => None
  | (k', v) :: d' => if String.eqb k' k then Some v else dict_get d' k
  end.

(** [delete obj[k]] *)
Definition dict_delete {A} (k : string) (d : Dict A) : Dict A :=
  filter (fun e => negb (String.eqb (fst e) k)) d.

(** [obj[k] = v]: an existing key keeps its position. *)
Fixpoint dict_set {A} (k : string) (v : A) (d : Dict A) : Dict A :=
  match d with
  | [] => [(k, v)]
  | (k', v') :: d' =>
      if String.eqb k' k then (k, v) :: d' else (k', v') :: dict_set k v d'
  end.

(** [Object.assign(target, source)] *)
Definition dict_assign {A} (target source : Dict A) : Dict A :=
  fold_left (fun acc e => dict_set (fst e) (snd e) acc) source target.

Record BuildResult := {
  output : Dict Asset;
  routes : option (list RouteConfig);
  watch : option (list string);
  distPath : option string;
}.

(** [BuildMatch]. [buildResults] is a [Map] keyed by the request path, or
    by [null] (here [None]) for a builder whose result serves every path.
    [buildOutput] may be absent ([findAsset] tests for it). *)
Record BuildMatch := {
  src : string;
  use : string;
  buildTimestamp : Z;
  buildResults : list (option string * BuildResult);
  buildOutput : option (Dict Asset);
}.

Definition set_buildOutput (o : option (Dict Asset)) (m : BuildMatch) :=
  {| src := src m; use := use m; buildTimestamp := buildTimestamp m;
     buildResults := buildResults m; buildOutput := o |}.

Definition set_buildTimestamp (t : Z) (m : BuildMatch) :=
  {| src := src m; use := use m; buildTimestamp := t;
     buildResults := buildResults m; buildOutput := buildOutput m |}.

Definition set_buildResults (r : list (option string * BuildResult))
    (m : BuildMatch) :=
  {| src := src m; use := use m; buildTimestamp := buildTimestamp m;
     buildResults := r; buildOutput := buildOutput m |}.

(** ** The build scheduler: [DevServer.triggerBuild] *)

Module Scheduler.

(** [ms('2s')] *)
Definition ms_2s : Z := 2000.

(** The key of a build in [inProgressBuilds]. *)
Definition buildKey (m : BuildMatch) (requestPath : option string) : string :=
  match requestPath with
  | None => src m
  | Some p => src m +:+ "-" +:+ p
  end.

(** The key as the specification words it: [src], a newline, the path. *)
Definition spec_buildKey (m : BuildMatch) (requestPath : option string)
    : string :=
  match requestPath with
  | None => src m
  | Some p => src m +:+ String "010"%char EmptyString +:+ p
  end.

Inductive Settled := Fulfilled | Rejected.

(** One [executeBuild] started by [triggerBuild]; the promise it returned
    is the position of this record in [promises]. *)
Record Build := {
  build_key : string;
  build_src : string;
  build_requestPath : option string;
  build_state : option Settled;
}.

(** An invocation of [triggerBuild], at the [await] it is suspended at. *)
Inductive Task :=
  | AwaitConfig (key : string) (m : string) (requestPath : option string)
      (previousBuildResult : option BuildResult)
  | AwaitBuild (key : string) (buildPromise : option nat)
  | Returned
  | Thrown.

(** The part of the server object the scheduler reads and writes. The
    build matches are shared mutable objects; they are held here by [src],
    as in [DevServer.buildMatches]. *)
Record Sched := {
  buildMatches : gmap string BuildMatch;
  inProgressBuilds : gmap string nat;
  promises : list Build;
  tasks : list Task;
}.

Definition init (ms : gmap string BuildMatch) : Sched :=
  {| buildMatches := ms; inProgressBuilds := ∅; promises := [];
     tasks := [] |}.

(** What the first, synchronous part of [triggerBuild] decides. *)
Inductive Decision := Dedupe (buildPromise : nat) | Skip | Rebuild.

Definition decide_build (s : Sched) (m : BuildMatch)
    (requestPath : option string) (now : Z) : Decision :=
  match inProgressBuilds s !! buildKey m requestPath with
  | Some p => Dedupe p
  | None => if now - buildTimestamp m <? ms_2s then Skip else Rebuild
  end.

(** [triggerBuild(match, requestPath, req, previousBuildResult)] called at
    [Date.now() = now], up to its first [await]. *)
Definition triggerBuild_check (s : Sched) (m : string)
    (requestPath : option string)
    (previous : option BuildResult) (now : Z) : option Sched :=
  mt ← buildMatches s !! m;
  let key := buildKey mt requestPath in
  let t :=
    match decide_build s mt requestPath now with
    | Dedupe p => AwaitBuild key (Some p)
    | Skip => AwaitBuild key None
    | Rebuild => AwaitConfig key m requestPath previous
    end in
  Some {| buildMatches := buildMatches s;
          inProgressBuilds := inProgressBuilds s;
          promises := promises s;
          tasks := tasks s ++ [t] |}.

(** Tearing down the assets of the previous build result. *)
Definition teardown (previous : option BuildResult) (m : BuildMatch)
    : BuildMatch :=
  match previous with
  | None => m
  | Some r =>
      set_buildOutput
        (fold_left (fun o e => dict_delete (fst e) o) (output r)
           <$> buildOutput m) m
  end.

(** The task resumes after [await this.getNowConfig()]: it tears down the
    previous outputs, starts [executeBuild] and records its promise. *)
Definition triggerBuild_build (s : Sched) (t : nat) : option Sched :=
  match tasks s !! t with
  | Some (AwaitConfig key m requestPath previous) =>
      let p := length (promises s) in
      Some {| buildMatches := alter (teardown previous) m (buildMatches s);
              inProgressBuilds := <[key := p]> (inProgressBuilds s);
              promises := promises s ++
                [{| build_key := key; build_src := m;
                    build_requestPath := requestPath;
                    build_state := None |}];
              tasks := <[t := AwaitBuild key (Some p)]> (tasks s) |}
  | _ => None
  end.

(** Modelled from the spec: [executeBuild] of [util/dev/builder.ts], of
    which only the completion matters here. A successful build publishes
    its result and outputs on the match and then stamps [buildTimestamp]
    with the time of completion; a failed build leaves the match as it is. *)
Definition publish (requestPath : option string) (r : BuildResult)
    (stamp : Z) (m : BuildMatch) : BuildMatch :=
  set_buildTimestamp stamp
    (set_buildOutput
       (Some (dict_assign (default [] (buildOutput m)) (output r)))
       (set_buildResults
          ((requestPath, r) ::
             filter (fun e => negb (bool_decide (fst e = requestPath)))
               (buildResults m)) m)).

Inductive Completion :=
  | Succeeds (result : BuildResult) (stamp : Z)
  | Fails.

Definition settle (s : Sched) (p : nat) (c : Completion) : option Sched :=
  match promises s !! p with
  | Some b =>
      match build_state b with
      | Some _ => None
      | None =>
          Some {| buildMatches :=
                    match c with
                    | Succeeds r stamp =>
                        alter (publish (build_requestPath b) r stamp)
                          (build_src b) (buildMatches s)
                    | Fails => buildMatches s
                    end;
                  inProgressBuilds := inProgressBuilds s;
                  promises :=
                    <[p := {| build_key := build_key b;
                              build_src := build_src b;
                              build_requestPath := build_requestPath b;
                              build_state :=
                                Some match c with
                                     | Succeeds _ _ => Fulfilled
                                     | Fails => Rejected
                                     end |}]> (promises s);
                  tasks := tasks s |}
      end
  | None => None
  end.

(** How a call ends once the promise it waits on has settled. *)
Definition ends (st : Settled) : Task :=
  match st with Fulfilled => Returned | Rejected => Thrown end.

(** The task resumes after [await buildPromise]: the [finally] block
    deletes the key, then the call returns or rethrows. *)
Definition finish (s : Sched) (t : nat) (key : string) (r : Task) : Sched :=
  {| buildMatches := buildMatches s;
     inProgressBuilds := delete key (inProgressBuilds s);
     promises := promises s;
     tasks := <[t := r]> (tasks s) |}.

Definition triggerBuild_finally (s : Sched) (t : nat) : option Sched :=
  match tasks s !! t with
  | Some (AwaitBuild key None) => Some (finish s t key Returned)
  | Some (AwaitBuild key (Some p)) =>
      b ← promises s !! p;
      st ← build_state b;
      Some (finish s t key (ends st))
  | _ => None
  end.

(** The steps of the event loop that concern the scheduler. *)
Inductive Event :=
  | Call (m : string) (requestPath : option string)
      (previous : option BuildResult) (now : Z)
  | ConfigReady (t : nat)
  | Settle (p : nat) (c : Completion)
  | Resume (t : nat).

Definition step (s : Sched) (e : Event) : option Sched :=
  match e with
  | Call m rp prev now => triggerBuild_check s m rp prev now
  | ConfigReady t => triggerBuild_build s t
  | Settle p c => settle s p c
  | Resume t => triggerBuild_finally s t
  end.

Fixpoint run (s : Sched) (es : list Event) : option Sched :=
  match es with
  | [] => Some s
  | e :: es' => s' ← step s e; run s' es'
  end.

(** The builds in progress for a key: started and not yet settled. *)
Definition pending (s : Sched) (key : string) : list Build :=
  filter (fun b => bool_decide (build_state b = None) &&
                   String.eqb (build_key b) key) (promises s).

(** A trigger that reaches [executeBuild] before anything else runs: the
    call and, when it decided to rebuild, its resumption. *)
Definition triggerBuild_uninterrupted (s : Sched) (m : string)
    (requestPath : option string)
    (previous : option BuildResult) (now : Z) : option Sched :=
  s' ← triggerBuild_check s m requestPath previous now;
  Some (default s' (triggerBuild_build s' (length (tasks s)))).

(** Two triggers for one key, the build of the first completing (and its
    caller resuming) before the second. *)
Definition two_triggers (ms : gmap string BuildMatch) (m : string)
    (requestPath : option string) (t0 : Z) (c : Completion) (t1 : Z)
    : option Sched :=
  s1 ← triggerBuild_uninterrupted (init ms) m requestPath None t0;
  s2 ← settle s1 0 c;
  s3 ← triggerBuild_finally s2 0;
  triggerBuild_uninterrupted s3 m requestPath None t1.

(** *** Turns of the event loop without interleaving

    A trigger whose check and [set] are not separated by another step (and
    whose [finally] follows at once when it skipped the build), and a build
    that completes, all the calls waiting on it resuming in the order of
    their tasks before anything else runs. *)

Definition waits_on (p : nat) (t : option Task) : bool :=
  match t with
  | Some (AwaitBuild _ (Some q)) => (q =? p)%nat
  | _ => false
  end.

Fixpoint resume_waiters (n : nat) (p : nat) (s : Sched) : Sched :=
  match n with
  | O => s
  | S t =>
      let s' := resume_waiters t p s in
      if waits_on p (tasks s' !! t)
      then default s' (triggerBuild_finally s' t) else s'
  end.

Inductive Turn :=
  | Trigger (m : string) (requestPath : option string)
      (previous : option BuildResult) (now : Z)
  | Complete (p : nat) (c : Completion).

Definition turn (s : Sched) (e : Turn) : option Sched :=
  match e with
  | Trigger m rp prev now =>
      s' ← triggerBuild_uninterrupted s m rp prev now;
      Some match tasks s' !! length (tasks s) with
           | Some (AwaitBuild _ None) =>
               default s' (triggerBuild_finally s' (length (tasks s)))
           | _ => s'
           end
  | Complete p c =>
      s' ← settle s p c;
      Some (resume_waiters (length (tasks s')) p s')
  end.

Fixpoint turns (s : Sched) (es : list Turn) : option Sched :=
  match es with
  | [] => Some s
  | e :: es' => s' ← turn s e; turns s' es'
  end.

(** What holds between such turns: the entries of [inProgressBuilds] are
    the builds in progress, each under its key; every build in progress
    has a call waiting on it; every suspended call waits on a build in
    progress of its own key. *)
Definition task_ok (s : Sched) (t : Task) : Prop :=
  match t with
  | AwaitBuild key (Some p) =>
      exists b, promises s !! p = Some b /\
                build_state b = None /\ build_key b = key
  | AwaitBuild _ None | AwaitConfig _ _ _ _ => False
  | Returned | Thrown => True
  end.

Record settled (s : Sched) : Prop := {
  entry_pending : forall key p,
    inProgressBuilds s !! key = Some p ->
    exists b, promises s !! p = Some b /\
              build_key b = key /\ build_state b = None;
  pending_entry : forall p b,
    promises s !! p = Some b -> build_state b = None ->
    inProgressBuilds s !! build_key b = Some p;
  pending_waiter : forall p b,
    promises s !! p = Some b -> build_state b = None ->
    exists t, tasks s !! t = Some (AwaitBuild (build_key b) (Some p));
  tasks_waiting : forall t tk, tasks s !! t = Some tk -> task_ok s tk;
}.

End Scheduler.


(** Sample data for the scheduler: one match, and a schedule of the event
    loop in which a second [triggerBuild] for the same key is called while
    the first is suspended at [await this.getNowConfig()]. *)
Module SchedulerData.
Import Scheduler.

Definition page : BuildMatch :=
  {| src := "pages/index.js"; use := "@now/next"; buildTimestamp := 0;
     buildResults := []; buildOutput := Some [] |}.

Definition one_match : gmap string BuildMatch := {[ "pages/index.js" := page ]}.

Definition about_html : BuildResult :=
  {| output := [("about", FileBlob "<html>")]; routes := None;
     watch := None; distPath := None |}.

Definition race : list Event :=
  [ Call "pages/index.js" (Some "about") None 5000;
    Call "pages/index.js" (Some "about") None 5000;
    ConfigReady 0;
    ConfigReady 1 ].

End SchedulerData.

(** ** Filesystem events: [handleFilesystemEvents] and its helpers *)

Module FsEvents.

Record FSEvent := { type : string; path : string }.

(** What [FileFsRef.fromFsPath] does when the event is handled: it stats
    the file and yields its mode, or throws with an error code. *)
Inductive Stat :=
  | StatOk (mode : N)
  | StatThrows (code : string).

(** The file index [this.files], and the two result sets of a batch. *)
Record Batch := {
  files : gmap string Asset;
  changed : gset string;
  removed : gset string;
}.

Definition fileChanged (name : string) (b : Batch) : Batch :=
  {| files := files b;
     changed := changed b ∪ {[ name ]};
     removed := removed b ∖ {[ name ]} |}.

Definition fileRemoved (name : string) (b : Batch) : Batch :=
  {| files := delete name (files b);
     changed := changed b ∖ {[ name ]};
     removed := removed b ∪ {[ name ]} |}.

Inductive Outcome :=
  | Done (b : Batch)
  | Threw (code : string) (b : Batch).

Definition batch_of (o : Outcome) : Batch :=
  match o with Done b | Threw _ b => b end.

Section Handlers.

(** [relative(this.cwd, fsPath)] of [util/path-helpers], not part of this
    file. *)
Variable relative_cwd : string -> string.

(** [handleFileCreated] and [handleFileModified] have the same body (only
    the debug messages differ). *)
Definition handleFileCreated (fsPath : string) (st : Stat) (b : Batch)
    : Outcome :=
  let name := relative_cwd fsPath in
  match st with
  | StatOk mode =>
      Done (fileChanged name
              {| files := <[name := FileFsRef fsPath mode]> (files b);
                 changed := changed b; removed := removed b |})
  | StatThrows code =>
      if String.eqb code "ENOENT" then Done (fileRemoved name b)
      else Threw code b
  end.

Definition handleFileModified := handleFileCreated.

Definition handleFileDeleted (fsPath : string) (b : Batch) : Outcome :=
  Done (fileRemoved (relative_cwd fsPath) b).

Definition handleEvent (e : FSEvent) (st : Stat) (b : Batch) : Outcome :=
  if String.eqb (type e) "add" then handleFileCreated (path e) st b
  else if String.eqb (type e) "unlink" then handleFileDeleted (path e) b
  else if String.eqb (type e) "change" then handleFileModified (path e) st b
  else Done b.

(** The [for] loop over the batch; each event comes with what the stat of
    its file gives at that moment. A throw ends the loop. *)
Fixpoint handleEvents (es : list (FSEvent * Stat)) (b : Batch) : Outcome :=
  match es with
  | [] => Done b
  | (e, st) :: es' =>
      match handleEvent e st b with
      | Done b' => handleEvents es' b'
      | Threw code b' => Threw code b'
      end
  end.

(** The truthy [distPath]s of all build results. *)
Definition distPaths (matches : list BuildMatch) : list string :=
  flat_map
    (fun m =>
       omap (fun r =>
               match distPath (snd r) with
               | Some d => if String.eqb d EmptyString then None else Some d
               | None => None
               end) (buildResults m))
    matches.

(** [events.filter(...)]: events under a [distPath] are dropped. *)
Definition kept_events (matches : list BuildMatch)
    (events : list (FSEvent * Stat)) : list (FSEvent * Stat) :=
  filter (fun ev =>
            forallb (fun d => negb (String.prefix d (path (fst ev))))
              (distPaths matches)) events.

(** The first part of [handleFilesystemEvents]: the events kept update the
    file index and the two sets, which start empty. *)
Definition handleFilesystemEvents (matches : list BuildMatch)
    (fs : gmap string Asset) (events : list (FSEvent * Stat)) : Outcome :=
  handleEvents (kept_events matches events)
    {| files := fs; changed := ∅; removed := ∅ |}.

(** The stat of an event's file does not throw, or throws [ENOENT]. *)
Definition stat_handled (ev : FSEvent * Stat) : bool :=
  match snd ev with
  | StatOk _ => true
  | StatThrows code => String.eqb code "ENOENT"
  end.

(** Net effect, as the specification words it: what the last event about
    a name marked it as. *)
Inductive Mark := MarkChanged | MarkRemoved.

Definition mark_of (ev : FSEvent * Stat) : option (string * Mark) :=
  let (e, st) := ev in
  let name := relative_cwd (path e) in
  if String.eqb (type e) "unlink" then Some (name, MarkRemoved)
  else if String.eqb (type e) "add" || String.eqb (type e) "change" then
    match st with
    | StatOk _ => Some (name, MarkChanged)
    | StatThrows code =>
        if String.eqb code "ENOENT" then Some (name, MarkRemoved) else None
    end
  else None.

Fixpoint net_effect (name : string) (es : list (FSEvent * Stat))
    (before : option Mark) : option Mark :=
  match es with
  | [] => before
  | ev :: es' =>
      net_effect name es'
        match mark_of ev with
        | Some (n, mk) => if String.eqb n name then Some mk else before
        | None => before
        end
  end.

End Handlers.

(** The invariant of the loop: the two sets are disjoint. *)
Definition batch_ok (b : Batch) : Prop := changed b ## removed b.

(** How one event moves a name between the sets. *)
Definition tracks (name : string) (b : Batch) (mk : option Mark) : Prop :=
  (name ∈ changed b <-> mk = Some MarkChanged) /\
  (name ∈ removed b <-> mk = Some MarkRemoved).

(** A batch: a file is changed, removed, and added again; another is
    removed; a third lies under a build's [distPath]. *)
Definition site : BuildMatch :=
  {| src := "package.json"; use := "@now/static-build"; buildTimestamp := 0;
     buildResults :=
       [(None, {| output := []; routes := None; watch := None;
                  distPath := Some "/app/dist" |})];
     buildOutput := Some [] |}.

Definition strip_app (p : string) : string :=
  if String.prefix "/app/" p then String.substring 5 (String.length p - 5) p
  else p.

Definition sample_batch : list (FSEvent * Stat) :=
  [ ({| type := "change"; path := "/app/a.js" |}, StatOk 420);
    ({| type := "unlink"; path := "/app/a.js" |}, StatThrows "ENOENT");
    ({| type := "unlink"; path := "/app/b.js" |}, StatThrows "ENOENT");
    ({| type := "add"; path := "/app/dist/out.js" |}, StatOk 420);
    ({| type := "add"; path := "/app/a.js" |}, StatOk 420) ].

End FsEvents.

(** ** Environment variables: [DevServer.validateEnvConfig] *)

Module Env.

Definition in_range (lo hi : nat) (c : ascii) : bool :=
  (lo <=? nat_of_ascii c)%nat && (nat_of_ascii c <=? hi)%nat.

Definition is_upper : ascii -> bool := in_range 65 90.
Definition is_lower : ascii -> bool := in_range 97 122.
Definition is_digit : ascii -> bool := in_range 48 57.
Definition is_underscore (c : ascii) : bool := Ascii.eqb c "_".

Fixpoint all_chars (p : ascii -> bool) (s : string) : bool :=
  match s with
  | EmptyString => true
  | String c s' => p c && all_chars p s'
  end.

(** [/^[a-zA-Z][a-zA-Z0-9_]*$/.test(key)] *)
Definition valid_name (key : string) : bool :=
  match key with
  | EmptyString => false
  | String c rest =>
      (is_lower c || is_upper c) &&
      all_chars (fun c => is_lower c || is_upper c || is_digit c ||
                          is_underscore c) rest
  end.

(** An [@]-reference of [now.json] with no value in the local file. *)
Definition is_missing (localEnv : gmap string string) (e : string * string)
    : bool :=
  String.prefix "@" (snd e) && bool_decide (localEnv !! fst e = None).

Inductive Validated :=
  | Merged (merged : gmap string string) (ignored : list string)
  | MissingDotenvVarsError (type : string) (missing : list string).

(** [{ ...env, ...localEnv }]: the union of finite maps prefers its left
    operand, the spread its right one. *)
Definition spread (env localEnv : gmap string string) : gmap string string :=
  localEnv ∪ env.

Definition validateEnvConfig (type : string) (env localEnv : gmap string string)
    : Validated :=
  let missing := fst <$> filter (is_missing localEnv) (map_to_list env) in
  if bool_decide (missing = []) then
    let merged := spread env localEnv in
    Merged (filter (fun e => valid_name (fst e)) merged)
      (filter (fun key => negb (valid_name key)) (fst <$> map_to_list merged))
  else MissingDotenvVarsError type missing.

(** A [now.json] env with a secret reference, and a [.env] file. *)
Definition base_env : gmap string string :=
  {[ "API_KEY" := "@api-key"; "MODE" := "production"; "2FA" := "on" ]}.

Definition local_env : gmap string string :=
  {[ "API_KEY" := "s3cr3t"; "MODE" := "dev"; "my-var" := "x" ]}.

End Env.

(** ** Node's [path] functions (POSIX flavour) used by the server

    [dirname], [basename] and [extname] are transcribed from the loops of
    Node's [lib/path.js]: an index runs from the end of the string to its
    start, with the flags of the original. The sentinel [-1] of the
    original is kept, so positions are in [Z]. *)

Module Path.

Definition charAt (s : string) (i : Z) : option ascii :=
  if i <? 0 then None else String.get (Z.to_nat i) s.

Definition is_slash_at (s : string) (i : Z) : bool :=
  match charAt s i with Some c => Ascii.eqb c "/" | None => false end.

Definition slen (s : string) : Z := Z.of_nat (String.length s).

(** [s.slice(a, b)] for [0 <= a]. *)
Definition slice (s : string) (a b : Z) : string :=
  String.substring (Z.to_nat a) (Z.to_nat (b - a)) s.

(** The loop of [dirname]: [i] runs from [n] down to 1; the result is
    [end], or [-1]. *)
Fixpoint dirname_loop (path : string) (n : nat) (matchedSlash : bool) : Z :=
  match n with
  | O => -1
  | S n' =>
      if is_slash_at path (Z.of_nat n) then
        if matchedSlash then dirname_loop path n' true else Z.of_nat n
      else dirname_loop path n' false
  end.

Definition dirname (path : string) : string :=
  if slen path =? 0 then "."
  else
    let hasRoot := is_slash_at path 0 in
    let e := dirname_loop path (String.length path - 1) true in
    if e =? -1 then (if hasRoot then "/" else ".")
    else if hasRoot && (e =? 1) then "//"
    else slice path 0 e.

(** The loop of [basename] without a suffix: [(start, end)]. *)
Fixpoint basename_loop (path : string) (n : nat) (matchedSlash : bool)
    (e : Z) : Z * Z :=
  match n with
  | O => (0, e)
  | S i =>
      if is_slash_at path (Z.of_nat i) then
        if matchedSlash then basename_loop path i true e
        else (Z.of_nat i + 1, e)
      else if e =? -1 then basename_loop path i false (Z.of_nat i + 1)
      else basename_loop path i matchedSlash e
  end.

(** The state of the loop of [basename] with a suffix. *)
Record ExtScan := {
  scan_start : Z;
  scan_end : Z;
  scan_matchedSlash : bool;
  scan_extIdx : Z;
  scan_firstNonSlashEnd : Z;
}.

Fixpoint basename_ext_loop (path ext : string) (n : nat) (st : ExtScan)
    : ExtScan :=
  match n with
  | O => st
  | S i =>
      let iz := Z.of_nat i in
      if is_slash_at path iz then
        if scan_matchedSlash st then basename_ext_loop path ext i st
        else {| scan_start := iz + 1; scan_end := scan_end st;
                scan_matchedSlash := scan_matchedSlash st;
                scan_extIdx := scan_extIdx st;
                scan_firstNonSlashEnd := scan_firstNonSlashEnd st |}
      else
        let first := scan_firstNonSlashEnd st =? -1 in
        let matched := if first then false else scan_matchedSlash st in
        let fnse := if first then iz + 1 else scan_firstNonSlashEnd st in
        let st' :=
          if 0 <=? scan_extIdx st then
            if bool_decide (charAt path iz = charAt ext (scan_extIdx st)) then
              {| scan_start := scan_start st;
                 scan_end := if scan_extIdx st - 1 =? -1 then iz
                             else scan_end st;
                 scan_matchedSlash := matched;
                 scan_extIdx := scan_extIdx st - 1;
                 scan_firstNonSlashEnd := fnse |}
            else
              {| scan_start := scan_start st; scan_end := fnse;
                 scan_matchedSlash := matched; scan_extIdx := -1;
                 scan_firstNonSlashEnd := fnse |}
          else
            {| scan_start := scan_start st; scan_end := scan_end st;
               scan_matchedSlash := matched; scan_extIdx := scan_extIdx st;
               scan_firstNonSlashEnd := fnse |} in
        basename_ext_loop path ext i st'
  end.

(** [basename(path, ext)]; [ext] is always given by the server. *)
Definition basename (path ext : string) : string :=
  if (0 <? slen ext) && (slen ext <=? slen path) then
    if String.eqb ext path then EmptyString
    else
      let st := basename_ext_loop path ext (String.length path)
                  {| scan_start := 0; scan_end := -1;
                     scan_matchedSlash := true;
                     scan_extIdx := slen ext - 1;
                     scan_firstNonSlashEnd := -1 |} in
      let e :=
        if scan_start st =? scan_end st then scan_firstNonSlashEnd st
        else if scan_end st =? -1 then slen path
        else scan_end st in
      slice path (scan_start st) e
  else
    let '(s, e) := basename_loop path (String.length path) true (-1) in
    if e =? -1 then EmptyString else slice path s e.

(** The state of the loop of [extname]. *)
Record DotScan := {
  dot_startDot : Z;
  dot_startPart : Z;
  dot_end : Z;
  dot_matchedSlash : bool;
  dot_preDotState : Z;
}.

Fixpoint extname_loop (path : string) (n : nat) (st : DotScan) : DotScan :=
  match n with
  | O => st
  | S i =>
      let iz := Z.of_nat i in
      if is_slash_at path iz then
        if dot_matchedSlash st then extname_loop path i st
        else {| dot_startDot := dot_startDot st; dot_startPart := iz + 1;
                dot_end := dot_end st;
                dot_matchedSlash := dot_matchedSlash st;
                dot_preDotState := dot_preDotState st |}
      else
        let first := dot_end st =? -1 in
        let matched := if first then false else dot_matchedSlash st in
        let e := if first then iz + 1 else dot_end st in
        let is_dot := bool_decide (charAt path iz = Some "."%char) in
        extname_loop path i
          {| dot_startDot :=
               if is_dot && (dot_startDot st =? -1) then iz
               else dot_startDot st;
             dot_startPart := dot_startPart st;
             dot_end := e;
             dot_matchedSlash := matched;
             dot_preDotState :=
               if is_dot then
                 if dot_startDot st =? -1 then dot_preDotState st else 1
               else if dot_startDot st =? -1 then dot_preDotState st
               else -1 |}
  end.

Definition extname (path : string) : string :=
  let st := extname_loop path (String.length path)
              {| dot_startDot := -1; dot_startPart := 0; dot_end := -1;
                 dot_matchedSlash := true; dot_preDotState := 0 |} in
  if (dot_startDot st =? -1) || (dot_end st =? -1) ||
     (dot_preDotState st =? 0) ||
     ((dot_preDotState st =? 1) && (dot_startDot st =? dot_end st - 1) &&
      (dot_startDot st =? dot_startPart st + 1))
  then EmptyString
  else slice path (dot_startDot st) (dot_end st).

End Path.

(** ** Asset lookup: [findAsset], [isIndex], [dirnameWithoutDot] *)

Module Assets.

Definition dirnameWithoutDot (path : string) : string :=
  let dir := Path.dirname path in
  if String.eqb dir "." then EmptyString else dir.

Definition isIndex (path : string) : bool :=
  let ext := Path.extname path in
  let name := Path.basename path ext in
  String.eqb name "index".

(** [requestPath.replace(/\/$/, '')] *)
Fixpoint strip_trailing_slash (s : string) : string :=
  match s with
  | EmptyString => EmptyString
  | String c EmptyString => if Ascii.eqb c "/" then EmptyString else s
  | String c s' => String c (strip_trailing_slash s')
  end.

(** The test of the fallback loop for one entry of [buildOutput]. *)
Definition index_of (assetKey : string) (e : string * Asset) : bool :=
  isIndex (fst e) && String.eqb (dirnameWithoutDot (fst e)) assetKey.

(** The result is the pair [{ asset, assetKey }], or nothing. *)
Definition findAsset (m : BuildMatch) (requestPath : string)
    : option (Asset * string) :=
  match buildOutput m with
  | None => None
  | Some out =>
      let assetKey := strip_trailing_slash requestPath in
      match dict_get out requestPath with
      | Some asset => Some (asset, assetKey)
      | None =>
          match List.find (index_of assetKey) out with
          | Some (name, a) => Some (a, name)
          | None => None
          end
      end
  end.

(** A match with a page per directory. *)
Definition docs : BuildMatch :=
  {| src := "docs/**"; use := "@now/static"; buildTimestamp := 0;
     buildResults := [];
     buildOutput :=
       Some [ ("docs/guide.html", FileBlob "guide");
              ("docs/api/list.html", FileBlob "list");
              ("docs/api/index.html", FileBlob "api");
              ("docs/api/index.htm", FileBlob "api, old");
              ("index.html", FileBlob "home") ] |}.

End Assets.

(** ** Request ids: [generateRequestId] and the server's [podId] *)

Module RequestId.
Import Env.

(** [s.slice(-n)]: the last [n] characters, or all of [s] when it is
    shorter. *)
Definition slice_last (n : nat) (s : string) : string :=
  String.substring (String.length s - n) n s.

(** [Math.random().toString(32).slice(-5)], from the base-32 rendering of
    the random number. *)
Definition podId_of (random32 : string) : string := slice_last 5 random32.

(** The digits [toString(32)] writes: [0-9a-v]. *)
Definition is_base32_digit (c : ascii) : bool :=
  is_digit c || in_range 97 118 c.

(** A number as [join] renders it: [Date.now()] is a natural number of
    milliseconds, written in decimal. *)
Definition decimal (n : N) : string := NilEmpty.string_of_uint (N.to_uint n).

Definition hex_digits : list ascii :=
  ["0"; "1"; "2"; "3"; "4"; "5"; "6"; "7"; "8"; "9";
   "a"; "b"; "c"; "d"; "e"; "f"]%char.

Definition hex_digit (n : N) : ascii := nth (N.to_nat n) hex_digits "0"%char.

Definition hex_of_byte (b : Byte.byte) : string :=
  let n := Byte.to_N b in
  String (hex_digit (n / 16)) (String (hex_digit (n mod 16)) EmptyString).

(** [buffer.toString('hex')] *)
Fixpoint to_hex (bytes : list Byte.byte) : string :=
  match bytes with
  | [] => EmptyString
  | b :: bs => hex_of_byte b +:+ to_hex bs
  end.

(** [parts.join(sep)] *)
Fixpoint join (sep : string) (parts : list string) : string :=
  match parts with
  | [] => EmptyString
  | [p] => p
  | p :: ps => p +:+ sep +:+ join sep ps
  end.

(** [generateRequestId(podId)], given what [Date.now()] and
    [randomBytes(6)] return. *)
Definition generateRequestId (podId : string) (now : N)
    (random : list Byte.byte) : string :=
  "dev1:" +:+ join "-" [podId; decimal now; to_hex random].

(** The character classes of the pattern of an id. *)
Definition is_lower_or_digit (c : ascii) : bool := is_lower c || is_digit c.
Definition is_hex (c : ascii) : bool := is_digit c || in_range 97 102 c.

(** The strings the pattern [dev1:[a-z0-9]{5}-\d+-[0-9a-f]{12}] matches
    from end to end. *)
Definition matches_id_pattern (s : string) : Prop :=
  exists pod ms hex : string,
    s = "dev1:" +:+ pod +:+ "-" +:+ ms +:+ "-" +:+ hex /\
    String.length pod = 5%nat /\ all_chars is_lower_or_digit pod = true /\
    ms <> EmptyString /\ all_chars is_digit ms = true /\
    String.length hex = 12%nat /\ all_chars is_hex hex = true.

End RequestId.

(** ** The request dispatcher: [devServerHandler], [serveProjectAsNowV2] *)

Module Dispatcher.
Import Assets RequestId.

(** The outcome of an awaited call: a value, or the error thrown. *)
Inductive Result (A : Type) :=
  | Ok (a : A)
  | Throws (message : string).
Arguments Ok {A} a.
Arguments Throws {A} message.

(** [http.IncomingMessage]; header names are in lower case. *)
Record Request := {
  method : option string;
  url : option string;
  headers : gmap string string;
  remoteAddress : option string;
}.

Definition set_url (u : string) (r : Request) : Request :=
  {| method := method r; url := Some u; headers := headers r;
     remoteAddress := remoteAddress r |}.

(** [RouteResult] of the router. *)
Record RouteResult := {
  found : bool;
  dest : string;
  status : option Z;
  route_headers : Dict string;
  uri_args : Dict string;
}.

Record InvokePayload := {
  payload_method : string;
  payload_host : option string;
  payload_path : string;
  payload_headers : Dict (option string);
  payload_encoding : string;
  payload_body : string;
}.

Record InvokeResult := {
  result_statusCode : Z;
  result_headers : Dict string;
  result_body : option string;
  result_encoding : option string;
}.

(** What the [Accept] header selects for error and redirect bodies. *)
Inductive Negotiated := AsJson | AsHtml | AsPlain.

(** What is written to the response, or who is handed it. *)
Inductive Body :=
  | ErrorBody (kind : Negotiated) (statusCode : Z) (errorCode : option string)
  | RedirectBody (kind : Negotiated) (location : string) (statusCode : Z)
  | MessageBody (message : string)
  | DataBody (data : string)
  | DirectoryBody (html : string)
  | LambdaBody (body : option string) (base64 : bool)
  | StaticFile (dir : string) (url : string) (contentType : string)
  | ProxyPass (destUrl : string).

(** [http.ServerResponse]: header names are stored in lower case;
    [body] is set once the response has been ended or handed over. *)
Record Response := {
  statusCode : Z;
  res_headers : gmap string string;
  body : option Body;
}.

Definition fresh : Response :=
  {| statusCode := 200; res_headers := ∅; body := None |}.

(** What lies outside the server: Node's [url] module, the router, the
    build-match registry, the builders and functions, each by what it
    answers during the request. *)
Record World := {
  url_parse : string -> option string * option string;
  proxy_url : string -> Dict string -> string;
  sub_url : string -> string -> Dict string -> string;
  lambda_path : string -> Dict string -> string;
  devRouter :
    option string -> option string -> option (list RouteConfig) ->
    Result RouteResult;
  isURL : string -> bool;
  getNowConfig : Result (option (list RouteConfig));
  updateBuildMatches : Result unit;
  findBuildMatch : string -> Result (option BuildMatch);
  triggerBuild : BuildMatch -> option string -> Result BuildMatch;
  directoryListing : string -> option string;
  getMimeType : string -> string;
  rawBody : Result string;
  base64 : string -> string;
  invoke : nat -> InvokePayload -> Result InvokeResult;
}.

(** What the dispatcher asks of the scheduler and of functions. *)
Inductive Effect :=
  | TriggerBuild (m : BuildMatch) (requestPath : option string)
  | Invoke (fn : nat) (payload : InvokePayload).

(** The request and response objects are mutated along the way. *)
Record St := {
  req : Request;
  res : Response;
  effects : list Effect;
}.

(** Computations over the request state that may throw. *)
Definition M (A : Type) : Type := St -> Result A * St.

Definition ret {A} (a : A) : M A := fun st => (Ok a, st).

Definition bind {A B} (m : M A) (k : A -> M B) : M B :=
  fun st =>
    match m st with
    | (Ok a, st') => k a st'
    | (Throws e, st') => (Throws e, st')
    end.

Definition throw {A} (message : string) : M A := fun st => (Throws message, st).

Definition lift {A} (r : Result A) : M A := fun st => (r, st).

Definition get_req : M Request := fun st => (Ok (req st), st).
Definition get_res : M Response := fun st => (Ok (res st), st).

Definition modify_req (f : Request -> Request) : M unit :=
  fun st => (Ok tt, {| req := f (req st); res := res st;
                       effects := effects st |}).

Definition modify_res (f : Response -> Response) : M unit :=
  fun st => (Ok tt, {| req := req st; res := f (res st);
                       effects := effects st |}).

Definition emit (e : Effect) : M unit :=
  fun st => (Ok tt, {| req := req st; res := res st;
                       effects := effects st ++ [e] |}).

Declare Scope dispatch_scope.
Delimit Scope dispatch_scope with dispatch.
Bind Scope dispatch_scope with M.
Notation "'let*' x := m 'in' k" := (bind m (fun x => k))
  (at level 200, x name, m at level 100, k at level 200,
   right associativity) : dispatch_scope.
Notation "m ;; k" := (bind m (fun _ => k))
  (at level 100, k at level 200, right associativity) : dispatch_scope.
Local Open Scope dispatch_scope.

(** *** Strings *)

Definition lower_char (c : ascii) : ascii :=
  if Env.is_upper c then ascii_of_nat (nat_of_ascii c + 32) else c.

Fixpoint lower (s : string) : string :=
  match s with
  | EmptyString => EmptyString
  | String c s' => String (lower_char c) (lower s')
  end.

(** [s.startsWith(p)] *)
Fixpoint startsWith (p s : string) : bool :=
  match p, s with
  | EmptyString, _ => true
  | String a p', String b s' => Ascii.eqb a b && startsWith p' s'
  | String _ _, EmptyString => false
  end.

(** [hay.includes(needle)] *)
Fixpoint includes (needle hay : string) : bool :=
  startsWith needle hay ||
  match hay with
  | EmptyString => false
  | String _ hay' => includes needle hay'
  end.

(** [pathname.replace(/\/+/g, '/')] *)
Fixpoint collapse_slashes (s : string) : string :=
  match s with
  | EmptyString => EmptyString
  | String c s' =>
      if Ascii.eqb c "/" then
        match s' with
        | String c' _ =>
            if Ascii.eqb c' "/" then collapse_slashes s'
            else String c (collapse_slashes s')
        | EmptyString => String c EmptyString
        end
      else String c (collapse_slashes s')
  end.

(** Auxiliary: the first character is a slash; the string without its
    first character. *)
Definition starts_with_slash (s : string) : bool :=
  match s with
  | String c _ => Ascii.eqb c "/"
  | EmptyString => false
  end.

Definition tail_string (s : string) : string :=
  match s with
  | String _ t => t
  | EmptyString => EmptyString
  end.

(** Collapsing as the specification words it: of every run of slashes
    one slash is kept, that is, a slash that follows a slash is dropped. *)
Fixpoint drop_repeated_slashes (after_slash : bool) (s : string) : string :=
  match s with
  | EmptyString => EmptyString
  | String c s' =>
      if Ascii.eqb c "/" then
        if after_slash then drop_repeated_slashes true s'
        else String c (drop_repeated_slashes true s')
      else String c (drop_repeated_slashes false s')
  end.

Definition spec_collapse (s : string) : string :=
  drop_repeated_slashes false s.

(** [dest.replace(/^\//, '')] *)
Definition strip_leading_slash (s : string) : string :=
  match s with
  | String c s' => if Ascii.eqb c "/" then s' else s
  | EmptyString => s
  end.

(** [s || '/'] *)
Definition or_root (s : option string) : string :=
  match s with
  | Some u => if String.eqb u EmptyString then "/" else u
  | None => "/"
  end.

(** A string that is defined and not empty. *)
Definition truthy_string (s : option string) : option string :=
  match s with
  | Some u => if String.eqb u EmptyString then None else Some u
  | None => None
  end.

(** A number that is defined and not zero. *)
Definition truthy_status (s : option Z) : bool :=
  match s with
  | Some n => negb (n =? 0)
  | None => false
  end.

(** *** Responses *)

(** [res.setHeader(name, value)] *)
Definition setHeader (name value : string) (r : Response) : Response :=
  {| statusCode := statusCode r;
     res_headers := <[lower name := value]> (res_headers r);
     body := body r |}.

Definition set_statusCode (code : Z) (r : Response) : Response :=
  {| statusCode := code; res_headers := res_headers r; body := body r |}.

(** [res.end(...)], or the hand-over to the static handler or the proxy *)
Definition end_with (b : Body) (r : Response) : Response :=
  {| statusCode := statusCode r; res_headers := res_headers r;
     body := Some b |}.

Definition setHeaders (hs : Dict string) (r : Response) : Response :=
  fold_left (fun r e => setHeader (fst e) (snd e) r) hs r.

(** The value a name has after [setHeaders]: that of the last entry with
    this name in whatever letter case, else the one it had. *)
Fixpoint lastHeader (name : string) (hs : Dict string) (before : option string)
    : option string :=
  match hs with
  | [] => before
  | e :: hs' =>
      lastHeader name hs'
        (if String.eqb (lower (fst e)) name then Some (snd e) else before)
  end.

(** The object literal of [setResponseHeaders]: [headers] is spread
    after [cache-control], the four fixed headers are written last and
    overwrite an entry of the same name where it stands. *)
Definition allHeaders (nowRequestId : string) (headers : Dict string)
    : Dict string :=
  dict_set "x-now-cache" "MISS"
    (dict_set "x-now-id" nowRequestId
       (dict_set "x-now-trace" "dev1"
          (dict_set "server" "now"
             (dict_assign
                [("cache-control", "public, max-age=0, must-revalidate")]
                headers)))).

Definition setResponseHeaders (nowRequestId : string) (headers : Dict string)
    (r : Response) : Response :=
  setHeaders (allHeaders nowRequestId headers) r.

(** [const { accept = 'text/plain' } = req.headers] and the two tests *)
Definition negotiate (r : Request) : Negotiated :=
  let accept := default "text/plain" (headers r !! "accept") in
  if includes "json" accept then AsJson
  else if includes "html" accept then AsHtml
  else AsPlain.

Definition sendError (nowRequestId : string) (errorCode : option string)
    (code : Z) : M unit :=
  let* r := get_req in
  modify_res (fun res =>
    let res := setResponseHeaders nowRequestId [] (set_statusCode code res) in
    let kind := negotiate r in
    let contentType :=
      match kind with
      | AsJson => "application/json"
      | AsHtml => "text/html; charset=utf-8"
      | AsPlain => "text/plain; charset=utf-8"
      end in
    end_with (ErrorBody kind code errorCode)
      (setHeader "content-type" contentType res)).

Definition send404 (nowRequestId : string) : M unit :=
  sendError nowRequestId (Some "FILE_NOT_FOUND") 404.

(** [sendRedirect]. The location read back from the response may be
    undefined; [res.setHeader] throws on an undefined value, after
    [cache-control] has been written. *)
Definition sendRedirect (nowRequestId : string) (location : option string)
    (code : Z) : M unit :=
  let* r := get_req in
  match location with
  | Some loc =>
      modify_res (fun res =>
        let res :=
          setResponseHeaders nowRequestId [("location", loc)]
            (set_statusCode code res) in
        let kind := negotiate r in
        let contentType :=
          match kind with
          | AsJson => "application/json"
          | AsHtml => "text/html"
          | AsPlain => "text/plain"
          end in
        end_with (RedirectBody kind loc code)
          (setHeader "content-type" contentType res))
  | None =>
      modify_res (fun res =>
        setHeader "cache-control" "public, max-age=0, must-revalidate"
          (set_statusCode code res)) ;;
      throw "Invalid value undefined for header location"
  end.

Definition shouldRebuild (r : Request) : bool :=
  bool_decide (headers r !! "pragma" = Some "no-cache") ||
  bool_decide (headers r !! "cache-control" = Some "no-cache").

(** [nowRequestId.split('-')[2]] *)
Fixpoint split_on (sep : ascii) (s : string) : list string :=
  match s with
  | EmptyString => [EmptyString]
  | String c s' =>
      if Ascii.eqb c sep then EmptyString :: split_on sep s'
      else
        match split_on sep s' with
        | p :: ps => String c p :: ps
        | [] => [String c EmptyString]
        end
  end.

Definition getRequestIp (r : Request) : string :=
  default "127.0.0.1" (truthy_string (remoteAddress r)).

(** The request headers sent to the function. *)
Definition getNowProxyHeaders (r : Request) (nowRequestId : string)
    : Dict (option string) :=
  let ip := getRequestIp r in
  let host := headers r !! "host" in
  fold_left (fun d e => dict_set (fst e) (snd e) d)
    [ ("Connection", Some "close");
      ("x-forwarded-host", host);
      ("x-forwarded-proto", Some "http");
      ("x-forwarded-for", Some ip);
      ("x-real-ip", Some ip);
      ("x-now-trace", Some "dev1");
      ("x-now-deployment-url", host);
      ("x-now-id", Some nowRequestId);
      ("x-now-log-id", split_on "-" nowRequestId !! 2%nat);
      ("x-zeit-co-forwarded-for", Some ip) ]
    (prod_map id Some <$> map_to_list (headers r)).

(** *** [serveProjectAsNowV2] *)

(** The first step: a path with a double slash is made clean. The result
    tells whether the request has been answered (with the redirect). *)
Definition cleanUrl (w : World) (nowRequestId : string) : M bool :=
  let* r := get_req in
  let parsed := url_parse w (or_root (url r)) in
  match fst parsed with
  | Some pathname =>
      if includes "//" pathname then
        let location :=
          collapse_slashes pathname +:+
          default EmptyString (truthy_string (snd parsed)) in
        if bool_decide (method r = Some "GET") then
          sendRedirect nowRequestId (Some location) 301 ;; ret true
        else
          modify_req (set_url location) ;; ret false
      else ret false
  | None => ret false
  end.

(** [renderDirectoryListing]: the listing of the entrypoints under the
    path, when there are any. *)
Definition renderDirectoryListing (w : World) (nowRequestId : string)
    (requestPath : string) : M bool :=
  match directoryListing w requestPath with
  | None => ret false
  | Some html =>
      modify_res (fun res =>
        end_with (DirectoryBody html)
          (setHeader "Content-Length"
             (decimal (N.of_nat (String.length html)))
             (setHeader "Content-Type" "text/html; charset=utf-8"
                (setResponseHeaders nowRequestId [] res)))) ;;
      ret true
  end.

(** The [InvokePayload] for a function. *)
Definition lambdaPayload (w : World) (nowRequestId : string) (r : Request)
    (uri_args : Dict string) (body : string) : InvokePayload :=
  {| payload_method := default "GET" (truthy_string (method r));
     payload_host := headers r !! "host";
     payload_path := lambda_path w (or_root (url r)) uri_args;
     payload_headers := getNowProxyHeaders r nowRequestId;
     payload_encoding := "base64";
     payload_body := base64 w body |}.

(** The [switch] on the asset found (or the 404 when there is none). *)
Definition serveAsset (w : World) (nowRequestId : string)
    (foundAsset : option (Asset * string)) (status : option Z)
    (uri_args : Dict string) : M unit :=
  match foundAsset with
  | None => send404 nowRequestId
  | Some (FileFsRef fsPath _, assetKey) =>
      modify_res (setResponseHeaders nowRequestId []) ;;
      modify_req (set_url ("/" +:+ Path.basename fsPath EmptyString)) ;;
      modify_res
        (end_with
           (StaticFile (Path.dirname fsPath)
              ("/" +:+ Path.basename fsPath EmptyString)
              (getMimeType w assetKey)))
  | Some (FileBlob data, assetKey) =>
      modify_res (fun res =>
        end_with (DataBody data)
          (setResponseHeaders nowRequestId
             [ ("Content-Length", decimal (N.of_nat (String.length data)));
               ("Content-Type", getMimeType w assetKey) ] res))
  | Some (Lambda None, _) =>
      sendError nowRequestId (Some "INTERNAL_LAMBDA_NOT_FOUND") 500
  | Some (Lambda (Some fn), assetKey) =>
      let* r := get_req in
      let* body := lift (rawBody w) in
      let payload := lambdaPayload w nowRequestId r uri_args body in
      emit (Invoke fn payload) ;;
      match invoke w fn payload with
      | Throws _ =>
          sendError nowRequestId (Some "NO_STATUS_CODE_FROM_LAMBDA") 502
      | Ok result =>
          (if truthy_status status then ret tt
           else modify_res (set_statusCode (result_statusCode result))) ;;
          modify_res
            (setResponseHeaders nowRequestId (result_headers result)) ;;
          modify_res
            (end_with
               (LambdaBody (result_body result)
                  (bool_decide (result_encoding result = Some "base64") &&
                   bool_decide (is_Some (result_body result)))))
      end
  end.

(** [findAsset], and at call level 0 the build when no asset is found or
    the request asks for a fresh one; the asset is then looked up again on
    the match as the build left it. *)
Definition resolveAsset (w : World) (m : BuildMatch) (requestPath : string)
    (buildRequestPath : option string) (callLevel : nat)
    : M (option (Asset * string)) :=
  let foundAsset := findAsset m requestPath in
  let* r := get_req in
  if (negb (bool_decide (is_Some foundAsset)) || shouldRebuild r) &&
     (callLevel =? 0)%nat
  then
    emit (TriggerBuild m buildRequestPath) ;;
    let* m' := lift (triggerBuild w m buildRequestPath) in
    ret (findAsset m' requestPath)
  else ret foundAsset.

Definition serveMatch (w : World) (nowRequestId : string) (m : BuildMatch)
    (requestPath : string) (buildRequestPath : option string)
    (status : option Z) (uri_args : Dict string) (callLevel : nat) : M unit :=
  let* foundAsset := resolveAsset w m requestPath buildRequestPath callLevel in
  serveAsset w nowRequestId foundAsset status uri_args.

(** [buildResults.has(null) ? null : requestPath] and [buildResults.get] *)
Definition buildRequestPath_of (m : BuildMatch) (requestPath : string)
    : option string :=
  if existsb (fun e => negb (bool_decide (is_Some (fst e)))) (buildResults m)
  then None else Some requestPath.

Definition buildResults_get (m : BuildMatch) (key : option string)
    : option BuildResult :=
  snd <$> List.find (fun e => bool_decide (fst e = key)) (buildResults m).

(** The routes of the build result for the request, when it has any. *)
Definition subRoutes (m : BuildMatch) (requestPath : string)
    : option (list RouteConfig) :=
  match buildResults_get m (buildRequestPath_of m requestPath) with
  | Some {| routes := Some (rule :: rules) |} => Some (rule :: rules)
  | _ => None
  end.

(** [[301, 302, 303].includes(status)] under [if (status)] *)
Definition is_redirect (status : option Z) : bool :=
  truthy_status status && bool_decide (default 0 status ∈ [301; 302; 303]).

(** [serveProjectAsNowV2] after the clean-up of the URL; [recurse] is the
    function itself, called for the routes of a build result. (The wait
    on [blockingBuildsPromise] is left out: that promise never rejects and
    the wait touches neither the request nor the response.) *)
Definition serveRouted
    (recurse : option (list RouteConfig) -> nat -> M unit)
    (w : World) (nowRequestId : string)
    (routes : option (list RouteConfig)) (callLevel : nat) : M unit :=
  lift (updateBuildMatches w) ;;
  let* r := get_req in
  let* route := lift (devRouter w (url r) (method r) routes) in
  modify_res (setHeaders (route_headers route)) ;;
  if isURL w (dest route) then
    modify_res (setResponseHeaders nowRequestId []) ;;
    modify_res
      (end_with (ProxyPass (proxy_url w (dest route) (uri_args route))))
  else
  (if truthy_status (status route)
   then modify_res (set_statusCode (default 0 (status route)))
   else ret tt) ;;
  if is_redirect (status route) then
    let* res := get_res in
    sendRedirect nowRequestId (res_headers res !! "location")
      (default 0 (status route))
  else
  let requestPath := strip_leading_slash (dest route) in
  let* buildMatch := lift (findBuildMatch w requestPath) in
  match buildMatch with
  | None =>
      if bool_decide (status route = Some 404) then send404 nowRequestId
      else
        let* listed := renderDirectoryListing w nowRequestId requestPath in
        if listed then ret tt else send404 nowRequestId
  | Some m =>
      let buildRequestPath := buildRequestPath_of m requestPath in
      let* descended :=
        match subRoutes m requestPath with
        | Some rules =>
            let newUrl :=
              sub_url w (or_root (url r)) (dest route) (uri_args route) in
            let* matchedRoute :=
              lift (devRouter w (Some newUrl) (method r) (Some rules)) in
            if found matchedRoute && (callLevel =? 0)%nat then
              modify_req (set_url newUrl) ;;
              recurse (Some rules) (callLevel + 1)%nat ;;
              ret true
            else ret false
        | None => ret false
        end in
      if descended then ret tt
      else serveMatch w nowRequestId m requestPath buildRequestPath
             (status route) (uri_args route) callLevel
  end.

(** The whole body of [serveProjectAsNowV2]. *)
Definition serveBody
    (recurse : option (list RouteConfig) -> nat -> M unit)
    (w : World) (nowRequestId : string)
    (routes : option (list RouteConfig)) (callLevel : nat) : M unit :=
  let* answered := cleanUrl w nowRequestId in
  if answered then ret tt
  else serveRouted recurse w nowRequestId routes callLevel.

(** The function calls itself only from call level 0, with level 1: two
    copies of the body tie the knot (see [serveProjectAsNowV2_unfold]). *)
Definition serveNested (w : World) (nowRequestId : string)
    (routes : option (list RouteConfig)) (callLevel : nat) : M unit :=
  serveBody (fun _ _ => ret tt) w nowRequestId routes callLevel.

Definition serveProjectAsNowV2 (w : World) (nowRequestId : string)
    (routes : option (list RouteConfig)) (callLevel : nat) : M unit :=
  serveBody (serveNested w nowRequestId) w nowRequestId routes callLevel.

(** [serveProjectAsNowV2] once the URL is clean. *)
Definition routeAndServe (w : World) (nowRequestId : string)
    (routes : option (list RouteConfig)) (callLevel : nat) : M unit :=
  serveRouted (serveNested w nowRequestId) w nowRequestId routes callLevel.

(** *** A request that resolves to a build match

    The conditions under which one call of [serveProjectAsNowV2] comes to
    [findAsset] for a match: the URL is clean, the registry is refreshed,
    the router answers with a destination that is no URL and a status
    that is no redirect, a match is found for the destination, and the
    call does not descend into the routes of the build result. *)

Definition clean_url (w : World) (r : Request) : bool :=
  match fst (url_parse w (or_root (url r))) with
  | Some pathname => negb (includes "//" pathname)
  | None => true
  end.

Definition stays (w : World) (r : Request) (route : RouteResult)
    (m : BuildMatch) (callLevel : nat) : Prop :=
  match subRoutes m (strip_leading_slash (dest route)) with
  | None => True
  | Some rules =>
      exists matchedRoute,
        devRouter w
          (Some (sub_url w (or_root (url r)) (dest route) (uri_args route)))
          (method r) (Some rules) = Ok matchedRoute /\
        (found matchedRoute && (callLevel =? 0)%nat) = false
  end.

Definition resolves_to (w : World) (routes : option (list RouteConfig))
    (callLevel : nat) (r : Request) (route : RouteResult) (m : BuildMatch)
    : Prop :=
  clean_url w r = true /\
  updateBuildMatches w = Ok tt /\
  devRouter w (url r) (method r) routes = Ok route /\
  isURL w (dest route) = false /\
  is_redirect (status route) = false /\
  findBuildMatch w (strip_leading_slash (dest route)) = Ok (Some m) /\
  stays w r route m callLevel.

(** The response once the route is applied: its headers, and its status
    when it has one. *)
Definition routed (route : RouteResult) (st : St) : St :=
  {| req := req st;
     res :=
       (if truthy_status (status route)
        then set_statusCode (default 0 (status route)) else id)
         (setHeaders (route_headers route) (res st));
     effects := effects st |}.

(** The response carries the request id. *)
Definition stamped (nowRequestId : string) (st : St) : Prop :=
  res_headers (res st) !! "x-now-id" = Some nowRequestId.

(** Some header of the dictionary is named [x-now-id], in whatever
    letter case. *)
Definition names_request_id (hs : Dict string) : bool :=
  existsb (fun e => String.eqb (lower (fst e)) "x-now-id") hs.

(** No function of the world returns a header named [x-now-id]. *)
Definition quiet_functions (w : World) : Prop :=
  forall fn payload result,
    invoke w fn payload = Ok result ->
    names_request_id (result_headers result) = false.

(** *** [devServerHandler] *)

Record Server := {
  podId : string;
  stopping : bool;
}.

(** The constructor draws the pod id. *)
Definition newServer (random32 : string) : Server :=
  {| podId := podId_of random32; stopping := false |}.

Definition start (r : Request) : St :=
  {| req := r; res := fresh; effects := [] |}.

Definition dispatch (w : World) (nowRequestId : string) : M unit :=
  let* nowConfig := lift (getNowConfig w) in
  serveProjectAsNowV2 w nowRequestId nowConfig 0.

(** The handler, given what [Date.now()] and [randomBytes(6)] return for
    the request id. An error that escapes the dispatcher is answered with
    a bare 500 unless the response is already finished. *)
Definition devServerHandler (w : World) (srv : Server) (now : N)
    (random : list Byte.byte) (r : Request) : St :=
  let nowRequestId := generateRequestId (podId srv) now random in
  if stopping srv then
    snd ((modify_res (setHeader "Connection" "close") ;;
          send404 nowRequestId) (start r))
  else
    match dispatch w nowRequestId (start r) with
    | (Ok _, st) => st
    | (Throws message, st) =>
        match body (res st) with
        | Some _ => st
        | None =>
            {| req := req st;
               res := end_with (MessageBody message)
                        (set_statusCode 500 (res st));
               effects := effects st |}
        end
    end.

(** *** A sample world

    One function [api/hello.js] served by a builder that answers the
    request path itself, Node's [url.parse] on an origin-form target (the
    path up to the first question mark, the rest as the search), and a
    router that sends every URL to its own path. *)

Fixpoint split_query (u : string) : string * option string :=
  match u with
  | EmptyString => (EmptyString, None)
  | String c u' =>
      if Ascii.eqb c "?" then (EmptyString, Some u)
      else let (p, q) := split_query u' in (String c p, q)
  end.

Definition parse_origin_form (u : string) : option string * option string :=
  let (p, q) := split_query u in (Some p, q).

Definition hello : BuildMatch :=
  {| src := "api/hello.js"; use := "@now/node"; buildTimestamp := 0;
     buildResults := [];
     buildOutput := Some [("api/hello.js", Lambda (Some 0%nat))] |}.

Definition hello_result : InvokeResult :=
  {| result_statusCode := 202; result_headers := [("x", "y")];
     result_body := Some "b2s="; result_encoding := Some "base64" |}.

Definition route_to (status : option Z) (u : option string) : RouteResult :=
  {| found := true; dest := fst (split_query (or_root u)); status := status;
     route_headers := []; uri_args := [] |}.

(** The same match once its builder has answered with routes of its own. *)
Definition hello_routed : BuildMatch :=
  {| src := "api/hello.js"; use := "@now/node"; buildTimestamp := 0;
     buildResults :=
       [(None, {| output := [("api/hello.js", Lambda (Some 0%nat))];
                  routes := Some [{| route_src := "/api/(.*)";
                                     route_dest := Some "/api/hello.js";
                                     route_status := None |}];
                  watch := None; distPath := None |})];
     buildOutput := Some [("api/hello.js", Lambda (Some 0%nat))] |}.

Definition sample_world (m : BuildMatch) (status : option Z)
    (build : Result BuildMatch) : World :=
  {| url_parse := parse_origin_form;
     proxy_url := fun dest _ => dest;
     sub_url := fun _ dest _ => dest;
     lambda_path := fun u _ => u;
     devRouter := fun u _ _ => Ok (route_to status u);
     isURL := fun _ => false;
     getNowConfig := Ok None;
     updateBuildMatches := Ok tt;
     findBuildMatch := fun p =>
       Ok (if String.eqb p "api/hello.js" then Some m else None);
     triggerBuild := fun _ _ => build;
     directoryListing := fun _ => None;
     getMimeType := fun _ => "application/octet-stream";
     rawBody := Ok "hello";
     base64 := fun s => s;
     invoke := fun _ _ => Ok hello_result |}.

Definition request (method url : string) (hs : gmap string string) : Request :=
  {| method := Some method; url := Some url; headers := hs;
     remoteAddress := Some "127.0.0.1" |}.

Definition no_cache : gmap string string := {[ "cache-control" := "no-cache" ]}.

(** A request for the function that asks for a fresh build, in a world
    where the match has routes of its own. *)
Definition routed_world : World :=
  sample_world hello_routed None (Ok hello_routed).

Definition fresh_hello : Request := request "GET" "/api/hello.js" no_cache.

(** A world in which the build of the function fails. *)
Definition failing_world : World :=
  sample_world hello None (Throws "build failed").

(** A world in which the route supplies the status 404. *)
Definition teapot_world : World :=
  sample_world hello (Some 404) (Ok hello).

Definition plain_world : World := sample_world hello None (Ok hello).

Definition sample_id : string := "dev1:q4wlg-1562364135397-7a873ac99c8e".

Definition sample_server : Server := {| podId := "q4wlg"; stopping := false |}.

Definition sample_random : list Byte.byte :=
  [Byte.x7a; Byte.x87; Byte.x3a; Byte.xc9; Byte.x9c; Byte.x8e].

End Dispatcher.

(** ** The registry of build matches: [updateBuildMatches],
    [invalidateBuildMatches], [findBuildMatch], [shouldServe], [stop] *)

Module Registry.
Import Assets Dispatcher.

(** [builderWithPkg]: the name of the builder's package, and the builder's
    [shouldServe] when it is a function, by what it answers for the
    project files and a request path (a falsy answer is [false]). *)
Record BuilderWithPkg := {
  package_name : option string;
  builder_shouldServe : option (gmap string Asset -> string -> Result bool);
}.

(** A build match together with its builder. *)
Record Registered := {
  buildMatch : BuildMatch;
  builderWithPkg : BuilderWithPkg;
}.

Definition match_src (m : Registered) : string := src (buildMatch m).
Definition match_use (m : Registered) : string := use (buildMatch m).

(** [DevServer.buildMatches]: a [Map] from [src] to the match, in
    insertion order. *)
Definition Matches := Dict Registered.

Definition needsBlockingBuild (m : Registered) : bool :=
  match builder_shouldServe (builderWithPkg m) with
  | Some _ => false
  | None => true
  end.

(** The comparator handed to [Array.prototype.sort]. *)
Definition sortBuilders (buildA buildB : Registered) : Z :=
  if startsWith "@now/static-build" (match_use buildA) then 1
  else if startsWith "@now/static-build" (match_use buildB) then -1
  else 0.

(** [sources.includes(src)] *)
Definition includes_source (sources : list string) (s : string) : bool :=
  existsb (String.eqb s) sources.

(** What a refresh of the registry leaves behind: the new map, the
    matches handed to [shutdownBuilder], and the matches a build was
    started for ([blockingBuildsPromise] is replaced when there are any). *)
Record Updated := {
  registry : Matches;
  shutdowns : list Registered;
  blockingBuilds : list Registered;
}.

(** The first loop of [updateBuildMatches], over the keys of the map. *)
Definition remove_stale (sources : list string) (reg : Matches)
    : Matches * list Registered :=
  fold_left
    (fun acc key =>
       if includes_source sources key then acc
       else
         (dict_delete key (fst acc),
          snd acc ++ match dict_get (fst acc) key with
                     | Some m => [m]
                     | None => []
                     end))
    (fst <$> reg) (reg, []).

(** [!currentMatch || currentMatch.use !== match.use] *)
Definition is_added (currentMatch : option Registered) (m : Registered)
    : bool :=
  match currentMatch with
  | None => true
  | Some c => negb (String.eqb (match_use c) (match_use m))
  end.

(** The second loop, over the matches [getBuildMatches] computed. *)
Definition add_match (isInitial : bool)
    (acc : Matches * list Registered) (m : Registered)
    : Matches * list Registered :=
  let currentMatch := dict_get (fst acc) (match_src m) in
  if is_added currentMatch m then
    (dict_set (match_src m) m (fst acc),
     if negb isInitial && needsBlockingBuild m then snd acc ++ [m]
     else snd acc)
  else acc.

Definition add_matches (isInitial : bool) (matches : list Registered)
    (reg : Matches) : Matches * list Registered :=
  fold_left (add_match isInitial) matches (reg, []).

(** The map is keyed by the [src] of its matches, each key once. *)
Definition keyed (reg : Matches) : Prop :=
  NoDup (fst <$> reg) /\ Forall (fun e => fst e = match_src (snd e)) reg.

Section Update.

(** [Array.prototype.sort] of the engine, with the comparator. *)
Variable sort :
  (string * Registered -> string * Registered -> Z) ->
  list (string * Registered) -> list (string * Registered).

(** [updateBuildMatches(nowConfig, isInitial)], given the matches
    [getBuildMatches] answers for the config and the project files. *)
Definition updateBuildMatches (matches : list Registered) (isInitial : bool)
    (reg : Matches) : Updated :=
  let sources := match_src <$> matches in
  let stale := remove_stale sources reg in
  let added := add_matches isInitial matches (fst stale) in
  {| registry :=
       sort (fun matchA matchB => sortBuilders (snd matchA) (snd matchB))
         (fst added);
     shutdowns := snd stale;
     blockingBuilds := snd added |}.

(** The test of the loop of [invalidateBuildMatches]: the package is not
    [@now/static], it has a name, and the name is among the updated
    builders. *)
Definition is_outdated (updatedBuilders : list string) (m : Registered)
    : bool :=
  let name := package_name (builderWithPkg m) in
  if bool_decide (name = Some "@now/static") then false
  else
    match truthy_string name with
    | Some n => existsb (String.eqb n) updatedBuilders
    | None => false
    end.

(** The loop over the matches of the map (each is stored under its
    [src]): an outdated match is shut down and deleted. *)
Definition purge_one (updatedBuilders : list string)
    (acc : Matches * list Registered) (m : Registered)
    : Matches * list Registered :=
  if is_outdated updatedBuilders m
  then (dict_delete (match_src m) (fst acc), snd acc ++ [m])
  else acc.

Definition purge (updatedBuilders : list string) (reg : Matches)
    : Matches * list Registered :=
  fold_left (purge_one updatedBuilders) (snd <$> reg) (reg, []).

(** [invalidateBuildMatches(nowConfig, updatedBuilders)]; the purge of the
    [require] cache does not touch the registry. *)
Definition invalidateBuildMatches (matches : list Registered)
    (updatedBuilders : list string) (reg : Matches) : Updated :=
  match updatedBuilders with
  | [] => {| registry := reg; shutdowns := []; blockingBuilds := [] |}
  | _ :: _ =>
      let purged := purge updatedBuilders reg in
      let updated := updateBuildMatches matches false (fst purged) in
      {| registry := registry updated;
         shutdowns := snd purged ++ shutdowns updated;
         blockingBuilds := blockingBuilds updated |}
  end.

End Update.

Section Serve.

(** The router, as in [Dispatcher.World]. *)
Variable devRouter :
  option string -> option string -> option (list RouteConfig) ->
  Result RouteResult.

(** [this.files] *)
Variable files : gmap string Asset.

Fixpoint findMatchingRoute_loop (reqUrl : string)
    (results : list (option string * BuildResult))
    : Result (option RouteResult) :=
  match results with
  | [] => Ok None
  | e :: rest =>
      match routes (snd e) with
      | None => findMatchingRoute_loop reqUrl rest
      | Some rules =>
          match devRouter (Some reqUrl) None (Some rules) with
          | Throws message => Throws message
          | Ok route =>
              if found route then Ok (Some route)
              else findMatchingRoute_loop reqUrl rest
          end
      end
  end.

Definition findMatchingRoute (m : Registered) (requestPath : string)
    : Result (option RouteResult) :=
  findMatchingRoute_loop ("/" +:+ requestPath) (buildResults (buildMatch m)).

Definition shouldServe (m : Registered) (requestPath : string)
    (isFilesystem : bool) : Result bool :=
  match builder_shouldServe (builderWithPkg m) with
  | Some answer => answer files requestPath
  | None =>
      if bool_decide (is_Some (findAsset (buildMatch m) requestPath))
      then Ok true
      else if negb isFilesystem then
        match findMatchingRoute m requestPath with
        | Throws message => Throws message
        | Ok (Some _) => Ok true
        | Ok None => Ok false
        end
      else Ok false
  end.

(** The loop of [findBuildMatch] over the matches of the map. *)
Fixpoint findBuildMatch_loop (matches : list Registered)
    (requestPath : string) (isFilesystem : bool)
    : Result (option Registered) :=
  match matches with
  | [] => Ok None
  | m :: rest =>
      match shouldServe m requestPath isFilesystem with
      | Throws message => Throws message
      | Ok true => Ok (Some m)
      | Ok false => findBuildMatch_loop rest requestPath isFilesystem
      end
  end.

Definition findBuildMatch (reg : Matches) (requestPath : string)
    (isFilesystem : bool) : Result (option Registered) :=
  findBuildMatch_loop (snd <$> reg) requestPath isFilesystem.

Definition hasFilesystem (reg : Matches) (dest : string) : Result bool :=
  match findBuildMatch reg (strip_leading_slash dest) true with
  | Throws message => Throws message
  | Ok (Some _) => Ok true
  | Ok None => Ok false
  end.

End Serve.

(** *** [stop] *)

(** What [stop] starts, in order. *)
Inductive StopOp :=
  | ShutdownBuilder (m : Registered)
  | CloseServer
  | CloseWatcher
  | AwaitUpdateBuilders.

(** How [Promise.all(ops)] settles. *)
Inductive Closing :=
  | Closed
  | CloseFailed (code : option string) (message : string).

Inductive Stopped :=
  | StopReturns
  | ProcessExit (code : Z)
  | StopThrows (message : string).

(** [stop(exitCode)], given whether the watcher exists and whether the
    update of the builders is still running. *)
Definition stop (exitCode : option Z) (reg : Matches) (watcher : bool)
    (updateBuildersPromise : bool) (closing : Closing) (srv : Server)
    : Server * list StopOp * Stopped :=
  if stopping srv then (srv, [], StopReturns)
  else
    ({| podId := podId srv; stopping := true |},
     (ShutdownBuilder <$> (snd <$> reg)) ++ [CloseServer] ++
     (if watcher then [CloseWatcher] else []) ++
     (if updateBuildersPromise then [AwaitUpdateBuilders] else []),
     match closing with
     | Closed => StopReturns
     | CloseFailed code message =>
         if bool_decide (code = Some "ERR_SERVER_NOT_RUNNING") ||
            String.eqb message "Not running"
         then ProcessExit
                (if truthy_status exitCode then default 0 exitCode else 0)
         else StopThrows message
     end).

(** *** Sample data: a static match, a function and a site build *)

Definition static_pkg : BuilderWithPkg :=
  {| package_name := Some "@now/static"; builder_shouldServe := None |}.

Definition node_pkg : BuilderWithPkg :=
  {| package_name := Some "@now/node";
     builder_shouldServe :=
       Some (fun _ p => Ok (String.eqb p "api/hello.js")) |}.

Definition site_pkg : BuilderWithPkg :=
  {| package_name := Some "@now/static-build"; builder_shouldServe := None |}.

Definition docs_match : Registered :=
  {| buildMatch := docs; builderWithPkg := static_pkg |}.

Definition hello_match : Registered :=
  {| buildMatch := hello; builderWithPkg := node_pkg |}.

Definition site_match : Registered :=
  {| buildMatch := FsEvents.site; builderWithPkg := site_pkg |}.

(** The function's entrypoint, now built by another builder. *)
Definition hello_next : Registered :=
  {| buildMatch :=
       {| src := "api/hello.js"; use := "@now/next"; buildTimestamp := 0;
          buildResults := []; buildOutput := None |};
     builderWithPkg :=
       {| package_name := Some "@now/next"; builder_shouldServe := None |} |}.

Definition sample_registry : Matches :=
  [ ("docs/**", docs_match); ("api/hello.js", hello_match) ].

(** A sort that keeps the order it is given. *)
Definition sort_keep
    (cmp : string * Registered -> string * Registered -> Z)
    (l : list (string * Registered)) : list (string * Registered) := l.

(** A router that finds nothing. *)
Definition no_route (u m : option string) (rules : option (list RouteConfig))
    : Result RouteResult :=
  Ok {| found := false; dest := or_root u; status := None;
        route_headers := []; uri_args := [] |}.

End Registry.

(** ** The file watcher: [enqueueFsEvent] and the rebuilds of
    [handleFilesystemEvents] *)

Module Watcher.
Import FsEvents Dispatcher Registry.

(** The aggregation state of the server, with the number of timers set
    so far and the batches handed to [handleFilesystemEvents]. *)
Record Aggregation := {
  watchAggregationEvents : list FSEvent;
  watchAggregationId : option nat;
  timers : nat;
  batches : list (list FSEvent);
}.

(** The state the constructor leaves. *)
Definition idle : Aggregation :=
  {| watchAggregationEvents := []; watchAggregationId := None;
     timers := 0; batches := [] |}.

Definition enqueueFsEvent (type path : string) (a : Aggregation)
    : Aggregation :=
  let events :=
    watchAggregationEvents a ++ [{| type := type; path := path |}] in
  match watchAggregationId a with
  | None =>
      {| watchAggregationEvents := events;
         watchAggregationId := Some (timers a);
         timers := S (timers a); batches := batches a |}
  | Some id =>
      {| watchAggregationEvents := events; watchAggregationId := Some id;
         timers := timers a; batches := batches a |}
  end.

(** The callback of the timer, [watchAggregationTimeout] later. *)
Definition timer_fires (a : Aggregation) : Aggregation :=
  {| watchAggregationEvents := []; watchAggregationId := None;
     timers := timers a;
     batches := batches a ++ [watchAggregationEvents a] |}.

(** What happens to the watcher: an event arrives, or the timer that was
    set fires. *)
Inductive WatchStep :=
  | Enqueue (type path : string)
  | TimerFires.

Definition watch_step (a : Aggregation) (s : WatchStep)
    : option Aggregation :=
  match s with
  | Enqueue type path => Some (enqueueFsEvent type path a)
  | TimerFires =>
      match watchAggregationId a with
      | Some _ => Some (timer_fires a)
      | None => None
      end
  end.

Fixpoint watch_run (a : Aggregation) (steps : list WatchStep)
    : option Aggregation :=
  match steps with
  | [] => Some a
  | s :: steps' => a' ← watch_step a s; watch_run a' steps'
  end.

(** The events that arrived, in order. *)
Definition enqueued (steps : list WatchStep) : list FSEvent :=
  omap (fun s => match s with
                 | Enqueue type path => Some {| type := type; path := path |}
                 | TimerFires => None
                 end) steps.

(** What holds of the aggregation between steps. *)
Record aggregated (events : list FSEvent) (a : Aggregation) : Prop := {
  all_events : concat (batches a) ++ watchAggregationEvents a = events;
  no_empty_batch : Forall (fun b => b <> []) (batches a);
  timer_pending :
    watchAggregationId a = None <-> watchAggregationEvents a = [];
  one_timer_per_batch :
    timers a = (length (batches a) +
                if watchAggregationId a then 1 else 0)%nat;
}.

Section Rebuild.

(** [minimatch(file, pattern)] *)
Variable minimatch : string -> string -> bool.

Variable devRouter :
  option string -> option string -> option (list RouteConfig) ->
  Result RouteResult.

Variable files : gmap string Asset.

(** Whether two entries of build results, each given by the [src] of its
    match and its key, hold the same [BuildResult] object: [needsRebuild]
    is a [Map] keyed by the object. *)
Variable same_result :
  string * option string -> string * option string -> bool.

Definition minimatches (names : list string) (pattern : string) : bool :=
  existsb (fun file => String.eqb file pattern || minimatch file pattern)
    names.

(** An entry of [needsRebuild]. *)
Record Queued := {
  queued_requestPath : option string;
  queued_match : Registered;
  queued_result : BuildResult;
}.

(** The loop over the patterns of a result with a [watch] array. *)
Definition watches (changed removed : list string) (result : BuildResult)
    : bool :=
  match watch result with
  | Some patterns =>
      existsb (fun pattern => minimatches changed pattern ||
                              minimatches removed pattern) patterns
  | None => false
  end.

Definition is_queued (needsRebuild : list Queued) (m : Registered)
    (requestPath : option string) : bool :=
  existsb
    (fun q => same_result (match_src (queued_match q), queued_requestPath q)
                (match_src m, requestPath)) needsRebuild.

Definition queue_result (changed removed : list string) (m : Registered)
    (needsRebuild : list Queued) (e : option string * BuildResult)
    : list Queued :=
  if is_queued needsRebuild m (fst e) then needsRebuild
  else if watches changed removed (snd e) then
    needsRebuild ++ [{| queued_requestPath := fst e; queued_match := m;
                        queued_result := snd e |}]
  else needsRebuild.

Definition queue_match (changed removed : list string)
    (needsRebuild : list Queued) (m : Registered) : list Queued :=
  fold_left (queue_result changed removed m) (buildResults (buildMatch m))
    needsRebuild.

(** The build results that depend on a file that changed or was removed. *)
Definition needsRebuild (changed removed : list string) (reg : Matches)
    : list Queued :=
  fold_left (queue_match changed removed) (snd <$> reg) [].

(** The last loop: the calls of [triggerBuild], and the error when a
    [shouldServe] throws. *)
Fixpoint trigger_rebuilds (queue : list Queued)
    : list Queued * option string :=
  match queue with
  | [] => ([], None)
  | q :: rest =>
      match queued_requestPath q with
      | None =>
          let (triggered, failure) := trigger_rebuilds rest in
          (q :: triggered, failure)
      | Some requestPath =>
          match shouldServe devRouter files (queued_match q) requestPath
                  false with
          | Throws message => ([], Some message)
          | Ok true =>
              let (triggered, failure) := trigger_rebuilds rest in
              (q :: triggered, failure)
          | Ok false => trigger_rebuilds rest
          end
      end
  end.

(** The second part of [handleFilesystemEvents], after the registry has
    been refreshed. *)
Definition rebuilds (changed removed : list string) (reg : Matches)
    : list Queued * option string :=
  trigger_rebuilds (needsRebuild changed removed reg).

(** An entry of the queue is an entry of the registry that watches a
    file of the batch. *)
Definition queued_ok (changed removed : list string) (reg : Matches)
    (q : Queued) : Prop :=
  (exists k, (k, queued_match q) ∈ reg) /\
  (queued_requestPath q, queued_result q)
    ∈ buildResults (buildMatch (queued_match q)) /\
  watches changed removed (queued_result q) = true.

(** The result of an entry is queued, or the same object is queued under
    another entry. *)
Definition represented (m : Registered) (e : option string * BuildResult)
    (queue : list Queued) : Prop :=
  exists q, q ∈ queue /\
    (q = {| queued_requestPath := fst e; queued_match := m;
            queued_result := snd e |} \/
     same_result (match_src (queued_match q), queued_requestPath q)
       (match_src m, fst e) = true).

End Rebuild.

(** *** Sample data *)

(** The site build watches its sources. *)
Definition watched_site : Registered :=
  {| buildMatch :=
       {| src := "package.json"; use := "@now/static-build";
          buildTimestamp := 0;
          buildResults :=
            [(None, {| output := []; routes := None;
                       watch := Some ["src/**"; "package.json"];
                       distPath := Some "/app/dist" |})];
          buildOutput := Some [] |};
     builderWithPkg := site_pkg |}.

Definition watched_registry : Matches :=
  [ ("docs/**", docs_match); ("package.json", watched_site) ].

(** A matcher that knows no pattern. *)
Definition no_glob (file pattern : string) : bool := false.

(** Every entry holds an object of its own. *)
Definition own_result (a b : string * option string) : bool :=
  bool_decide (a = b).

(** Three events within the window, and the timer. *)
Definition burst : list WatchStep :=
  [ Enqueue "change" "/app/a.js"; Enqueue "unlink" "/app/b.js";
    Enqueue "add" "/app/c.js"; TimerFires ].

End Watcher.

(** ** The directory listing: [renderDirectoryListing] *)

Module Listing.
Import Dispatcher.

(** An entry handed to the directory template. *)
Record FileEntry := {
  entry_type : string;
  entry_relative : string;
  entry_ext : string;
  entry_title : string;
  entry_base : string;
}.

(** [s.endsWith('/')] *)
Fixpoint ends_with_slash (s : string) : bool :=
  match s with
  | EmptyString => false
  | String c EmptyString => Ascii.eqb c "/"
  | String _ s' => ends_with_slash s'
  end.

(** The prefix: the request path, with a slash at its end unless it is
    empty. *)
Definition prefix_of (requestPath : string) : string :=
  if (0 <? String.length requestPath)%nat && negb (ends_with_slash requestPath)
  then requestPath +:+ "/" else requestPath.

Section Listing.

(** [relative(from, to)] of [util/path-helpers], not part of this file. *)
Variable relative : string -> string -> string.

(** The template of [serve-handler], given the entries, the directory
    and the request path. *)
Variable directoryTemplate : list FileEntry -> string -> string -> string.

(** The first test of the filter: the config files, and the sources that
    do not lie under the prefix. *)
Definition is_hidden (prefix p : string) : bool :=
  let base := Path.basename p EmptyString in
  String.eqb base "now.json" || String.eqb base ".nowignore" ||
  negb (startsWith prefix p).

(** [rel.split('/')[0]] when [rel] contains a slash. *)
Definition folder_of (prefix p : string) : option string :=
  let rel := relative prefix p in
  if includes "/" rel then Some (default EmptyString (head (split_on "/" rel)))
  else None.

(** The filter, with the set [dirs] of the folders seen so far. *)
Fixpoint listed_keys (prefix : string) (dirs : gset string)
    (keys : list string) : list string :=
  match keys with
  | [] => []
  | p :: rest =>
      if is_hidden prefix p then listed_keys prefix dirs rest
      else
        match folder_of prefix p with
        | Some dir =>
            if bool_decide (dir ∈ dirs) then listed_keys prefix dirs rest
            else p :: listed_keys prefix (dirs ∪ {[ dir ]}) rest
        | None => p :: listed_keys prefix dirs rest
        end
  end.

(** The map: a folder, or a file or function. *)
Definition entry_of (prefix p : string) : FileEntry :=
  match folder_of prefix p with
  | Some dir =>
      let href := "/" +:+ prefix +:+ dir +:+ "/" in
      {| entry_type := "folder"; entry_relative := href;
         entry_ext := EmptyString; entry_title := href; entry_base := dir |}
  | None =>
      let base := Path.basename p EmptyString in
      let href := "/" +:+ prefix +:+ base in
      {| entry_type := "file"; entry_relative := href;
         entry_ext := tail_string (Path.extname p); entry_title := href;
         entry_base := base |}
  end.

Definition entries (keys : list string) (requestPath : string)
    : list FileEntry :=
  let prefix := prefix_of requestPath in
  entry_of prefix <$> listed_keys prefix ∅ keys.

(** The listing of the sources of the registry under the request path:
    the page, or nothing when there is no entry (the caller then answers
    404). This is what [Dispatcher.directoryListing] stands for. *)
Definition directoryListing (keys : list string) (requestPath : string)
    : option string :=
  match entries keys requestPath with
  | [] => None
  | e :: es =>
      Some (directoryTemplate (e :: es) ("/" +:+ prefix_of requestPath)
              requestPath)
  end.

(** The folders among the entries. *)
Definition folders (es : list FileEntry) : list string :=
  entry_base <$>
    List.filter (fun e => String.eqb (entry_type e) "folder") es.

End Listing.

(** *** Sample data *)

(** A path relative to a prefix it starts with. *)
Definition strip_prefix (prefix p : string) : string :=
  String.substring (String.length prefix)
    (String.length p - String.length prefix) p.

Definition page_of (es : list FileEntry) (directory requestPath : string)
    : string :=
  directory.

Definition sources : list string :=
  [ "now.json"; "index.html"; "api/hello.js"; "api/bye.js"; "docs/a.md" ].

End Listing.

(** ** Start-up: the local environment files and the listen loop of
    [start] *)

Module Boot.
Import Env Dispatcher.

(** *** [getLocalEnv] *)

(** What [fs.readFile] gives for the file. *)
Inductive ReadFile :=
  | FileRead (content : string)
  | ReadFails (code : string).

(** How [getLocalEnv] ends: with the environment (and the names it
    ignored), with the exit of the process after the error message, or
    with the error of the read. *)
Inductive LocalEnv :=
  | EnvLoaded (env : gmap string string) (ignored : list string)
  | EnvExits (missing : list string)
  | EnvThrows (code : string).

Section LocalEnv.

(** [parse] of [dotenv] *)
Variable parseDotenv : string -> gmap string string.

(** The variables of the file; a file that does not exist has none. *)
Definition dotenv_of (read : ReadFile) : Result (gmap string string) :=
  match read with
  | FileRead content => Ok (parseDotenv content)
  | ReadFails code => if String.eqb code "ENOENT" then Ok ∅ else Throws code
  end.

Definition getLocalEnv (fileName : string)
    (base : option (gmap string string)) (read : ReadFile) : LocalEnv :=
  match dotenv_of read with
  | Throws code => EnvThrows code
  | Ok env =>
      match validateEnvConfig fileName (default ∅ base) env with
      | Merged merged ignored => EnvLoaded merged ignored
      | MissingDotenvVarsError _ missing => EnvExits missing
      end
  end.

End LocalEnv.

(** A reference of the base to a secret that the local file does not
    define. *)
Definition missing_reference (base localEnv : gmap string string)
    (name : string) : Prop :=
  exists value, base !! name = Some value /\
    String.prefix "@" value = true /\ localEnv !! name = None.

(** *** The listen loop *)

(** [listenSpec[0]]: a port, or the path of a socket. *)
Inductive ListenSpec :=
  | Port (port : Z)
  | Socket (path : string).

(** What [listen(this.server, ...listenSpec)] gives. *)
Inductive Listened :=
  | Listening (address : string)
  | ListenFails (code : string).

Inductive Started :=
  | Available (address : string) (spec : ListenSpec)
  | ProcessExits
  | StartThrows (code : string)
  | StillTrying.

(** [s.replace(pattern, replacement)] for a string pattern: the first
    occurrence is replaced. *)
Fixpoint replace_first (pattern replacement s : string) : string :=
  if startsWith pattern s then
    replacement +:+
    String.substring (String.length pattern)
      (String.length s - String.length pattern) s
  else
    match s with
    | EmptyString => EmptyString
    | String c s' => String c (replace_first pattern replacement s')
    end.

Definition shown_address (address : string) : string :=
  replace_first "127.0.0.1" "localhost"
    (replace_first "[::]" "localhost" address).

Section Listen.

Variable listen : ListenSpec -> Listened.

(** The [while] loop, for at most [fuel] calls of [listen]. *)
Fixpoint listen_loop (fuel : nat) (spec : ListenSpec) : Started :=
  match fuel with
  | O => StillTrying
  | S fuel' =>
      match listen spec with
      | Listening address => Available (shown_address address) spec
      | ListenFails code =>
          if String.eqb code "EADDRINUSE" then
            match spec with
            | Port port => listen_loop fuel' (Port (port + 1))
            | Socket _ => ProcessExits
            end
          else StartThrows code
      end
  end.

End Listen.

(** *** Sample data *)

(** Ports 3000 and 3001 are taken. *)
Definition busy (spec : ListenSpec) : Listened :=
  match spec with
  | Port port =>
      if (port =? 3000) || (port =? 3001) then ListenFails "EADDRINUSE"
      else Listening "http://[::]:3002"
  | Socket _ => ListenFails "EADDRINUSE"
  end.

Definition parse_nothing (content : string) : gmap string string := ∅.

End Boot.

(** ** Further notions used by the properties below *)

Module Outcomes.
Import RequestId Dispatcher.

(** The response has been ended, or handed to the static handler or the
    proxy. *)
Definition finished (st : St) : Prop := is_Some (body (res st)).

(** The calls of [triggerBuild] among the effects. *)
Definition builds (es : list Effect) : list (BuildMatch * option string) :=
  omap (fun e => match e with
                 | TriggerBuild m requestPath => Some (m, requestPath)
                 | Invoke _ _ => None
                 end) es.

(** Between the two states no build was triggered. *)
Definition no_build_between (st st' : St) : Prop :=
  builds (effects st') = builds (effects st).

(** Between the two states at most one build was triggered. *)
Definition one_build_at_most (st st' : St) : Prop :=
  builds (effects st') = builds (effects st) \/
  exists m requestPath,
    builds (effects st') = builds (effects st) ++ [(m, requestPath)].

(** The string contains no hyphen. *)
Definition no_hyphen (s : string) : bool :=
  Env.all_chars (fun c => negb (Ascii.eqb c "-")) s.

(** The names [getNowProxyHeaders] writes. *)
Definition forwarded_names : list string :=
  [ "Connection"; "x-forwarded-host"; "x-forwarded-proto";
    "x-forwarded-for"; "x-real-ip"; "x-now-trace"; "x-now-deployment-url";
    "x-now-id"; "x-now-log-id"; "x-zeit-co-forwarded-for" ].

(** The names [sendError] writes, in lower case. *)
Definition error_header_names : list string :=
  [ "cache-control"; "server"; "x-now-trace"; "x-now-id"; "x-now-cache";
    "content-type" ].

(** A request from a browser, through a proxy that names another client. *)
Definition spoofed : Request :=
  {| method := Some "POST"; url := Some "/api/hello.js";
     headers := {[ "host" := "localhost:3000";
                   "x-forwarded-for" := "10.0.0.1";
                   "accept" := "text/html,application/json" ]};
     remoteAddress := Some "192.168.1.5" |}.

End Outcomes.

Module FsSamples.
Import FsEvents.

(** A file is changed and then removed; another is changed, but cannot
    be read. *)
Definition unreadable : list (FSEvent * Stat) :=
  [ ({| type := "change"; path := "/app/a.js" |}, StatOk 420);
    ({| type := "change"; path := "/app/b.js" |}, StatThrows "EACCES");
    ({| type := "unlink"; path := "/app/a.js" |}, StatThrows "ENOENT") ].

End FsSamples.

Module SchedulerSamples.
Import Scheduler SchedulerData.

(** Two triggers for one key, one after the other, and a third once the
    build has completed. *)
Definition in_turn : list Turn :=
  [ Trigger "pages/index.js" (Some "about") None 5000;
    Trigger "pages/index.js" (Some "about") None 5001;
    Complete 0 (Succeeds about_html 6000);
    Trigger "pages/index.js" (Some "about") None 9000 ].

(** A call that has decided to rebuild the page of [about_html]. *)
Definition rebuilding : Sched :=
  {| buildMatches :=
       {[ "pages/index.js" :=
            {| src := "pages/index.js"; use := "@now/next";
               buildTimestamp := 0;
               buildResults := [(Some "about", about_html)];
               buildOutput :=
                 Some [("about", FileBlob "<html>");
                       ("index", FileBlob "<html>")] |} ]};
     inProgressBuilds := ∅; promises := [];
     tasks := [AwaitConfig "pages/index.js-about" "pages/index.js"
                 (Some "about") (Some about_html)] |}.

End SchedulerSamples.
(** * Properties *)

(** ** Build scheduler *)

Section SchedulerFacts.
Import Scheduler SchedulerData.

Example key_of_sentinel : buildKey page None = "pages/index.js".
Proof. reflexivity. Qed.

Example key_of_path : buildKey page (Some "about") = "pages/index.js-about".
Proof. reflexivity. Qed.

(** A call that finds an entry for its key starts nothing and waits on the
    promise it found. *)
Lemma triggerBuild_dedupes s k m rp prev now p :
  buildMatches s !! k = Some m ->
  inProgressBuilds s !! buildKey m rp = Some p ->
  exists s', triggerBuild_check s k rp prev now = Some s' /\
    promises s' = promises s /\
    inProgressBuilds s' = inProgressBuilds s /\
    tasks s' = tasks s ++ [AwaitBuild (buildKey m rp) (Some p)].
Proof.
  intros Hm Hp. unfold triggerBuild_check, decide_build. rewrite Hm. simpl.
  rewrite Hp.
  eexists. repeat split.
Qed.

(** The [finally] block: whoever resumes from [await buildPromise] leaves
    no entry for its key, whether the build resolved or rejected. *)
Lemma triggerBuild_finally_deletes_key s t s' key p :
  tasks s !! t = Some (AwaitBuild key p) ->
  triggerBuild_finally s t = Some s' ->
  inProgressBuilds s' !! key = None /\ promises s' = promises s.
Proof.
  intros Ht. unfold triggerBuild_finally. rewrite Ht. destruct p as [p|].
  - destruct (promises s !! p) as [b|]; simpl; [|discriminate].
    destruct (build_state b); simpl; [|discriminate].
    intros [= <-]. simpl. split; [apply lookup_delete_eq | reflexivity].
  - intros [= <-]. simpl. split; [apply lookup_delete_eq | reflexivity].
Qed.

(** A task is resumed from [await buildPromise] only once the promise it
    waits on has settled. *)
Lemma triggerBuild_finally_needs_settled s t s' key p :
  tasks s !! t = Some (AwaitBuild key (Some p)) ->
  triggerBuild_finally s t = Some s' ->
  exists b st, promises s !! p = Some b /\ build_state b = Some st.
Proof.
  intros Ht. unfold triggerBuild_finally. rewrite Ht.
  destruct (promises s !! p) as [b|]; simpl; [|discriminate].
  destruct (build_state b) as [st|] eqn:E; simpl; [|discriminate].
  intros _. eauto.
Qed.

(** C1, evaluated on the code. The check of [inProgressBuilds] and the
    [set] are separated by [await this.getNowConfig()]: when a second call
    for the same key runs in between, both calls find no entry, both pass
    the cooldown test and both start [executeBuild]. After the schedule
    [race] two builds of key ["pages/index.js-about"] are in progress at
    once, and the map only knows the second. *)
Theorem C1_race_starts_two_builds :
  exists s, run (init one_match) race = Some s /\
    length (pending s "pages/index.js-about") = 2%nat /\
    inProgressBuilds s !! "pages/index.js-about" = Some 1%nat /\
    tasks s = [AwaitBuild "pages/index.js-about" (Some 0%nat);
               AwaitBuild "pages/index.js-about" (Some 1%nat)].
Proof.
  eexists. split; [vm_compute; reflexivity|].
  repeat split; vm_compute; reflexivity.
Qed.

(** With no build in progress for the key, the decision is the cooldown
    test alone, and the test is strict. *)
Lemma decide_build_cooldown s m rp now :
  inProgressBuilds s !! buildKey m rp = None ->
  (decide_build s m rp now = Skip <-> now - buildTimestamp m < 2000) /\
  (decide_build s m rp now = Rebuild <-> 2000 <= now - buildTimestamp m).
Proof.
  intros H. unfold decide_build, ms_2s. rewrite H.
  destruct (Z.ltb_spec (now - buildTimestamp m) 2000);
    split; split; (lia || congruence || discriminate).
Qed.

Lemma buildKey_publish rp r stamp prev m rp' :
  buildKey (publish rp r stamp (teardown prev m)) rp' = buildKey m rp'.
Proof. destruct prev, rp'; reflexivity. Qed.

(** A first trigger that rebuilds, its build stamping [buildTimestamp]
    with [stamp], then a second trigger at [t1]: the second one starts a
    build exactly when two seconds have passed since [stamp]. *)
Lemma two_triggers_count ms k m rp t0 r stamp t1 :
  ms !! k = Some m ->
  2000 <= t0 - buildTimestamp m ->
  exists s, two_triggers ms k rp t0 (Succeeds r stamp) t1 = Some s /\
    length (promises s) = if t1 - stamp <? 2000 then 1%nat else 2%nat.
Proof.
  intros Hm Ht0.
  unfold two_triggers, triggerBuild_uninterrupted, triggerBuild_check,
    decide_build, ms_2s. simpl.
  rewrite Hm. simpl. rewrite lookup_empty.
  destruct (Z.ltb_spec (t0 - buildTimestamp m) 2000) as [?|_]; [lia|].
  simpl. unfold triggerBuild_finally. simpl.
  unfold triggerBuild_check, decide_build, ms_2s. simpl.
  rewrite !lookup_alter_eq, Hm. simpl.
  change (publish rp r stamp m) with (publish rp r stamp (teardown None m)).
  rewrite !(buildKey_publish rp r stamp None m rp), lookup_delete_eq.
  destruct (t1 - stamp <? 2000); simpl; eexists; split; reflexivity.
Qed.




(** C3, claim as stated, refuted: the key of a build for a request path
    is not the source joined to the path by a newline. *)
Lemma C3_key_is_not_joined_by_newline :
  buildKey page (Some "about") <> spec_buildKey page (Some "about").
Proof. discriminate. Qed.

(** C3, amended. The key under which the scheduler registers a build is
    the match's [src] when the request path is [null], and otherwise [src],
    a hyphen and the request path. *)
Theorem C3_build_key_joins_by_hyphen ms k m rp prev now :
  ms !! k = Some m ->
  2000 <= now - buildTimestamp m ->
  buildKey m rp =
    match rp with None => src m | Some p => src m +:+ "-" +:+ p end /\
  exists s, triggerBuild_uninterrupted (init ms) k rp prev now = Some s /\
    inProgressBuilds s =
      {[ match rp with None => src m | Some p => src m +:+ "-" +:+ p end
         := 0%nat ]} /\
    build_key <$> promises s =
      [ match rp with None => src m | Some p => src m +:+ "-" +:+ p end ].
Proof.
  intros Hm Ht. split; [destruct rp; reflexivity|].
  unfold triggerBuild_uninterrupted, triggerBuild_check, decide_build, ms_2s.
  simpl. rewrite Hm. simpl.
  rewrite lookup_empty.
  destruct (Z.ltb_spec (now - buildTimestamp m) 2000) as [?|_]; [lia|].
  simpl. eexists. split; [reflexivity|]. simpl.
  destruct rp; split; reflexivity.
Qed.

Lemma C3_build_key_witness :
  exists s, triggerBuild_uninterrupted (init one_match) "pages/index.js"
              (Some "about") None 5000 = Some s /\
    inProgressBuilds s = {[ "pages/index.js-about" := 0%nat ]}.
Proof.
  destruct (C3_build_key_joins_by_hyphen one_match "pages/index.js" page
              (Some "about") None 5000) as (_ & s & Hs & Hk & _).
  - reflexivity.
  - simpl. lia.
  - exists s. split; [exact Hs | exact Hk].
Defined.

End SchedulerFacts.

(** *** Without interleaving, one build per key *)

Section SchedulerInvariant.
Import Scheduler.

Lemma settled_init ms : settled (init ms).
Proof.
  split; simpl.
  - intros key p H. by rewrite lookup_empty in H.
  - intros p b H. by rewrite lookup_nil in H.
  - intros p b H. by rewrite lookup_nil in H.
  - intros t tk H. by rewrite lookup_nil in H.
Qed.

Lemma insert_snoc {A} (l : list A) (x y : A) :
  <[length l := y]> (l ++ [x]) = l ++ [y].
Proof.
  rewrite (insert_app_r_alt l [x] (length l) y) by lia.
  by rewrite Nat.sub_diag.
Qed.

(** A task stays in order when the builds in progress stay. *)
Lemma task_ok_mono s s' tk :
  (forall p b, promises s !! p = Some b -> build_state b = None ->
     promises s' !! p = Some b) ->
  task_ok s tk -> task_ok s' tk.
Proof.
  intros H. destruct tk as [| key [p|] | |]; simpl; try done.
  intros (b & Hb & Hs & Hk). exists b. auto.
Qed.

Lemma settled_trigger s m rp prev now s' :
  settled s -> turn s (Trigger m rp prev now) = Some s' -> settled s'.
Proof.
  intros [He Hp Hw Ht]. unfold turn, triggerBuild_uninterrupted,
    triggerBuild_check, decide_build. simpl.
  destruct (buildMatches s !! m) as [mt|]; simpl; [|discriminate].
  set (key := buildKey mt rp).
  destruct (inProgressBuilds s !! key) as [p|] eqn:Hkey.
  - (* the call waits on the build in progress *)
    unfold triggerBuild_build. simpl.
    rewrite lookup_app_r, Nat.sub_diag by lia. simpl.
    rewrite lookup_app_r, Nat.sub_diag by lia. simpl.
    intros [= <-]. split; simpl; auto.
    + intros q b Hq Hs. destruct (Hw q b Hq Hs) as [t Htk].
      exists t. by apply lookup_app_l_Some.
    + intros t tk Htk. apply lookup_snoc_Some in Htk as [[_ Htk]|[_ <-]].
      * by apply (Ht t).
      * simpl. destruct (He key p Hkey) as (b & ? & ? & ?). by exists b.
  - destruct (now - buildTimestamp mt <? ms_2s).
    + (* the build is skipped, the call returns *)
      unfold triggerBuild_build. simpl.
      rewrite lookup_app_r, Nat.sub_diag by lia. simpl.
      rewrite lookup_app_r, Nat.sub_diag by lia. simpl.
      unfold triggerBuild_finally. simpl.
      rewrite lookup_app_r, Nat.sub_diag by lia. simpl.
      intros [= <-]. unfold finish. simpl. rewrite insert_snoc. split; simpl.
      * intros key' p Hl. apply lookup_delete_Some in Hl as [_ Hl]. auto.
      * intros q b Hq Hs. rewrite lookup_delete_ne; [auto|].
        intros Heq. rewrite Heq, (Hp q b Hq Hs) in Hkey. discriminate.
      * intros q b Hq Hs. destruct (Hw q b Hq Hs) as [t Htk].
        exists t. by apply lookup_app_l_Some.
      * intros t tk Htk. apply lookup_snoc_Some in Htk as [[_ Htk]|[_ <-]];
          [by apply (Ht t) | done].
    + (* a build is started *)
      unfold triggerBuild_build. simpl.
      rewrite lookup_app_r, Nat.sub_diag by lia. simpl.
      rewrite insert_snoc.
      rewrite lookup_app_r, Nat.sub_diag by lia. simpl.
      intros [= <-]. split; simpl.
      * intros key' p Hl. apply lookup_insert_Some in Hl as [[<- <-]|[Hne Hl]].
        -- eexists. split; [by rewrite lookup_app_r, Nat.sub_diag by lia|done].
        -- destruct (He key' p Hl) as (b & Hb & ? & ?). exists b.
           split; [by apply lookup_app_l_Some | done].
      * intros q b Hq Hs. apply lookup_snoc_Some in Hq as [[_ Hq]|[-> <-]].
        -- rewrite lookup_insert_ne; [auto|].
           intros Heq. rewrite Heq, (Hp q b Hq Hs) in Hkey. discriminate.
        -- simpl. apply lookup_insert_eq.
      * intros q b Hq Hs. apply lookup_snoc_Some in Hq as [[_ Hq]|[-> <-]].
        -- destruct (Hw q b Hq Hs) as [t Htk].
           exists t. by apply lookup_app_l_Some.
        -- exists (length (tasks s)). simpl.
           by rewrite lookup_app_r, Nat.sub_diag by lia.
      * intros t tk Htk. apply lookup_snoc_Some in Htk as [[_ Htk]|[_ <-]].
        -- eapply task_ok_mono; [|by apply (Ht t)]. simpl.
           intros q b Hq _. by apply lookup_app_l_Some.
        -- simpl. eexists.
           split; [by rewrite lookup_app_r, Nat.sub_diag by lia|done].
Qed.

Lemma waits_on_inv p t :
  waits_on p t = true <-> exists key, t = Some (AwaitBuild key (Some p)).
Proof.
  split.
  - destruct t as [[| key [q|] | |]|]; simpl; try discriminate.
    intros H. apply Nat.eqb_eq in H as ->. by exists key.
  - intros [key ->]. simpl. apply Nat.eqb_refl.
Qed.

(** What resuming the waiters of a settled promise comes to. *)
Lemma resume_waiters_spec s p bs st kb :
  promises s !! p = Some bs ->
  build_state bs = Some st ->
  (forall t key, tasks s !! t = Some (AwaitBuild key (Some p)) -> key = kb) ->
  forall n,
    buildMatches (resume_waiters n p s) = buildMatches s /\
    promises (resume_waiters n p s) = promises s /\
    (forall t, tasks (resume_waiters n p s) !! t =
       if (t <? n)%nat && waits_on p (tasks s !! t) then Some (ends st)
       else tasks s !! t) /\
    inProgressBuilds (resume_waiters n p s) =
      if existsb (fun t => waits_on p (tasks s !! t)) (seq 0 n)
      then delete kb (inProgressBuilds s) else inProgressBuilds s.
Proof.
  intros Hp Hst Hkey. induction n as [|n (IHm & IHp & IHt & IHi)];
    [by repeat split|].
  cbn [resume_waiters]. rewrite seq_S, existsb_app. cbn [existsb Nat.add].
  rewrite orb_false_r.
  pose proof (IHt n) as Hn. rewrite Nat.ltb_irrefl in Hn. cbn [andb] in Hn.
  rewrite Hn. destruct (waits_on p (tasks s !! n)) eqn:W.
  - destruct (proj1 (waits_on_inv p _) W) as [key Hk].
    pose proof (Hkey n key Hk) as ->.
    unfold triggerBuild_finally. rewrite Hn, Hk, IHp, Hp. simpl.
    rewrite Hst. simpl. rewrite orb_true_r. repeat split; [done..| |].
    + intros t. destruct (decide (t = n)) as [->|Hne].
      * rewrite list_lookup_insert_eq
          by (apply lookup_lt_is_Some; rewrite Hn, Hk; eauto).
        by rewrite (proj2 (Nat.ltb_lt n (S n))), W by lia.
      * rewrite list_lookup_insert_ne by done. rewrite IHt.
        destruct (Nat.ltb_spec t n), (Nat.ltb_spec t (S n)); (done || lia).
    + rewrite IHi. destruct (existsb _ _); [|done].
      apply map_eq. intros k. destruct (decide (kb = k)) as [->|Hne].
      * by rewrite !lookup_delete_eq.
      * by rewrite !lookup_delete_ne.
  - rewrite orb_false_r. repeat split; [done|done| |done].
    intros t. rewrite IHt. destruct (decide (t = n)) as [->|Hne].
    + by rewrite W, !andb_false_r.
    + destruct (Nat.ltb_spec t n), (Nat.ltb_spec t (S n)); (done || lia).
Qed.

Lemma settled_complete s p c s' :
  settled s -> turn s (Complete p c) = Some s' -> settled s'.
Proof.
  intros [He Hp Hw Ht]. unfold turn, settle.
  destruct (promises s !! p) as [b|] eqn:Hb; [|discriminate].
  destruct (build_state b) as [|] eqn:Hs; [discriminate|]. simpl.
  set (st := match c with Succeeds _ _ => Fulfilled | Fails => Rejected end).
  set (bs := {| build_key := build_key b; build_src := build_src b;
                build_requestPath := build_requestPath b;
                build_state := Some st |}).
  set (s1 := {| buildMatches := _; inProgressBuilds := inProgressBuilds s;
                promises := <[p := bs]> (promises s); tasks := tasks s |}).
  assert (Hlt : (p < length (promises s))%nat) by (by eapply lookup_lt_Some).
  destruct (resume_waiters_spec s1 p bs st (build_key b)) with
    (n := length (tasks s)) as (_ & Hpr & Htk & Hin).
  { by apply list_lookup_insert_eq. }
  { done. }
  { intros t key Hk. destruct (Ht t _ Hk) as (b' & Hb' & _ & <-).
    congruence. }
  intros [= <-]. simpl in *.
  destruct (Hw p b Hb Hs) as [tw Htw].
  rewrite (proj2 (existsb_exists _ _)) in Hin.
  2:{ exists tw. split.
      - apply in_seq. apply lookup_lt_Some in Htw. lia.
      - rewrite Htw. simpl. apply Nat.eqb_refl. }
  assert (Hold : forall q b', <[p := bs]> (promises s) !! q = Some b' ->
                   build_state b' = None ->
                   q <> p /\ promises s !! q = Some b').
  { intros q b' Hq Hs'.
    apply list_lookup_insert_Some in Hq as [(<- & <- & _)|[Hne Hq]];
      [discriminate | done]. }
  split.
  - intros key q Hl. rewrite Hin in Hl.
    apply lookup_delete_Some in Hl as [Hne Hl].
    destruct (He key q Hl) as (b' & Hb' & Hk & Hs').
    exists b'. rewrite Hpr. split; [|done].
    rewrite list_lookup_insert_ne; [done|]. intros ->. congruence.
  - intros q b' Hq Hs'. rewrite Hpr in Hq.
    destruct (Hold q b' Hq Hs') as [Hne Hq']. rewrite Hin.
    rewrite lookup_delete_ne; [by apply Hp|].
    intros Heq. pose proof (Hp q b' Hq' Hs') as H1.
    pose proof (Hp p b Hb Hs) as H2. congruence.
  - intros q b' Hq Hs'. rewrite Hpr in Hq.
    destruct (Hold q b' Hq Hs') as [Hne Hq'].
    destruct (Hw q b' Hq' Hs') as [t Htq]. exists t.
    rewrite Htk, Htq. simpl.
    by rewrite (proj2 (Nat.eqb_neq q p)), andb_false_r.
  - intros t tk Htt. rewrite Htk in Htt.
    destruct ((t <? length (tasks s))%nat && waits_on p (tasks s !! t)) eqn:E.
    + injection Htt as <-. by destruct st.
    + pose proof (Ht t tk Htt) as Hok.
      destruct tk as [| key [q|] | |]; simpl in *; try done.
      destruct Hok as (b' & Hb' & Hs' & Hk). exists b'. rewrite Hpr.
      split; [|done]. rewrite list_lookup_insert_ne; [done|].
      intros ->. rewrite Htt in E. simpl in E.
      rewrite Nat.eqb_refl, andb_true_r in E.
      apply Nat.ltb_ge in E. apply lookup_lt_Some in Htt. lia.
Qed.

Lemma settled_turns es : forall s s',
  settled s -> turns s es = Some s' -> settled s'.
Proof.
  induction es as [|e es IH]; intros s s' Hs; simpl; [by intros [= <-]|].
  destruct (turn s e) as [s1|] eqn:E; simpl; [|discriminate].
  apply IH.
  destruct e; [by eapply settled_trigger | by eapply settled_complete].
Qed.

Lemma filter_none {A} (P : A -> bool) (l : list A) :
  (forall j y, l !! j = Some y -> P y = false) -> filter P l = [].
Proof.
  induction l as [|x l IH]; intros H; [done|].
  rewrite filter_cons. rewrite (H 0%nat x eq_refl).
  destruct (decide (Is_true false)) as [[]|_].
  apply IH. intros j y Hj. by apply (H (S j)).
Qed.

Lemma filter_at_most_one {A} (P : A -> bool) (l : list A) :
  (forall i j x y, l !! i = Some x -> l !! j = Some y ->
     P x = true -> P y = true -> i = j) ->
  (length (filter P l) <= 1)%nat.
Proof.
  induction l as [|x l IH]; intros H; [simpl; lia|].
  rewrite filter_cons. destruct (P x) eqn:Hx.
  - destruct (decide (Is_true true)) as [_|[]]; [|done].
    rewrite filter_none; [simpl; lia|].
    intros j y Hj. destruct (P y) eqn:Hy; [|done].
    by pose proof (H 0%nat (S j) x y eq_refl Hj Hx Hy).
  - destruct (decide (Is_true false)) as [[]|_].
    apply IH. intros i j a b Hi Hj Ha Hb.
    by pose proof (H (S i) (S j) a b Hi Hj Ha Hb) as [= ->].
Qed.

(** In a settled state a key has at most one build in progress. *)
Lemma settled_one_build_per_key s key :
  settled s -> (length (pending s key) <= 1)%nat.
Proof.
  intros [He Hp Hw Ht]. unfold pending. apply filter_at_most_one.
  intros i j x y Hi Hj Hx Hy.
  apply andb_prop in Hx as [Hx1 Hx2], Hy as [Hy1 Hy2].
  apply bool_decide_eq_true in Hx1, Hy1.
  apply String.eqb_eq in Hx2, Hy2.
  pose proof (Hp i x Hi Hx1) as H1. pose proof (Hp j y Hj Hy1) as H2.
  congruence.
Qed.

(** When no step of the event loop comes between the check and the [set]
    of a call, and the calls that wait on a build resume as soon as it
    completes, no key ever has two builds in progress. (The schedule
    [SchedulerData.race] puts a second call between the check and the
    [set] of the first.) *)
Theorem one_build_per_key_without_interleaving ms es s key :
  turns (init ms) es = Some s -> (length (pending s key) <= 1)%nat.
Proof.
  intros H. apply settled_one_build_per_key.
  apply (settled_turns es (init ms) s); [apply settled_init | exact H].
Qed.

End SchedulerInvariant.

(** ** Filesystem events *)

Section FsEventsFacts.
Import FsEvents.
Variable relative_cwd : string -> string.

Local Abbreviation handleEvent := (handleEvent relative_cwd).
Local Abbreviation handleEvents := (handleEvents relative_cwd).
Local Abbreviation net_effect := (net_effect relative_cwd).

Lemma handleEvent_ok e st b :
  batch_ok b -> batch_ok (batch_of (handleEvent e st b)).
Proof.
  unfold batch_ok. intros Hd.
  unfold FsEvents.handleEvent, handleFileModified, handleFileDeleted,
    handleFileCreated.
  repeat case_match; simpl; set_solver.
Qed.

Lemma handleEvents_ok es : forall b,
  batch_ok b -> batch_ok (batch_of (handleEvents es b)).
Proof.
  induction es as [|[e st] es IH]; intros b Hb; simpl; [done|].
  pose proof (handleEvent_ok e st b Hb) as H.
  destruct (handleEvent e st b) as [b'|code b']; simpl in *; auto.
Qed.

Lemma tracks_fileChanged name n b fs mk :
  tracks name b mk ->
  tracks name
    (fileChanged n
       {| files := fs; changed := changed b; removed := removed b |})
    (if String.eqb n name then Some MarkChanged else mk).
Proof.
  intros [Hc Hr]. destruct (String.eqb_spec n name) as [->|Hne].
  - split; simpl; [set_solver|]. split; [set_solver | discriminate].
  - split; simpl; set_solver.
Qed.

Lemma tracks_fileRemoved name n b mk :
  tracks name b mk ->
  tracks name (fileRemoved n b)
    (if String.eqb n name then Some MarkRemoved else mk).
Proof.
  intros [Hc Hr]. destruct (String.eqb_spec n name) as [->|Hne].
  - split; simpl; [|set_solver]. split; [set_solver | discriminate].
  - split; simpl; set_solver.
Qed.

Lemma handleEvent_tracks name e st b b' mk :
  tracks name b mk ->
  handleEvent e st b = Done b' ->
  tracks name b'
    match mark_of relative_cwd (e, st) with
    | Some (n, m) => if String.eqb n name then Some m else mk
    | None => mk
    end.
Proof.
  intros Ht. unfold FsEvents.handleEvent, mark_of, handleFileModified,
    handleFileDeleted, handleFileCreated.
  destruct (String.eqb_spec (type e) "add") as [Ha|Ha].
  - rewrite Ha. simpl. destruct st as [mode|code].
    + intros [= <-]. by apply tracks_fileChanged.
    + destruct (String.eqb code "ENOENT"); [|discriminate].
      intros [= <-]. by apply tracks_fileRemoved.
  - destruct (String.eqb_spec (type e) "unlink") as [Hu|Hu].
    + intros [= <-]. by apply tracks_fileRemoved.
    + simpl. destruct (String.eqb (type e) "change").
      * destruct st as [mode|code].
        -- intros [= <-]. by apply tracks_fileChanged.
        -- destruct (String.eqb code "ENOENT"); [|discriminate].
           intros [= <-]. by apply tracks_fileRemoved.
      * by intros [= <-].
Qed.

Lemma handleEvents_tracks name es : forall b b' mk,
  tracks name b mk ->
  handleEvents es b = Done b' ->
  tracks name b' (net_effect name es mk).
Proof.
  induction es as [|[e st] es IH]; intros b b' mk Ht; simpl.
  - by intros [= <-].
  - destruct (handleEvent e st b) as [b1|code b1] eqn:E; [|discriminate].
    intros H. eapply IH; [|exact H].
    by apply (handleEvent_tracks name e st b b1 mk).
Qed.

(** The loop runs to its end when no stat throws anything but [ENOENT]. *)
Lemma handleEvents_done es : forall b,
  forallb stat_handled es = true ->
  exists b', handleEvents es b = Done b'.
Proof.
  induction es as [|[e st] es IH]; intros b H; simpl in *; [eauto|].
  apply andb_prop in H as [H1 H2].
  assert (exists b1, handleEvent e st b = Done b1) as [b1 ->].
  { unfold FsEvents.handleEvent, handleFileModified, handleFileDeleted,
      handleFileCreated, stat_handled in *. simpl in H1.
    repeat case_match; subst; simpl in *; eauto; congruence. }
  by apply IH.
Qed.

(** C6. Whatever the batch, the loop leaves [changed] and [removed]
    disjoint. When
    the loop runs to its end (it does unless a stat throws something other
    than [ENOENT]), a name is in [changed] exactly when the last event
    about it marked it changed, and in [removed] exactly when the last
    event about it marked it removed. Marking a name changed adds it to
    [changed] and deletes it from [removed]; marking it removed adds it to
    [removed], deletes it from [changed] and from the file index. *)
Theorem C6_changed_and_removed_are_disjoint_net_effect
    (matches : list BuildMatch) (fs : gmap string Asset)
    (events : list (FSEvent * Stat)) :
  let o := handleFilesystemEvents relative_cwd matches fs events in
  let kept := kept_events matches events in
  (changed (batch_of o) ## removed (batch_of o)) /\
  (forall b, o = Done b -> forall name,
     (name ∈ changed b <-> net_effect name kept None = Some MarkChanged) /\
     (name ∈ removed b <-> net_effect name kept None = Some MarkRemoved)) /\
  (forallb stat_handled kept = true -> exists b, o = Done b) /\
  (forall name b,
     changed (fileChanged name b) = changed b ∪ {[ name ]} /\
     removed (fileChanged name b) = removed b ∖ {[ name ]} /\
     removed (fileRemoved name b) = removed b ∪ {[ name ]} /\
     changed (fileRemoved name b) = changed b ∖ {[ name ]} /\
     files (fileRemoved name b) = delete name (files b)).
Proof.
  intros o kept. unfold handleFilesystemEvents in o. fold kept in o.
  set (b0 := {| files := fs; changed := ∅; removed := ∅ |}) in o.
  assert (H0 : batch_ok b0) by (unfold batch_ok; simpl; set_solver).
  split; [exact (handleEvents_ok kept b0 H0)|]. split; [|split].
  - intros b Hb name. apply (handleEvents_tracks name kept b0 b None).
    + split; simpl; (split; [set_solver | discriminate]).
    + exact Hb.
  - intros H. by apply handleEvents_done.
  - intros name b. repeat split.
Qed.

End FsEventsFacts.

(** The sample batch: [a.js] ends up changed, [b.js] removed, and the
    event under the build's [distPath] is dropped. *)
Lemma C6_sample_batch :
  exists b, FsEvents.handleFilesystemEvents FsEvents.strip_app
              [FsEvents.site] ∅ FsEvents.sample_batch = FsEvents.Done b /\
    "a.js" ∈ FsEvents.changed b /\ "a.js" ∉ FsEvents.removed b /\
    "b.js" ∈ FsEvents.removed b /\ "b.js" ∉ FsEvents.changed b /\
    "dist/out.js" ∉ FsEvents.changed b.
Proof.
  destruct (C6_changed_and_removed_are_disjoint_net_effect FsEvents.strip_app
              [FsEvents.site] ∅ FsEvents.sample_batch)
    as (Hd & Hnet & Hdone & _).
  destruct Hdone as [b Hb]; [reflexivity|].
  exists b. split; [exact Hb|].
  pose proof (Hnet b Hb "a.js") as [Ha1 Ha2].
  pose proof (Hnet b Hb "b.js") as [Hb1 Hb2].
  pose proof (Hnet b Hb "dist/out.js") as [Ho1 _].
  repeat split.
  - apply Ha1. reflexivity.
  - rewrite Ha2. discriminate.
  - apply Hb2. reflexivity.
  - rewrite Hb1. discriminate.
  - rewrite Ho1. discriminate.
Defined.

(** ** Environment variables *)

Section EnvFacts.
Import Env.

Example valid_name_ok : valid_name "API_KEY2" = true.
Proof. reflexivity. Qed.

Example valid_name_digit_first : valid_name "2FA" = false.
Proof. reflexivity. Qed.

Example valid_name_hyphen : valid_name "my-var" = false.
Proof. reflexivity. Qed.

Example valid_name_empty : valid_name EmptyString = false.
Proof. reflexivity. Qed.

(** The config is accepted exactly when every [@]-reference of the base
    has a value in the local map. *)
Lemma validateEnvConfig_accepts type (env localEnv : gmap string string) :
  (forall k v, env !! k = Some v -> String.prefix "@" v = true ->
     is_Some (localEnv !! k)) <->
  exists merged ignored,
    validateEnvConfig type env localEnv = Merged merged ignored.
Proof.
  unfold validateEnvConfig. case_bool_decide as Hm; split.
  - eauto.
  - intros _ k v Hk Hat.
    destruct (localEnv !! k) as [w|] eqn:Hl; [eauto|exfalso].
    apply fmap_nil_inv in Hm.
    assert ((k, v) ∈ filter (is_missing localEnv) (map_to_list env)) as Hin.
    { apply list_elem_of_filter. split.
      - unfold is_missing. simpl. rewrite Hat. simpl.
        apply bool_decide_pack. exact Hl.
      - by apply elem_of_map_to_list. }
    rewrite Hm in Hin. by apply elem_of_nil in Hin.
  - intros H. exfalso. apply Hm.
    destruct (filter (is_missing localEnv) (map_to_list env))
      as [|[k v] l] eqn:E;
      [reflexivity|].
    assert ((k, v) ∈ filter (is_missing localEnv) (map_to_list env)) as Hin
      by (rewrite E; left).
    apply list_elem_of_filter in Hin as [Hmiss Hin].
    apply elem_of_map_to_list in Hin.
    unfold is_missing in Hmiss. simpl in Hmiss.
    apply andb_prop_elim in Hmiss as [Hat Hnone].
    apply bool_decide_unpack in Hnone.
    destruct (H k v Hin) as [w Hw]; [by apply Is_true_true|]. congruence.
  - intros (? & ? & [=]).
Qed.

Lemma lookup_valid_names (m : gmap string string) k :
  filter (fun e : string * string => valid_name (fst e)) m !! k =
    if valid_name k then m !! k else None.
Proof.
  destruct (valid_name k) eqn:Hv.
  - destruct (m !! k) as [v|] eqn:Hk.
    + apply map_lookup_filter_Some. split; [done|]. simpl. by rewrite Hv.
    + apply map_lookup_filter_None. left. done.
  - apply map_lookup_filter_None. right. intros v _. simpl. rewrite Hv.
    simpl. tauto.
Qed.

(** C7. An accepted pair of maps merges: the result holds, for every valid
    name, the local value when there is one and the base value otherwise,
    and a name that fails the pattern is not among its keys. *)
Theorem C7_env_merge_is_right_biased_and_drops_invalid_names
    type (env localEnv : gmap string string) :
  (forall k v, env !! k = Some v -> String.prefix "@" v = true ->
     is_Some (localEnv !! k)) ->
  exists merged ignored,
    validateEnvConfig type env localEnv = Merged merged ignored /\
    (forall k v, valid_name k = true -> localEnv !! k = Some v ->
       merged !! k = Some v) /\
    (forall k, valid_name k = true -> localEnv !! k = None ->
       merged !! k = env !! k) /\
    (forall k, valid_name k = false -> merged !! k = None) /\
    (forall k, k ∈ ignored <->
       valid_name k = false /\ is_Some (spread env localEnv !! k)).
Proof.
  intros Hacc.
  destruct (proj1 (validateEnvConfig_accepts type env localEnv) Hacc)
    as (merged & ignored & Hv).
  exists merged, ignored. split; [exact Hv|].
  unfold validateEnvConfig in Hv. case_bool_decide; [|discriminate].
  injection Hv as <- <-.
  split; [|split; [|split]].
  - intros k v Hk Hl. rewrite lookup_valid_names, Hk. unfold spread.
    by apply lookup_union_Some_l.
  - intros k Hk Hl. rewrite lookup_valid_names, Hk. unfold spread.
    by apply lookup_union_r.
  - intros k Hk. by rewrite lookup_valid_names, Hk.
  - intros k. rewrite list_elem_of_filter, list_elem_of_fmap. split.
    + intros [Hn ([k' v] & -> & Hin)]. apply elem_of_map_to_list in Hin.
      split; [|by eexists].
      by apply negb_prop_elim, Is_true_false in Hn.
    + intros [Hn [v Hk]]. split; [by rewrite Hn|].
      exists (k, v). split; [done|]. by apply elem_of_map_to_list.
Qed.

End EnvFacts.

Lemma C7_env_merge_witness :
  exists merged ignored,
    Env.validateEnvConfig ".env" Env.base_env Env.local_env
      = Env.Merged merged ignored /\
    merged !! "API_KEY" = Some "s3cr3t" /\
    merged !! "MODE" = Some "dev" /\
    merged !! "2FA" = None /\ merged !! "my-var" = None.
Proof.
  destruct (C7_env_merge_is_right_biased_and_drops_invalid_names ".env"
              Env.base_env Env.local_env)
    as (merged & ignored & Hv & Hl & _ & Hi & _).
  - intros k v Hk Hat. unfold Env.base_env in Hk.
    destruct (decide (k = "API_KEY")) as [->|]; [by eexists|].
    destruct (decide (k = "MODE")) as [->|];
      [rewrite lookup_insert_ne, lookup_insert_eq in Hk by done;
       injection Hk as <-; discriminate|].
    destruct (decide (k = "2FA")) as [->|];
      [rewrite !lookup_insert_ne, lookup_singleton_eq in Hk by done;
       injection Hk as <-; discriminate|].
    rewrite !lookup_insert_ne, lookup_singleton_ne in Hk by done.
    discriminate.
  - exists merged, ignored. split; [exact Hv|]. repeat split.
    + by apply Hl.
    + by apply Hl.
    + by apply Hi.
    + by apply Hi.
Defined.

(** ** Path functions *)

Section PathFacts.
Import Path.

Example dirname_nested : dirname "docs/guide/index.html" = "docs/guide".
Proof. reflexivity. Qed.

Example dirname_top : dirname "index.html" = ".".
Proof. reflexivity. Qed.

Example dirname_root : dirname "/index.html" = "/".
Proof. reflexivity. Qed.

Example dirname_trailing : dirname "docs/api/" = "docs".
Proof. reflexivity. Qed.

Example extname_html : extname "docs/index.html" = ".html".
Proof. reflexivity. Qed.

Example extname_two_dots : extname "index.d.ts" = ".ts".
Proof. reflexivity. Qed.

Example extname_dotfile : extname ".nowignore" = EmptyString.
Proof. reflexivity. Qed.

Example extname_dotdot : extname "a/.." = EmptyString.
Proof. reflexivity. Qed.

Example extname_none : extname "docs/index" = EmptyString.
Proof. reflexivity. Qed.

Example basename_strips_ext : basename "docs/index.html" ".html" = "index".
Proof. reflexivity. Qed.

Example basename_other_ext : basename "docs/index.html" ".js" = "index.html".
Proof. reflexivity. Qed.

Example basename_no_ext : basename "docs/index" EmptyString = "index".
Proof. reflexivity. Qed.

Example basename_only_ext : basename "docs/.html" ".html" = ".html".
Proof. reflexivity. Qed.

End PathFacts.

(** ** Asset lookup *)

Section AssetFacts.
Import Assets.

Example isIndex_html : isIndex "docs/api/index.html" = true.
Proof. reflexivity. Qed.

Example isIndex_bare : isIndex "index" = true.
Proof. reflexivity. Qed.

Example isIndex_two_dots : isIndex "index.d.ts" = false.
Proof. reflexivity. Qed.

Example isIndex_other : isIndex "docs/api/list.html" = false.
Proof. reflexivity. Qed.

Example dirnameWithoutDot_top : dirnameWithoutDot "index.html" = EmptyString.
Proof. reflexivity. Qed.

Example strip_one_slash : strip_trailing_slash "docs/api/" = "docs/api".
Proof. reflexivity. Qed.

Example strip_only_one : strip_trailing_slash "docs//" = "docs/".
Proof. reflexivity. Qed.

Example findAsset_exact :
  findAsset docs "docs/guide.html" = Some (FileBlob "guide", "docs/guide.html").
Proof. reflexivity. Qed.

Example findAsset_index :
  findAsset docs "docs/api/" = Some (FileBlob "api", "docs/api/index.html").
Proof. reflexivity. Qed.

Example findAsset_root :
  findAsset docs EmptyString = Some (FileBlob "home", "index.html").
Proof. reflexivity. Qed.

Example findAsset_nothing : findAsset docs "docs" = None.
Proof. reflexivity. Qed.

(** [find] returns the first entry that passes the test. *)
Lemma find_first {A} (p : A -> bool) (pre post : list A) (x : A) :
  forallb (fun y => negb (p y)) pre = true ->
  p x = true ->
  List.find p (pre ++ x :: post) = Some x.
Proof.
  induction pre as [|y pre IH]; simpl; intros Hpre Hx.
  - by rewrite Hx.
  - apply andb_prop in Hpre as [Hy Hpre].
    apply negb_true_iff in Hy. rewrite Hy. by apply IH.
Qed.

Lemma find_none {A} (p : A -> bool) (l : list A) :
  forallb (fun y => negb (p y)) l = true -> List.find p l = None.
Proof.
  induction l as [|y l IH]; simpl; [done|]. intros H.
  apply andb_prop in H as [Hy H]. apply negb_true_iff in Hy.
  rewrite Hy. by apply IH.
Qed.

Lemma find_split {A} (p : A -> bool) (l : list A) :
  (exists pre x post, l = pre ++ x :: post /\
     forallb (fun y => negb (p y)) pre = true /\ p x = true) \/
  forallb (fun y => negb (p y)) l = true.
Proof.
  induction l as [|y l IH]; [by right|].
  destruct (p y) eqn:Hy.
  - left. exists [], y, l. by repeat split.
  - destruct IH as [(pre & x & post & -> & Hpre & Hx)|Hl].
    + left. exists (y :: pre), x, post. repeat split; [|done].
      simpl. by rewrite Hy.
    + right. simpl. by rewrite Hy.
Qed.


End AssetFacts.


(** ** Request ids *)

Section RequestIdFacts.
Import Env RequestId.

Example podId_usual : podId_of "0.dg3q4wlg" = "q4wlg".
Proof. reflexivity. Qed.

(** [Math.random()] can return 0.5, which [toString(32)] writes ["0.g"]:
    the pod id is then those three characters. *)
Example podId_of_one_half : podId_of "0.g" = "0.g".
Proof. reflexivity. Qed.

Example generateRequestId_sample :
  generateRequestId "q4wlg" 1562364135397
    [Byte.x7a; Byte.x87; Byte.x3a; Byte.xc9; Byte.x9c; Byte.x8e]
  = "dev1:q4wlg-1562364135397-7a873ac99c8e".
Proof. reflexivity. Qed.

Lemma all_chars_app p s t :
  all_chars p (s +:+ t) = all_chars p s && all_chars p t.
Proof.
  induction s as [|c s IH]; simpl; [done|]. by rewrite IH, andb_assoc.
Qed.

Lemma all_chars_weaken (p q : ascii -> bool) s :
  (forall c, p c = true -> q c = true) ->
  all_chars p s = true -> all_chars q s = true.
Proof.
  intros Hpq. induction s as [|c s IH]; simpl; [done|].
  intros H. apply andb_prop in H as [Hc Hs].
  by rewrite (Hpq c Hc), IH.
Qed.

Lemma length_app_string s t :
  String.length (s +:+ t) = (String.length s + String.length t)%nat.
Proof. induction s as [|c s IH]; simpl; [done|]. by rewrite IH. Qed.

Lemma string_of_uint_digits u :
  all_chars is_digit (NilEmpty.string_of_uint u) = true.
Proof. induction u; simpl; auto. Qed.

Lemma decimal_digits n : all_chars is_digit (decimal n) = true.
Proof. apply string_of_uint_digits. Qed.

Lemma decimal_nonempty n : decimal n <> EmptyString.
Proof.
  unfold decimal. destruct n as [|p]; [discriminate|]. simpl.
  pose proof (Unsigned.to_uint_nonnil p) as H.
  destruct (Pos.to_uint p); [congruence | discriminate ..].
Qed.

Lemma hex_of_byte_ok b :
  String.length (hex_of_byte b) = 2%nat /\
  all_chars is_hex (hex_of_byte b) = true.
Proof. destruct b; split; reflexivity. Qed.

Lemma to_hex_ok bytes :
  String.length (to_hex bytes) = (2 * length bytes)%nat /\
  all_chars is_hex (to_hex bytes) = true.
Proof.
  induction bytes as [|b bs [IHl IHc]]; [done|].
  destruct (hex_of_byte_ok b) as [Hl Hc]. cbn [to_hex length].
  rewrite length_app_string, all_chars_app, Hl, Hc, IHl, IHc.
  split; [lia | reflexivity].
Qed.

(** The last five characters of a string of base-32 digits with at least
    five of them after the point. *)
Lemma all_chars_substring p n k s :
  all_chars p s = true -> all_chars p (String.substring n k s) = true.
Proof.
  revert n k. induction s as [|c s IH]; intros n k H.
  - destruct n, k; reflexivity.
  - simpl in H. apply andb_prop in H as [Hc Hs].
    destruct n as [|n]; destruct k as [|k]; simpl; auto.
    by rewrite Hc, (IH 0%nat k Hs).
Qed.

Lemma length_substring n k s :
  (n + k <= String.length s)%nat ->
  String.length (String.substring n k s) = k.
Proof.
  revert n k. induction s as [|c s IH]; intros n k H; simpl in H.
  - destruct n, k; simpl; lia.
  - destruct n as [|n]; destruct k as [|k]; simpl; try lia.
    + rewrite (IH 0%nat k); lia.
    + apply IH. lia.
    + apply IH. lia.
Qed.

Lemma substring_skip c s n k :
  String.substring (S n) k (String c s) = String.substring n k s.
Proof. reflexivity. Qed.

Lemma podId_of_fraction digits :
  all_chars is_base32_digit digits = true ->
  (5 <= String.length digits)%nat ->
  String.length (podId_of ("0." +:+ digits)) = 5%nat /\
  all_chars is_lower_or_digit (podId_of ("0." +:+ digits)) = true.
Proof.
  intros Hd Hl. unfold podId_of, slice_last.
  change ("0." +:+ digits) with (String "0" (String "." digits)).
  cbn [String.length].
  replace (S (S (String.length digits)) - 5)%nat
    with (S (S (String.length digits - 5))) by lia.
  rewrite !substring_skip. split.
  - apply length_substring. lia.
  - apply all_chars_substring.
    apply (all_chars_weaken is_base32_digit); [|done].
    intros c. unfold is_base32_digit, is_lower_or_digit, is_lower, is_digit,
      in_range.
    destruct (48 <=? nat_of_ascii c)%nat eqn:E1,
             (nat_of_ascii c <=? 57)%nat eqn:E2,
             (97 <=? nat_of_ascii c)%nat eqn:E3,
             (nat_of_ascii c <=? 118)%nat eqn:E4,
             (nat_of_ascii c <=? 122)%nat eqn:E5; simpl; try done;
      apply Nat.leb_le in E4; apply Nat.leb_gt in E5; lia.
Qed.

(** An id made of a well-formed pod id, the time and six random bytes
    matches the pattern. *)
Lemma generateRequestId_matches podId now random :
  String.length podId = 5%nat ->
  all_chars is_lower_or_digit podId = true ->
  length random = 6%nat ->
  matches_id_pattern (generateRequestId podId now random).
Proof.
  intros Hl Hc Hr. exists podId, (decimal now), (to_hex random).
  destruct (to_hex_ok random) as [Hhl Hhc]. rewrite Hr in Hhl.
  repeat split; auto using decimal_nonempty, decimal_digits.
Qed.

End RequestIdFacts.

(** ** Request dispatcher *)

Section DispatcherFacts.
Import Assets RequestId Dispatcher.
Local Open Scope dispatch_scope.

(** The self-call is reached from call level 0 only, so the body depends
    on [recurse] only there. *)
Lemma serveRouted_ext rec1 rec2 w id routes lvl :
  (lvl = 0%nat ->
   forall routes' st, rec1 routes' 1%nat st = rec2 routes' 1%nat st) ->
  forall st, serveRouted rec1 w id routes lvl st
           = serveRouted rec2 w id routes lvl st.
Proof.
  intros Hrec st. unfold serveRouted, bind.
  destruct (lift (updateBuildMatches w) st) as [[[]|e] st1]; [|done].
  destruct (get_req st1) as [[r|e] st2]; [|done].
  destruct (lift (devRouter w (url r) (method r) routes) st2)
    as [[route|e] st3]; [|done].
  destruct (modify_res (setHeaders (route_headers route)) st3)
    as [[[]|e] st4]; [|done].
  destruct (isURL w (dest route)); [done|].
  match goal with |- context [match ?m st4 with _ => _ end] =>
    destruct (m st4) as [[[]|e] st5]; [|done] end.
  destruct (is_redirect (status route)); [done|].
  destruct (lift (findBuildMatch w _) st5) as [[[m|]|e] st6]; [|done|done].
  destruct (subRoutes m _) as [rules|]; [|done].
  destruct (lift (devRouter w _ (method r) (Some rules)) st6)
    as [[mr|e] st7]; [|done].
  destruct (found mr); [|done]. simpl.
  destruct lvl as [|lvl]; [|done]. simpl.
  by rewrite Hrec.
Qed.

Lemma serveBody_ext rec1 rec2 w id routes lvl :
  (lvl = 0%nat ->
   forall routes' st, rec1 routes' 1%nat st = rec2 routes' 1%nat st) ->
  forall st, serveBody rec1 w id routes lvl st
           = serveBody rec2 w id routes lvl st.
Proof.
  intros Hrec st. unfold serveBody, bind.
  destruct (cleanUrl w id st) as [[[]|e] st1]; [done| |done].
  by apply serveRouted_ext.
Qed.

(** The equation of the source: the function is its body, with itself
    for the self-call. *)
Lemma serveProjectAsNowV2_unfold w id routes lvl st :
  serveProjectAsNowV2 w id routes lvl st
  = serveBody (serveProjectAsNowV2 w id) w id routes lvl st.
Proof.
  unfold serveProjectAsNowV2. apply serveBody_ext.
  intros _ routes' st'. unfold serveNested. by apply serveBody_ext.
Qed.

(** *** Cleaning the URL *)

Example collapse_sample : collapse_slashes "//a///b/" = "/a/b/".
Proof. reflexivity. Qed.

Lemma collapse_slashes_cons c s :
  collapse_slashes (String c s) =
    if Ascii.eqb c "/" && starts_with_slash s then collapse_slashes s
    else String c (collapse_slashes s).
Proof.
  simpl. destruct (Ascii.eqb_spec c "/") as [->|Hc]; [|done].
  destruct s as [|c' s]; [done|]. simpl. by destruct (Ascii.eqb c' "/").
Qed.

Lemma collapse_starts_with_slash s :
  starts_with_slash (collapse_slashes s) = starts_with_slash s.
Proof.
  induction s as [|c s IH]; [done|]. rewrite collapse_slashes_cons.
  destruct (Ascii.eqb_spec c "/") as [->|Hc]; simpl.
  - destruct (starts_with_slash s) eqn:E; [by rewrite IH | done].
  - done.
Qed.

Lemma includes_double_slash_cons c s :
  includes "//" (String c s) =
    (Ascii.eqb c "/" && starts_with_slash s) || includes "//" s.
Proof.
  cbn [includes startsWith]. rewrite (Ascii.eqb_sym "/" c). f_equal. f_equal.
  destruct s as [|c' s]; [done|]. cbn [startsWith starts_with_slash].
  by rewrite (Ascii.eqb_sym "/" c'), andb_true_r.
Qed.

(** No double slash is left. *)
Lemma collapse_no_double_slash s :
  includes "//" (collapse_slashes s) = false.
Proof.
  induction s as [|c s IH]; [done|]. rewrite collapse_slashes_cons.
  destruct (Ascii.eqb c "/" && starts_with_slash s) eqn:E; [done|].
  rewrite includes_double_slash_cons, collapse_starts_with_slash, E, IH.
  done.
Qed.

(** A path without a double slash is left as it is. *)
Lemma collapse_clean s :
  includes "//" s = false -> collapse_slashes s = s.
Proof.
  induction s as [|c s IH]; [done|].
  rewrite includes_double_slash_cons, collapse_slashes_cons.
  intros H. apply orb_false_elim in H as [-> H]. by rewrite IH.
Qed.

Lemma collapse_idempotent s :
  collapse_slashes (collapse_slashes s) = collapse_slashes s.
Proof. apply collapse_clean, collapse_no_double_slash. Qed.

Lemma starts_with_slash_eq s :
  starts_with_slash s = true -> s = String "/" (tail_string s).
Proof.
  destruct s as [|c s]; [done|]. simpl. intros H.
  by apply Ascii.eqb_eq in H as ->.
Qed.

(** The replacement of the source keeps the last slash of a run, the
    wording of the specification the first: they give the same string. *)
Lemma drop_repeated_slashes_collapse s :
  drop_repeated_slashes false s = collapse_slashes s /\
  drop_repeated_slashes true s =
    if starts_with_slash s then tail_string (collapse_slashes s)
    else collapse_slashes s.
Proof.
  induction s as [|c s [IHa IHb]]; [done|].
  rewrite collapse_slashes_cons. cbn [drop_repeated_slashes starts_with_slash].
  destruct (Ascii.eqb_spec c "/") as [->|Hc]; simpl.
  - rewrite IHb. destruct (starts_with_slash s) eqn:E; [|done].
    split; [|done]. symmetry. apply starts_with_slash_eq.
    by rewrite collapse_starts_with_slash.
  - by rewrite IHa.
Qed.

Lemma collapse_slashes_spec s : collapse_slashes s = spec_collapse s.
Proof. symmetry. apply drop_repeated_slashes_collapse. Qed.

(** *** Response headers *)

Lemma setHeaders_lookup hs : forall r name,
  res_headers (setHeaders hs r) !! name
  = lastHeader name hs (res_headers r !! name).
Proof.
  unfold setHeaders.
  induction hs as [|[n v] hs IH]; intros r name; [done|].
  cbn [fold_left lastHeader fst snd]. rewrite IH. f_equal.
  unfold setHeader. cbn [res_headers].
  destruct (String.eqb_spec (lower n) name) as [->|Hne].
  - apply lookup_insert_eq.
  - by apply lookup_insert_ne.
Qed.

Lemma setHeader_lookup n v r name :
  res_headers (setHeader n v r) !! name
  = if String.eqb (lower n) name then Some v else res_headers r !! name.
Proof. apply (setHeaders_lookup [(n, v)]). Qed.

(** *** C5: the clean-up of the URL *)


End DispatcherFacts.

Section DispatcherClaims.
Import Assets RequestId Dispatcher.
Local Open Scope dispatch_scope.

(** *** A request that resolves to a build match *)

Lemma cleanUrl_clean w id st :
  clean_url w (req st) = true -> cleanUrl w id st = (Ok false, st).
Proof.
  unfold clean_url, cleanUrl, bind, get_req.
  destruct (fst (url_parse w (or_root (url (req st))))) as [p|]; [|done].
  intros H. apply negb_true_iff in H. by rewrite H.
Qed.

(** Such a request comes to [serveMatch] with the route applied to the
    response. *)
Lemma serve_resolves w id routes lvl st route m :
  resolves_to w routes lvl (req st) route m ->
  serveProjectAsNowV2 w id routes lvl st
  = serveMatch w id m (strip_leading_slash (dest route))
      (buildRequestPath_of m (strip_leading_slash (dest route)))
      (status route) (uri_args route) lvl (routed route st).
Proof.
  intros (Hclean & Hupd & Hroute & Hurl & Hred & Hfind & Hstay).
  unfold serveProjectAsNowV2, serveBody, bind.
  rewrite (cleanUrl_clean w id st Hclean).
  unfold serveRouted, bind, lift, get_req, modify_res. cbn [req res effects].
  rewrite Hupd, Hroute. cbn [req res effects]. rewrite Hurl, Hred.
  unfold routed, stays in *.
  destruct (truthy_status (status route)); cbn [req res effects ret];
    rewrite Hfind;
    (destruct (subRoutes m (strip_leading_slash (dest route))) as [rules|];
     [destruct Hstay as (mr & -> & ->)|]; reflexivity).
Qed.

(** *** C4: when a build is triggered *)

(** What [serveProjectAsNowV2] does for a request that resolves to a
    match, at any call level. *)
Lemma serve_resolved_match w id routes lvl st route m :
  resolves_to w routes lvl (req st) route m ->
  let requestPath := strip_leading_slash (dest route) in
  let key := buildRequestPath_of m requestPath in
  let triggered :=
    {| req := req st; res := res (routed route st);
       effects := effects st ++ [TriggerBuild m key] |} in
  serveProjectAsNowV2 w id routes lvl st =
    if (negb (bool_decide (is_Some (findAsset m requestPath))) ||
        shouldRebuild (req st)) && (lvl =? 0)%nat
    then
      match triggerBuild w m key with
      | Ok m' =>
          serveAsset w id (findAsset m' requestPath) (status route)
            (uri_args route) triggered
      | Throws e => (Throws e, triggered)
      end
    else
      serveAsset w id (findAsset m requestPath) (status route)
        (uri_args route) (routed route st).
Proof.
  intros H requestPath key triggered.
  rewrite (serve_resolves w id routes lvl st route m H).
  unfold serveMatch, resolveAsset, bind, get_req, emit, lift, ret.
  fold requestPath key. cbn [req res effects routed].
  destruct ((negb (bool_decide (is_Some (findAsset m requestPath))) ||
             shouldRebuild (req st)) && (lvl =? 0)%nat); [|reflexivity].
  cbn [req res effects]. subst triggered.
  destruct (triggerBuild w m key); reflexivity.
Qed.

(** C4, amended. For a request that resolves to a build match at call
    level 0 (it was not re-dispatched through the routes of a build
    result), if it carries [pragma: no-cache] or [cache-control: no-cache]
    or no asset is found for the request path, the dispatcher triggers a
    build for that match and, when the build call returns, answers with
    the asset looked up again on the match as the build left it. When
    the build call throws, so does the dispatcher, without a second
    lookup. *)
Theorem C4_build_is_triggered_at_call_level_0 w id routes st route m :
  resolves_to w routes 0 (req st) route m ->
  findAsset m (strip_leading_slash (dest route)) = None \/
    shouldRebuild (req st) = true ->
  let requestPath := strip_leading_slash (dest route) in
  let key := buildRequestPath_of m requestPath in
  let triggered :=
    {| req := req st; res := res (routed route st);
       effects := effects st ++ [TriggerBuild m key] |} in
  (shouldRebuild (req st) = true <->
     headers (req st) !! "pragma" = Some "no-cache" \/
     headers (req st) !! "cache-control" = Some "no-cache") /\
  serveProjectAsNowV2 w id routes 0 st =
    match triggerBuild w m key with
    | Ok m' =>
        serveAsset w id (findAsset m' requestPath) (status route)
          (uri_args route) triggered
    | Throws e => (Throws e, triggered)
    end.
Proof.
  intros H Hcond requestPath key triggered. split.
  - unfold shouldRebuild. rewrite orb_true_iff, !bool_decide_eq_true. done.
  - rewrite (serve_resolved_match w id routes 0%nat st route m H).
    fold requestPath key triggered.
    replace (negb (bool_decide (is_Some (findAsset m requestPath))) ||
             shouldRebuild (req st)) with true; [done|].
    symmetry. apply orb_true_iff.
    destruct Hcond as [Hnone|Hre]; [left|by right].
    fold requestPath in Hnone. rewrite Hnone.
    apply negb_true_iff, bool_decide_eq_false. by intros [? [=]].
Qed.

(** *** C9: the status of a function's response *)

Lemma statusCode_setHeaders hs : forall r,
  statusCode (setHeaders hs r) = statusCode r.
Proof.
  unfold setHeaders. induction hs as [|e hs IH]; intros r; [done|].
  cbn [fold_left]. by rewrite IH.
Qed.

(** Looking up the asset touches neither the request nor the response. *)
Lemma resolveAsset_frame w m requestPath key lvl st found st2 :
  resolveAsset w m requestPath key lvl st = (found, st2) ->
  req st2 = req st /\ res st2 = res st.
Proof.
  unfold resolveAsset, bind, get_req, emit, lift, ret.
  destruct ((negb _ || _) && _); cbn [req res effects].
  - destruct (triggerBuild w m key); by intros [= <- <-].
  - by intros [= <- <-].
Qed.


End DispatcherClaims.

Section RequestIdHeader.
Import Assets RequestId Dispatcher.
Local Open Scope dispatch_scope.

(** *** C8: the request id on the response *)

Local Abbreviation named := (fun e : string * string =>
  String.eqb (lower (fst e)) "x-now-id").

Lemma existsb_dict_set k v (d : Dict string) :
  String.eqb (lower k) "x-now-id" = false ->
  existsb named (dict_set k v d) = existsb named d.
Proof.
  intros Hk. induction d as [|[k' v'] d IH]; cbn [dict_set existsb fst].
  - by rewrite Hk.
  - destruct (String.eqb_spec k' k) as [->|Hne]; cbn [existsb fst].
    + by rewrite Hk.
    + by rewrite IH.
Qed.

Lemma existsb_dict_assign (hs : Dict string) : forall target,
  existsb named hs = false ->
  existsb named (dict_assign target hs) = existsb named target.
Proof.
  unfold dict_assign.
  induction hs as [|[k v] hs IH]; intros target H; [done|].
  cbn [existsb fst] in H. apply orb_false_elim in H as [Hk Hs].
  cbn [fold_left fst snd]. rewrite IH by exact Hs.
  by apply existsb_dict_set.
Qed.

Lemma lastHeader_dict_set_other k v (d : Dict string) : forall before,
  String.eqb (lower k) "x-now-id" = false ->
  lastHeader "x-now-id" (dict_set k v d) before
  = lastHeader "x-now-id" d before.
Proof.
  intros before Hk. revert before.
  induction d as [|[k' v'] d IH]; intros before;
    cbn [dict_set lastHeader fst snd].
  - by rewrite Hk.
  - destruct (String.eqb_spec k' k) as [->|Hne]; cbn [lastHeader fst snd].
    + by rewrite Hk.
    + apply IH.
Qed.

Lemma lastHeader_dict_set_fresh v (d : Dict string) : forall before,
  existsb named d = false ->
  lastHeader "x-now-id" (dict_set "x-now-id" v d) before = Some v.
Proof.
  induction d as [|[k' v'] d IH]; intros before H;
    cbn [dict_set lastHeader fst snd]; [done|].
  cbn [existsb fst] in H. apply orb_false_elim in H as [Hk Hd].
  destruct (String.eqb_spec k' "x-now-id") as [->|Hne]; [discriminate|].
  cbn [lastHeader fst snd]. by apply IH.
Qed.

(** The id written by [setResponseHeaders] is the one read back, unless
    the extra headers name it. *)
Lemma setResponseHeaders_stamps id hs r :
  names_request_id hs = false ->
  res_headers (setResponseHeaders id hs r) !! "x-now-id" = Some id.
Proof.
  intros H. unfold setResponseHeaders, allHeaders.
  rewrite setHeaders_lookup.
  rewrite lastHeader_dict_set_other by reflexivity.
  apply lastHeader_dict_set_fresh.
  rewrite !existsb_dict_set by reflexivity.
  by rewrite existsb_dict_assign.
Qed.

Lemma setHeader_keeps_stamp id n v r :
  String.eqb (lower n) "x-now-id" = false ->
  res_headers r !! "x-now-id" = Some id ->
  res_headers (setHeader n v r) !! "x-now-id" = Some id.
Proof. intros Hn Hr. by rewrite setHeader_lookup, Hn. Qed.

Lemma sendError_stamps id code status st out st' :
  sendError id code status st = (out, st') -> stamped id st'.
Proof.
  unfold sendError, bind, get_req, modify_res. intros [= _ <-].
  unfold stamped, end_with. cbn [res res_headers].
  apply setHeader_keeps_stamp; [reflexivity|].
  by apply setResponseHeaders_stamps.
Qed.

Lemma sendRedirect_stamps id loc status st st' :
  sendRedirect id loc status st = (Ok tt, st') -> stamped id st'.
Proof.
  unfold sendRedirect, bind, get_req, modify_res, throw.
  destruct loc as [loc|]; [|discriminate]. intros [= <-].
  unfold stamped, end_with. cbn [res res_headers].
  apply setHeader_keeps_stamp; [reflexivity|].
  by apply setResponseHeaders_stamps.
Qed.

Lemma cleanUrl_stamps w id st st' :
  cleanUrl w id st = (Ok true, st') -> stamped id st'.
Proof.
  unfold cleanUrl, bind, get_req, ret.
  destruct (fst (url_parse w _)) as [p|]; [|discriminate].
  destruct (includes "//" p); [|discriminate].
  case_bool_decide; [|discriminate].
  destruct (sendRedirect id _ 301 st) as [[[]|e] st1] eqn:E; [|discriminate].
  intros [= <-]. by apply sendRedirect_stamps in E.
Qed.

Lemma renderDirectoryListing_stamps w id p st st' :
  renderDirectoryListing w id p st = (Ok true, st') -> stamped id st'.
Proof.
  unfold renderDirectoryListing, bind, modify_res, ret.
  destruct (directoryListing w p) as [html|]; [|discriminate].
  intros [= <-]. unfold stamped, end_with. cbn [res res_headers].
  do 2 (apply setHeader_keeps_stamp; [reflexivity|]).
  by apply setResponseHeaders_stamps.
Qed.

Lemma serveAsset_stamps w id found status args st st' :
  quiet_functions w ->
  serveAsset w id found status args st = (Ok tt, st') -> stamped id st'.
Proof.
  intros Hq. unfold serveAsset.
  destruct found as [[[fsPath mode|data|[fn|]] key]|].
  - unfold bind, modify_res, modify_req. intros [= <-].
    unfold stamped, end_with. cbn [res res_headers].
    by apply setResponseHeaders_stamps.
  - unfold modify_res. intros [= <-].
    unfold stamped, end_with. cbn [res res_headers].
    by apply setResponseHeaders_stamps.
  - unfold bind, get_req, lift, emit.
    destruct (rawBody w) as [body|e]; [|discriminate]. cbn [req res effects].
    destruct (invoke w fn _) as [result|e] eqn:Hinv.
    + apply Hq in Hinv. unfold modify_res, ret.
      destruct (truthy_status status); cbn [req res effects];
        intros [= <-]; unfold stamped, end_with; cbn [res res_headers];
        by apply setResponseHeaders_stamps.
    + apply sendError_stamps.
  - apply sendError_stamps.
  - apply sendError_stamps.
Qed.

Lemma serveMatch_stamps w id m p key status args lvl st st' :
  quiet_functions w ->
  serveMatch w id m p key status args lvl st = (Ok tt, st') -> stamped id st'.
Proof.
  intros Hq. unfold serveMatch, bind.
  destruct (resolveAsset w m p key lvl st) as [[found|e] st1]; [|discriminate].
  by apply serveAsset_stamps.
Qed.

(** Every way out of the dispatcher that does not throw leaves the id on
    the response. *)
Lemma serveRouted_stamps rec w id routes lvl st st' :
  quiet_functions w ->
  (lvl = 0%nat -> forall routes' st1 st2,
     rec routes' 1%nat st1 = (Ok tt, st2) -> stamped id st2) ->
  serveRouted rec w id routes lvl st = (Ok tt, st') -> stamped id st'.
Proof.
  intros Hq Hrec. unfold serveRouted, bind, lift, get_req, modify_res.
  destruct (updateBuildMatches w) as [[]|e]; [|discriminate].
  cbn [req res effects].
  destruct (devRouter w _ _ routes) as [route|e]; [|discriminate].
  cbn [req res effects].
  destruct (isURL w (dest route)).
  { intros [= <-]. unfold stamped, end_with. cbn [res res_headers].
    by apply setResponseHeaders_stamps. }
  match goal with
  | |- context [match ?c ?s with _ => _ end] =>
      destruct (c s) as [[[]|e] st1] eqn:E1; [|discriminate]
  end.
  destruct (is_redirect (status route)).
  { apply sendRedirect_stamps. }
  destruct (findBuildMatch w _) as [[m|]|e]; [| |discriminate].
  - destruct (subRoutes m _) as [rules|].
    + destruct (devRouter w _ _ (Some rules)) as [mr|e]; [|discriminate].
      destruct (found mr && (lvl =? 0)%nat) eqn:Hd.
      * apply andb_prop in Hd as [_ Hl]. apply Nat.eqb_eq in Hl. subst lvl.
        unfold modify_req, ret. cbn [req res effects Nat.add].
        match goal with
        | |- context [rec ?a ?b ?c] =>
            destruct (rec a b c) as [[[]|e] st2] eqn:E2; [|discriminate]
        end.
        intros [= <-]. by eapply Hrec.
      * unfold ret. by apply serveMatch_stamps.
    + unfold ret. by apply serveMatch_stamps.
  - case_bool_decide; [apply sendError_stamps|].
    destruct (renderDirectoryListing w id _ st1) as [[[]|]e st2] eqn:E2.
    + intros [= <-]. by apply renderDirectoryListing_stamps in E2.
    + apply sendError_stamps.
    + discriminate.
Qed.

Lemma serveBody_stamps rec w id routes lvl st st' :
  quiet_functions w ->
  (lvl = 0%nat -> forall routes' st1 st2,
     rec routes' 1%nat st1 = (Ok tt, st2) -> stamped id st2) ->
  serveBody rec w id routes lvl st = (Ok tt, st') -> stamped id st'.
Proof.
  intros Hq Hrec. unfold serveBody, bind.
  destruct (cleanUrl w id st) as [[[]|e] st1] eqn:E; [| |discriminate].
  - intros [= <-]. by apply cleanUrl_stamps in E.
  - by apply serveRouted_stamps.
Qed.

Lemma serveProjectAsNowV2_stamps w id routes lvl st st' :
  quiet_functions w ->
  serveProjectAsNowV2 w id routes lvl st = (Ok tt, st') -> stamped id st'.
Proof.
  intros Hq. unfold serveProjectAsNowV2. apply serveBody_stamps; [done|].
  intros _ routes' st1 st2. unfold serveNested.
  apply serveBody_stamps; [done|discriminate].
Qed.


End RequestIdHeader.

(** ** The claims on the sample world *)

Section Samples.
Import Assets RequestId Dispatcher.

Lemma plain_world_quiet m status build :
  quiet_functions (sample_world m status build).
Proof. intros fn payload result [= <-]. reflexivity. Qed.

(** [GET /api/hello.js] with [cache-control: no-cache] resolves to the
    match of the function. *)
Lemma fresh_hello_resolves m status build lvl :
  is_redirect status = false ->
  subRoutes m "api/hello.js" = None ->
  resolves_to (sample_world m status build) None lvl fresh_hello
    (route_to status (Some "/api/hello.js")) m.
Proof.
  intros Hs Hm. repeat split; try reflexivity; try exact Hs.
  unfold stays. cbn. by rewrite Hm.
Qed.

(** C4, claim as stated, refuted. The match of the function has routes of
    its own, so the request is dispatched again through them, at call
    level 1. It carries [cache-control: no-cache] and resolves to the
    match, yet no build is triggered: the function is invoked as it
    stands. *)
Lemma C4_no_build_after_descending_into_build_routes :
  shouldRebuild fresh_hello = true /\
  findBuildMatch routed_world "api/hello.js" = Ok (Some hello_routed) /\
  (exists payload,
     effects (devServerHandler routed_world sample_server 1562364135397
                sample_random fresh_hello) = [Invoke 0 payload]) /\
  ~ (exists m key,
       In (TriggerBuild m key)
          (effects (devServerHandler routed_world sample_server 1562364135397
                      sample_random fresh_hello))).
Proof.
  split; [reflexivity|]. split; [reflexivity|].
  assert (exists payload,
     effects (devServerHandler routed_world sample_server 1562364135397
                sample_random fresh_hello) = [Invoke 0 payload]) as [p Hp].
  { eexists. vm_compute. reflexivity. }
  split; [by exists p|]. rewrite Hp.
  intros (m & key & [H|[]]). discriminate.
Qed.

Lemma C4_build_witness :
  exists st',
    serveProjectAsNowV2 plain_world sample_id None 0 (start fresh_hello)
      = (Ok tt, st') /\
    hd_error (effects st') = Some (TriggerBuild hello (Some "api/hello.js")).
Proof.
  destruct (C4_build_is_triggered_at_call_level_0 plain_world sample_id None
              (start fresh_hello) (route_to None (Some "/api/hello.js")) hello)
    as [_ Heq].
  - apply fresh_hello_resolves; reflexivity.
  - right. reflexivity.
  - rewrite Heq. eexists. split; [vm_compute; reflexivity | reflexivity].
Defined.


(** [POST //a//b] is not redirected: it is routed as [/a/b] (and finds
    nothing there). *)
Example post_is_rewritten :
  exists st',
    serveProjectAsNowV2 plain_world sample_id None 0
      (start (request "POST" "//a//b" ∅)) = (Ok tt, st') /\
    url (req st') = Some "/a/b" /\ statusCode (res st') = 404 /\
    res_headers (res st') !! "location" = None.
Proof. eexists. split; [vm_compute; reflexivity|]. by repeat split. Qed.



(** The pod id drawn from the random number 0.5 has three characters,
    one of them a point; an id made with it does not match the pattern. *)
Example request_id_of_one_half :
  ~ matches_id_pattern
      (generateRequestId (podId (newServer "0.g")) 1562364135397 sample_random).
Proof.
  intros (pod & ms & hex & Heq & Hl & Hc & _).
  do 5 (destruct pod as [|? pod]; [discriminate Hl|]).
  destruct pod; [|discriminate Hl].
  vm_compute in Heq. injection Heq as <- <- <- <- <- _.
  vm_compute in Hc. discriminate.
Qed.


(** The function is invoked with the body of the request; its status,
    header and body make the response. *)
Example invoke_sample :
  exists st' payload,
    serveProjectAsNowV2 plain_world sample_id None 0
      (start (request "POST" "/api/hello.js" ∅)) = (Ok tt, st') /\
    effects st' = [Invoke 0 payload] /\
    payload_body payload = "hello" /\
    payload_method payload = "POST" /\
    statusCode (res st') = 202 /\
    res_headers (res st') !! "x" = Some "y" /\
    body (res st') = Some (LambdaBody (Some "b2s=") true).
Proof.
  eexists. eexists. split; [vm_compute; reflexivity|]. by repeat split.
Qed.

(** Without a status from the route the response has the function's. *)
Example function_status_is_used :
  statusCode (res (devServerHandler plain_world sample_server 1562364135397
                     sample_random (request "POST" "/api/hello.js" ∅))) = 202.
Proof. reflexivity. Qed.

End Samples.

(** ** Ordered dictionaries *)

Section DictFacts.
Context {A : Type}.
Implicit Types (d : Dict A) (k : string) (v : A).

Lemma dict_get_set k v d k' :
  dict_get (dict_set k v d) k' =
    if String.eqb k k' then Some v else dict_get d k'.
Proof.
  induction d as [|[k0 v0] d IH]; cbn [dict_set dict_get]; [done|].
  destruct (String.eqb_spec k0 k) as [->|Hne]; cbn [dict_get].
  - by destruct (String.eqb k k').
  - rewrite IH. destruct (String.eqb_spec k0 k') as [->|Hne'].
    + destruct (String.eqb_spec k k'); [congruence | done].
    + done.
Qed.

Lemma dict_get_delete k d k' :
  dict_get (dict_delete k d) k' =
    if String.eqb k k' then None else dict_get d k'.
Proof.
  unfold dict_delete, Dict in *.
  induction d as [|[k0 v0] d IH]; [by destruct (String.eqb k k')|].
  rewrite filter_cons. cbn [fst dict_get].
  destruct (String.eqb_spec k0 k) as [->|Hne].
  - rewrite decide_False by (simpl; tauto).
    rewrite IH. by destruct (String.eqb k k').
  - rewrite decide_True by done. cbn [dict_get]. rewrite IH.
    destruct (String.eqb_spec k0 k') as [->|Hne'].
    + destruct (String.eqb_spec k k'); [congruence | done].
    + done.
Qed.

Lemma dict_get_None d k :
  dict_get d k = None <-> k ∉ fst <$> d.
Proof.
  induction d as [|[k0 v0] d IH]; cbn [dict_get fmap list_fmap fst].
  - split; [intros _; apply not_elem_of_nil | done].
  - rewrite not_elem_of_cons.
    destruct (String.eqb_spec k0 k) as [->|Hne]; [naive_solver|].
    rewrite IH. naive_solver.
Qed.

Lemma dict_get_Some d k v :
  NoDup (fst <$> d) -> dict_get d k = Some v <-> (k, v) ∈ d.
Proof.
  induction d as [|[k0 v0] d IH]; cbn [dict_get fmap list_fmap fst];
    intros Hnd.
  - split; [done | intros H; by apply elem_of_nil in H].
  - apply NoDup_cons in Hnd as [Hk0 Hnd]. rewrite elem_of_cons.
    destruct (String.eqb_spec k0 k) as [->|Hne].
    + split; [intros [= ->]; by left|].
      intros [[= ->]|Hin]; [done|].
      exfalso. apply Hk0. apply list_elem_of_fmap. by exists (k, v).
    + rewrite (IH Hnd). split; [by right|]. intros [[= ? ?]|Hin]; [congruence|done].
Qed.

Lemma dict_get_perm d d' k :
  NoDup (fst <$> d) -> d ≡ₚ d' -> dict_get d' k = dict_get d k.
Proof.
  intros Hnd Hp.
  assert (NoDup (fst <$> d')) as Hnd' by (by rewrite <- Hp).
  destruct (dict_get d k) as [v|] eqn:E.
  - apply dict_get_Some; [done|]. rewrite <- Hp. by apply dict_get_Some.
  - apply dict_get_None. rewrite <- Hp. by apply dict_get_None.
Qed.

Lemma dict_keys_set k v d :
  fst <$> dict_set k v d =
    if bool_decide (k ∈ fst <$> d) then fst <$> d else (fst <$> d) ++ [k].
Proof.
  induction d as [|[k0 v0] d IH]; cbn [dict_set fmap list_fmap fst].
  - rewrite bool_decide_eq_false_2; [done | apply not_elem_of_nil].
  - destruct (String.eqb_spec k0 k) as [->|Hne]; cbn [fmap list_fmap fst].
    + rewrite bool_decide_eq_true_2; [done | by left].
    + fold (fmap (M:=list) (@fst string A)). rewrite IH.
      case_bool_decide as Hin.
      * rewrite bool_decide_eq_true_2; [done | by right].
      * rewrite bool_decide_eq_false_2; [done|].
        rewrite not_elem_of_cons. split; congruence.
Qed.

Lemma dict_set_NoDup k v d :
  NoDup (fst <$> d) -> NoDup (fst <$> dict_set k v d).
Proof.
  intros Hnd. rewrite dict_keys_set. case_bool_decide as Hin; [done|].
  apply NoDup_app. split; [done|]. split; [|apply NoDup_singleton].
  intros x Hx Hk. apply list_elem_of_singleton in Hk as ->. done.
Qed.

Lemma dict_delete_NoDup k d :
  NoDup (fst <$> d) -> NoDup (fst <$> dict_delete k d).
Proof.
  unfold dict_delete, Dict in *. induction d as [|[k0 v0] d IH]; [done|].
  cbn [fmap list_fmap fst]. intros Hnd.
  apply NoDup_cons in Hnd as [Hk0 Hnd]. rewrite filter_cons. cbn [fst].
  case_decide; [|by apply IH]. cbn [fmap list_fmap fst].
  apply NoDup_cons. split; [|by apply IH].
  intros Hin. apply Hk0. apply list_elem_of_fmap in Hin as (e & -> & He).
  apply list_elem_of_filter in He as [_ He].
  apply list_elem_of_fmap. by exists e.
Qed.

End DictFacts.

(** ** The registry of build matches *)

Section RegistryFacts.
Import Assets RequestId Dispatcher Registry.

Lemma keyed_nil : keyed [].
Proof. split; [apply NoDup_nil_2 | apply Forall_nil_2]. Qed.

Lemma keyed_delete k reg : keyed reg -> keyed (dict_delete k reg).
Proof.
  intros [Hnd Hk]. split; [by apply dict_delete_NoDup|].
  unfold dict_delete, Dict in *. rewrite Forall_forall in Hk.
  apply Forall_forall. intros e He.
  apply list_elem_of_filter in He as [_ He]. by apply Hk.
Qed.

Lemma keyed_set m reg : keyed reg -> keyed (dict_set (match_src m) m reg).
Proof.
  intros [Hnd Hk]. split; [by apply dict_set_NoDup|]. clear Hnd.
  induction reg as [|[k0 v0] reg IH]; cbn [dict_set].
  - by apply Forall_singleton.
  - apply Forall_cons in Hk as [H0 Hk].
    destruct (String.eqb k0 (match_src m)); apply Forall_cons; auto.
Qed.

Lemma keyed_perm reg reg' : keyed reg -> reg ≡ₚ reg' -> keyed reg'.
Proof. intros [Hnd Hk] Hp. split; by rewrite <- Hp. Qed.

(** *** The first loop: stale matches are removed and shut down *)

Local Abbreviation stale_step sources :=
  (fun (acc : Matches * list Registered) key =>
     if includes_source sources key then acc
     else
       (dict_delete key (fst acc),
        snd acc ++ match dict_get (fst acc) key with
                   | Some m => [m]
                   | None => []
                   end)).

Lemma remove_stale_get sources k : forall ks d ops,
  dict_get (fst (fold_left (stale_step sources) ks (d, ops))) k =
    if existsb (String.eqb k) ks && negb (includes_source sources k)
    then None else dict_get d k.
Proof.
  induction ks as [|key ks IH]; intros d ops; cbn [fold_left existsb]; [done|].
  destruct (includes_source sources key) eqn:Hin.
  - rewrite IH. destruct (String.eqb_spec k key) as [->|Hne]; [|done].
    rewrite Hin. simpl. by rewrite andb_false_r.
  - cbn [fst snd]. rewrite IH, dict_get_delete.
    destruct (String.eqb_spec k key) as [->|Hne].
    + rewrite Hin, String.eqb_refl. simpl.
      by destruct (existsb (String.eqb key) ks).
    + destruct (String.eqb_spec key k) as [E|_]; [congruence|]. done.
Qed.

Lemma remove_stale_keyed sources : forall ks d ops,
  keyed d -> keyed (fst (fold_left (stale_step sources) ks (d, ops))).
Proof.
  induction ks as [|key ks IH]; intros d ops Hk; cbn [fold_left]; [done|].
  destruct (includes_source sources key); [by apply IH|].
  apply IH. by apply keyed_delete.
Qed.

Lemma remove_stale_ops sources : forall ks d ops,
  NoDup ks ->
  snd (fold_left (stale_step sources) ks (d, ops)) =
    ops ++ omap (fun key => if includes_source sources key then None
                            else dict_get d key) ks.
Proof.
  induction ks as [|key ks IH]; intros d ops Hnd;
    cbn [fold_left omap list_omap].
  - by rewrite app_nil_r.
  - apply NoDup_cons in Hnd as [Hkey Hnd].
    destruct (includes_source sources key) eqn:Hin; [by apply IH|].
    cbn [fst snd]. rewrite IH by done. rewrite <- app_assoc. f_equal.
    assert (omap (fun key0 => if includes_source sources key0 then None
                              else dict_get (dict_delete key d) key0) ks
            = omap (fun key0 => if includes_source sources key0 then None
                                else dict_get d key0) ks) as ->.
    { clear IH Hnd. induction ks as [|k' ks IH]; [done|].
      apply not_elem_of_cons in Hkey as [Hne Hkey]. cbn [omap list_omap].
      rewrite dict_get_delete.
      destruct (String.eqb_spec key k') as [E|_]; [congruence|].
      by rewrite (IH Hkey). }
    by destruct (dict_get d key).
Qed.

Lemma remove_stale_nothing sources : forall ks d ops,
  Forall (fun key => includes_source sources key = true) ks ->
  fold_left (stale_step sources) ks (d, ops) = (d, ops).
Proof.
  induction ks as [|key ks IH]; intros d ops H; cbn [fold_left]; [done|].
  apply Forall_cons in H as [-> H]. by apply IH.
Qed.

Lemma includes_source_spec sources s :
  includes_source sources s = true <-> s ∈ sources.
Proof.
  unfold includes_source. rewrite existsb_exists. split.
  - intros (x & Hx & E). apply String.eqb_eq in E as ->.
    by apply list_elem_of_In.
  - intros H. exists s. split; [by apply list_elem_of_In|].
    apply String.eqb_refl.
Qed.

Lemma existsb_eqb_keys k (ks : list string) :
  existsb (String.eqb k) ks = true <-> k ∈ ks.
Proof. apply includes_source_spec. Qed.

(** *** The second loop: new matches are added *)

Lemma add_match_is_Some isInitial s d builds m :
  is_Some (dict_get (fst (add_match isInitial (d, builds) m)) s)
  <-> is_Some (dict_get d s) \/ s = match_src m.
Proof.
  unfold add_match. cbn [fst snd].
  destruct (is_added (dict_get d (match_src m)) m) eqn:Ha; cbn [fst].
  - rewrite dict_get_set.
    destruct (String.eqb_spec (match_src m) s) as [<-|Hne].
    + split; [by right | by eexists].
    + split; [by left | intros [H|E]; [done | congruence]].
  - split; [by left|]. intros [H| ->]; [done|].
    unfold is_added in Ha. by destruct (dict_get d (match_src m)).
Qed.

Lemma add_matches_is_Some isInitial s : forall matches d builds,
  is_Some (dict_get (fst (fold_left (add_match isInitial) matches (d, builds))) s)
  <-> is_Some (dict_get d s) \/ s ∈ match_src <$> matches.
Proof.
  induction matches as [|m ms IH]; intros d builds; cbn [fold_left].
  - rewrite fmap_nil, elem_of_nil. tauto.
  - rewrite fmap_cons, elem_of_cons.
    destruct (add_match isInitial (d, builds) m) as [d' b'] eqn:E.
    rewrite IH.
    pose proof (add_match_is_Some isInitial s d builds m) as H.
    rewrite E in H. cbn [fst] in H. tauto.
Qed.

Lemma add_matches_keyed isInitial : forall matches d builds,
  keyed d ->
  keyed (fst (fold_left (add_match isInitial) matches (d, builds))).
Proof.
  induction matches as [|m ms IH]; intros d builds Hk; cbn [fold_left];
    [done|].
  unfold add_match at 2. cbn [fst snd].
  destruct (is_added (dict_get d (match_src m)) m); apply IH;
    [by apply keyed_set | done].
Qed.

Lemma find_src_not_in (ms : list Registered) s :
  s ∉ match_src <$> ms ->
  List.find (fun m => String.eqb (match_src m) s) ms = None.
Proof.
  induction ms as [|m ms IH]; [done|]. rewrite fmap_cons, not_elem_of_cons.
  intros [Hne H]. cbn [List.find].
  destruct (String.eqb_spec (match_src m) s) as [E|_]; [congruence|].
  by apply IH.
Qed.

Lemma find_src_in (ms : list Registered) m :
  NoDup (match_src <$> ms) -> m ∈ ms ->
  List.find (fun m' => String.eqb (match_src m') (match_src m)) ms = Some m.
Proof.
  induction ms as [|m0 ms IH]; intros Hnd Hin; [by apply elem_of_nil in Hin|].
  rewrite fmap_cons in Hnd. apply NoDup_cons in Hnd as [Hm0 Hnd].
  cbn [List.find]. apply elem_of_cons in Hin as [->|Hin].
  - by rewrite String.eqb_refl.
  - destruct (String.eqb_spec (match_src m0) (match_src m)) as [E|_].
    + exfalso. apply Hm0. rewrite E. apply list_elem_of_fmap. by exists m.
    + by apply IH.
Qed.

Lemma add_matches_get isInitial s : forall matches d builds,
  NoDup (match_src <$> matches) ->
  dict_get (fst (fold_left (add_match isInitial) matches (d, builds))) s =
    match List.find (fun m => String.eqb (match_src m) s) matches with
    | None => dict_get d s
    | Some m => Some (if is_added (dict_get d s) m then m
                      else default m (dict_get d s))
    end.
Proof.
  induction matches as [|m ms IH]; intros d builds Hnd; cbn [fold_left];
    [done|].
  rewrite fmap_cons in Hnd. apply NoDup_cons in Hnd as [Hm Hnd].
  cbn [List.find]. unfold add_match at 2. cbn [fst snd].
  destruct (is_added (dict_get d (match_src m)) m) eqn:Ha;
    rewrite IH by done.
  - rewrite !dict_get_set.
    destruct (String.eqb_spec (match_src m) s) as [<-|Hne]; [|done].
    rewrite find_src_not_in by done. by rewrite Ha.
  - destruct (String.eqb_spec (match_src m) s) as [<-|Hne]; [|done].
    rewrite find_src_not_in by done. rewrite Ha.
    unfold is_added in Ha.
    by destruct (dict_get d (match_src m)).
Qed.

Lemma add_matches_builds isInitial : forall matches d builds,
  NoDup (match_src <$> matches) ->
  snd (fold_left (add_match isInitial) matches (d, builds)) =
    builds ++
    List.filter
      (fun m => is_added (dict_get d (match_src m)) m &&
                (negb isInitial && needsBlockingBuild m)) matches.
Proof.
  induction matches as [|m ms IH]; intros d builds Hnd;
    cbn [fold_left List.filter]; [by rewrite app_nil_r|].
  rewrite fmap_cons in Hnd. apply NoDup_cons in Hnd as [Hm Hnd].
  unfold add_match at 2. cbn [fst snd].
  destruct (is_added (dict_get d (match_src m)) m) eqn:Ha;
    rewrite IH by done; cbn [andb]; [|done].
  assert (List.filter
            (fun m' => is_added (dict_get (dict_set (match_src m) m d)
                                   (match_src m')) m' &&
                       (negb isInitial && needsBlockingBuild m')) ms
          = List.filter
              (fun m' => is_added (dict_get d (match_src m')) m' &&
                         (negb isInitial && needsBlockingBuild m')) ms)
    as ->.
  { apply filter_ext_in. intros m' Hin. rewrite dict_get_set.
    destruct (String.eqb_spec (match_src m) (match_src m')) as [E|_]; [|done].
    exfalso. apply Hm. rewrite E. apply list_elem_of_fmap. exists m'.
    split; [done|]. by apply list_elem_of_In. }
  destruct (negb isInitial && needsBlockingBuild m);
    [by rewrite <- app_assoc | done].
Qed.

Lemma add_matches_nothing isInitial : forall matches d builds,
  Forall (fun m => is_added (dict_get d (match_src m)) m = false) matches ->
  fold_left (add_match isInitial) matches (d, builds) = (d, builds).
Proof.
  induction matches as [|m ms IH]; intros d builds H; cbn [fold_left]; [done|].
  apply Forall_cons in H as [Hm H].
  unfold add_match at 2. cbn [fst snd]. rewrite Hm. by apply IH.
Qed.

Section UpdateFacts.
Variable sort :
  (string * Registered -> string * Registered -> Z) ->
  list (string * Registered) -> list (string * Registered).
Hypothesis sort_permutes : forall cmp l, sort cmp l ≡ₚ l.

Local Abbreviation updateBuildMatches := (updateBuildMatches sort).
Local Abbreviation invalidateBuildMatches := (invalidateBuildMatches sort).

Lemma remove_stale_lookup sources reg k :
  dict_get (fst (remove_stale sources reg)) k =
    if includes_source sources k then dict_get reg k else None.
Proof.
  unfold remove_stale. rewrite remove_stale_get.
  destruct (includes_source sources k); [by rewrite andb_false_r|].
  rewrite andb_true_r.
  destruct (existsb (String.eqb k) (fst <$> reg)) eqn:E; [done|].
  apply dict_get_None. intros Hin.
  apply existsb_eqb_keys in Hin. congruence.
Qed.

Lemma updateBuildMatches_keyed matches isInitial reg :
  keyed reg -> keyed (registry (updateBuildMatches matches isInitial reg)).
Proof.
  intros Hk. unfold Registry.updateBuildMatches. cbn [registry].
  eapply keyed_perm; [|symmetry; apply sort_permutes].
  apply add_matches_keyed. by apply remove_stale_keyed.
Qed.

Lemma updateBuildMatches_lookup matches isInitial reg s :
  keyed reg ->
  dict_get (registry (updateBuildMatches matches isInitial reg)) s =
    dict_get (fst (add_matches isInitial matches
                     (fst (remove_stale (match_src <$> matches) reg)))) s.
Proof.
  intros Hk. unfold Registry.updateBuildMatches. cbn [registry].
  apply dict_get_perm; [|symmetry; apply sort_permutes].
  apply add_matches_keyed. by apply remove_stale_keyed.
Qed.

Lemma remove_stale_shutdowns sources reg x :
  keyed reg ->
  x ∈ snd (remove_stale sources reg) <->
  exists k, (k, x) ∈ reg /\ k ∉ sources.
Proof.
  intros [Hnd _]. unfold remove_stale. rewrite remove_stale_ops by done.
  cbn [app]. rewrite list_elem_of_omap. split.
  - intros (k & Hk & Hx). exists k.
    destruct (includes_source sources k) eqn:Hin; [done|]. split.
    + by apply dict_get_Some.
    + intros H. apply includes_source_spec in H. congruence.
  - intros (k & Hk & Hs). exists k. split.
    + apply list_elem_of_fmap. by exists (k, x).
    + destruct (includes_source sources k) eqn:Hin.
      * apply includes_source_spec in Hin. done.
      * by apply dict_get_Some.
Qed.

(** What [updateBuildMatches] does to the entry of an expected match. *)
Lemma updateBuildMatches_entry matches isInitial reg m :
  keyed reg -> NoDup (match_src <$> matches) -> m ∈ matches ->
  let updated := updateBuildMatches matches isInitial reg in
  let current := dict_get reg (match_src m) in
  dict_get (registry updated) (match_src m) =
    Some (if is_added current m then m else default m current) /\
  (m ∈ blockingBuilds updated <->
   is_added current m = true /\ isInitial = false /\
   needsBlockingBuild m = true).
Proof.
  intros Hk Hnd Hm. cbn zeta.
  assert (includes_source (match_src <$> matches) (match_src m) = true)
    as Hin.
  { apply includes_source_spec, list_elem_of_fmap. by exists m. }
  split.
  - rewrite updateBuildMatches_lookup by done. unfold add_matches.
    rewrite add_matches_get by done. rewrite find_src_in by done.
    by rewrite remove_stale_lookup, Hin.
  - unfold Registry.updateBuildMatches. cbn [blockingBuilds].
    unfold add_matches. rewrite add_matches_builds by done. cbn [app].
    rewrite list_elem_of_In, filter_In, <- list_elem_of_In.
    rewrite remove_stale_lookup, Hin.
    rewrite !andb_true_iff, negb_true_iff. tauto.
Qed.

(** *** The loop of [invalidateBuildMatches] *)

Lemma purge_get upd k : forall vs d ops,
  dict_get (fst (fold_left (purge_one upd) vs (d, ops))) k =
    if existsb (fun m => String.eqb (match_src m) k && is_outdated upd m) vs
    then None else dict_get d k.
Proof.
  induction vs as [|m vs IH]; intros d ops; cbn [fold_left existsb]; [done|].
  unfold purge_one at 2. cbn [fst snd].
  destruct (is_outdated upd m); rewrite IH.
  - rewrite dict_get_delete, andb_true_r.
    destruct (String.eqb (match_src m) k); [|done].
    by destruct (existsb _ vs).
  - by rewrite andb_false_r.
Qed.

Lemma purge_ops upd : forall vs d ops,
  snd (fold_left (purge_one upd) vs (d, ops)) =
    ops ++ List.filter (is_outdated upd) vs.
Proof.
  induction vs as [|m vs IH]; intros d ops; cbn [fold_left List.filter].
  - by rewrite app_nil_r.
  - unfold purge_one at 2. cbn [fst snd].
    destruct (is_outdated upd m); rewrite IH; [|done].
    by rewrite <- app_assoc.
Qed.

Lemma purge_keyed upd : forall vs d ops,
  keyed d -> keyed (fst (fold_left (purge_one upd) vs (d, ops))).
Proof.
  induction vs as [|m vs IH]; intros d ops Hk; cbn [fold_left]; [done|].
  unfold purge_one at 2. cbn [fst snd].
  destruct (is_outdated upd m); apply IH; [by apply keyed_delete | done].
Qed.

(** In a keyed map, the value of an entry decides whether the purge
    deletes its key. *)
Lemma purge_lookup upd reg k :
  keyed reg ->
  dict_get (fst (purge upd reg)) k =
    match dict_get reg k with
    | Some c => if is_outdated upd c then None else Some c
    | None => None
    end.
Proof.
  intros [Hnd Hk]. unfold purge. rewrite purge_get.
  rewrite Forall_forall in Hk.
  destruct (dict_get reg k) as [c|] eqn:Hc.
  - apply dict_get_Some in Hc as Hin; [|done].
    pose proof (Hk _ Hin) as Hsrc. cbn [fst snd] in Hsrc.
    destruct (is_outdated upd c) eqn:Ho.
    + assert (existsb (fun m => String.eqb (match_src m) k &&
                                is_outdated upd m) (snd <$> reg) = true)
        as ->; [|done].
      apply existsb_exists. exists c. split.
      * apply list_elem_of_In, list_elem_of_fmap. by exists (k, c).
      * by rewrite <- Hsrc, String.eqb_refl, Ho.
    + assert (existsb (fun m => String.eqb (match_src m) k &&
                                is_outdated upd m) (snd <$> reg) = false)
        as ->; [|done].
      apply not_true_is_false. intros H.
      apply existsb_exists in H as (c' & Hc' & H).
      apply andb_prop in H as [E Ho'].
      apply String.eqb_eq in E.
      apply list_elem_of_In, list_elem_of_fmap in Hc' as ([k' c''] & -> & Hin').
      cbn [snd] in *. pose proof (Hk _ Hin') as Hsrc'. cbn [fst snd] in Hsrc'.
      assert (k' = k) as -> by congruence.
      assert (dict_get reg k = Some c'') as Hc''
        by (by apply dict_get_Some).
      congruence.
  - destruct (existsb _ (snd <$> reg)); done.
Qed.

Lemma updateBuildMatches_keys matches isInitial reg s :
  keyed reg ->
  is_Some (dict_get (registry (updateBuildMatches matches isInitial reg)) s)
  <-> s ∈ match_src <$> matches.
Proof.
  intros Hk. rewrite updateBuildMatches_lookup by done. unfold add_matches.
  rewrite add_matches_is_Some, remove_stale_lookup.
  destruct (includes_source (match_src <$> matches) s) eqn:Hin.
  - apply includes_source_spec in Hin. tauto.
  - split; [|by right]. intros [[x [=]]|H]; done.
Qed.

(** X1. After [updateBuildMatches] the registry holds a match for exactly
    the sources that [getBuildMatches] answered, whatever it held before,
    and it is still keyed by [src]. *)
Theorem updateBuildMatches_registers_the_expected_sources
    matches isInitial reg :
  keyed reg ->
  let updated := updateBuildMatches matches isInitial reg in
  keyed (registry updated) /\
  forall s, is_Some (dict_get (registry updated) s)
            <-> s ∈ match_src <$> matches.
Proof.
  intros Hk. split; [by apply updateBuildMatches_keyed|].
  intros s. by apply updateBuildMatches_keys.
Qed.





End UpdateFacts.

(** *** [findBuildMatch] for the filesystem check *)

Lemma findBuildMatch_filesystem router1 router2 files p : forall ms,
  findBuildMatch_loop router1 files ms p true
  = findBuildMatch_loop router2 files ms p true.
Proof.
  induction ms as [|m ms IH]; [done|]. cbn [findBuildMatch_loop].
  unfold shouldServe. cbn [negb]. by rewrite IH.
Qed.

Lemma findBuildMatch_accepts router files p : forall ms m,
  findBuildMatch_loop router files ms p true = Ok (Some m) ->
  m ∈ ms /\
  match builder_shouldServe (builderWithPkg m) with
  | Some answer => answer files p = Ok true
  | None => is_Some (findAsset (buildMatch m) p)
  end.
Proof.
  induction ms as [|m0 ms IH]; intros m; cbn [findBuildMatch_loop];
    [discriminate|].
  destruct (shouldServe router files m0 p true) as [[]|e] eqn:E;
    [| |discriminate].
  - intros [= <-]. split; [by left|].
    unfold shouldServe in E.
    destruct (builder_shouldServe (builderWithPkg m0)); [done|].
    case_bool_decide; [done | discriminate].
  - intros H. apply IH in H as [Hin H]. split; [by right | done].
Qed.


(** *** [stop] *)

(** X7. Once [stop] has been called, every request is refused: the
    handler answers 404 [FILE_NOT_FOUND] with [Connection: close] and the
    request id, consults neither the router nor the registry and starts
    no build or function; and a further call of [stop] does nothing. *)
Theorem stopped_server_refuses_requests
    exitCode reg watcher updating closing srv
    (w : World) now random (r : Request)
    exitCode' reg' watcher' updating' closing' :
  let srv' := fst (fst (stop exitCode reg watcher updating closing srv)) in
  let st := devServerHandler w srv' now random r in
  podId srv' = podId srv /\
  statusCode (res st) = 404 /\
  res_headers (res st) !! "connection" = Some "close" /\
  res_headers (res st) !! "x-now-id"
    = Some (generateRequestId (podId srv) now random) /\
  body (res st) = Some (ErrorBody (negotiate r) 404 (Some "FILE_NOT_FOUND")) /\
  effects st = [] /\
  stop exitCode' reg' watcher' updating' closing' srv'
    = (srv', [], StopReturns).
Proof.
  cbn zeta.
  set (srv' := fst (fst (stop exitCode reg watcher updating closing srv))).
  assert (stopping srv' = true /\ podId srv' = podId srv) as [Hs Hp].
  { subst srv'. unfold stop. by destruct (stopping srv) eqn:E. }
  split; [done|].
  unfold devServerHandler. rewrite Hs, Hp.
  unfold stop. rewrite Hs.
  unfold send404, sendError, bind, get_req, modify_res, start.
  cbn [snd req res effects].
  split; [|split; [|split; [|split; [|split]]]]; reflexivity.
Qed.

End RegistryFacts.

Lemma keyed_sample_registry : Registry.keyed Registry.sample_registry.
Proof.
  split.
  - apply (bool_decide_unpack _). by vm_compute.
  - repeat constructor.
Qed.

Lemma sort_keep_permutes cmp l : Registry.sort_keep cmp l ≡ₚ l.
Proof. reflexivity. Qed.

(** The function's entrypoint changes builder: the registry then holds
    the two expected sources. *)
Lemma registers_the_expected_sources_sample :
  Registry.keyed Registry.sample_registry /\
  forall s,
    is_Some (dict_get
               (Registry.registry
                  (Registry.updateBuildMatches Registry.sort_keep
                     [Registry.docs_match; Registry.hello_next] false
                     Registry.sample_registry)) s)
    <-> s ∈ ["docs/**"; "api/hello.js"].
Proof.
  split; [exact keyed_sample_registry|].
  apply (updateBuildMatches_registers_the_expected_sources
           Registry.sort_keep sort_keep_permutes
           [Registry.docs_match; Registry.hello_next] false
           Registry.sample_registry keyed_sample_registry).
Defined.






(** ** The file watcher *)

Section WatcherFacts.
Import FsEvents Dispatcher Registry Watcher.

Lemma aggregated_idle : aggregated [] idle.
Proof. by split. Qed.

Lemma aggregated_enqueue events a type path :
  aggregated events a ->
  aggregated (events ++ [{| type := type; path := path |}])
    (enqueueFsEvent type path a).
Proof.
  intros [He Hb Ht Hn]. unfold enqueueFsEvent.
  destruct (watchAggregationId a) as [id|] eqn:Hid; split;
    cbn [batches watchAggregationEvents watchAggregationId timers];
    try done.
  - by rewrite app_assoc, He.
  - split; [done|]. intros H. by apply app_eq_nil in H as [_ ?].
  - by rewrite app_assoc, He.
  - split; [done|]. intros H. by apply app_eq_nil in H as [_ ?].
  - lia.
Qed.

Lemma aggregated_fires events a :
  aggregated events a -> is_Some (watchAggregationId a) ->
  aggregated events (timer_fires a).
Proof.
  intros [He Hb Ht Hn] [id Hid]. unfold timer_fires. split;
    cbn [batches watchAggregationEvents watchAggregationId timers].
  - rewrite concat_app. cbn [concat]. by rewrite !app_nil_r.
  - apply Forall_app. split; [done|]. apply Forall_singleton.
    intros H. apply Ht in H. congruence.
  - done.
  - rewrite Hn, Hid, length_app. cbn [length]. lia.
Qed.

Lemma watch_run_aggregated steps : forall events a a',
  aggregated events a -> watch_run a steps = Some a' ->
  aggregated (events ++ enqueued steps) a'.
Proof.
  induction steps as [|s steps IH]; intros events a a' Ha; cbn [watch_run].
  - intros [= <-]. unfold enqueued. cbn [omap list_omap].
    by rewrite app_nil_r.
  - destruct s as [type path|]; cbn [watch_step mbind option_bind].
    + intros H. apply (IH (events ++ [{| type := type; path := path |}]))
        in H; [|by apply aggregated_enqueue].
      unfold enqueued in *. cbn [omap list_omap].
      by rewrite <- app_assoc in H.
    + destruct (watchAggregationId a) as [id|] eqn:Hid; [|discriminate].
      cbn [mbind option_bind]. intros H.
      apply (IH events) in H; [done|].
      apply aggregated_fires; [done | by eexists].
Qed.

(** X8. Whatever the order in which events arrive and the timer fires,
    every event is handed to [handleFilesystemEvents] exactly once and in
    order of arrival (or still waits for the timer); no batch is empty;
    a timer is pending exactly when events wait; and one timer is set per
    batch, however many events the batch holds. *)
Theorem enqueueFsEvent_hands_every_event_over_once steps a :
  watch_run idle steps = Some a -> aggregated (enqueued steps) a.
Proof.
  intros H. by apply (watch_run_aggregated steps [] idle a aggregated_idle).
Qed.

(** *** The rebuilds after a batch *)

Section RebuildFacts.
Variable minimatch : string -> string -> bool.
Variable devRouter :
  option string -> option string -> option (list RouteConfig) ->
  Result RouteResult.
Variable files : gmap string Asset.
Variable same_result :
  string * option string -> string * option string -> bool.
Variables changed removed : list string.
Variable reg : Matches.

Local Abbreviation queue_result :=
  (queue_result minimatch same_result changed removed).
Local Abbreviation queue_match :=
  (queue_match minimatch same_result changed removed).
Local Abbreviation needsRebuild :=
  (needsRebuild minimatch same_result changed removed).
Local Abbreviation watches := (watches minimatch changed removed).
Local Abbreviation trigger_rebuilds := (trigger_rebuilds devRouter files).
Local Abbreviation queued_ok := (queued_ok minimatch changed removed reg).
Local Abbreviation represented := (represented same_result).

Lemma queue_result_ok m : forall results acc,
  (exists k, (k, m) ∈ reg) ->
  (forall e, e ∈ results -> e ∈ buildResults (buildMatch m)) ->
  Forall queued_ok acc ->
  Forall queued_ok (fold_left (queue_result m) results acc).
Proof.
  induction results as [|e results IH]; intros acc Hm Hsub Hacc;
    cbn [fold_left]; [done|].
  apply IH; [done | intros e' He'; apply Hsub; by right |].
  unfold Watcher.queue_result.
  destruct (is_queued same_result acc m (fst e)); [done|].
  destruct (Watcher.watches minimatch changed removed (snd e)) eqn:Hw;
    [|done].
  apply Forall_app. split; [done|]. apply Forall_singleton.
  split; [done|]. split; [|done]. cbn [queued_requestPath queued_result
    queued_match]. destruct e as [rp r]. apply Hsub. by left.
Qed.

Lemma queue_match_ok : forall ms acc,
  (forall m, m ∈ ms -> exists k, (k, m) ∈ reg) ->
  Forall queued_ok acc ->
  Forall queued_ok (fold_left queue_match ms acc).
Proof.
  induction ms as [|m ms IH]; intros acc Hms Hacc; cbn [fold_left]; [done|].
  apply IH; [intros m' Hm'; apply Hms; by right|].
  unfold Watcher.queue_match. apply queue_result_ok; [|done|done].
  apply Hms. by left.
Qed.

Lemma needsRebuild_ok : Forall queued_ok (needsRebuild reg).
Proof.
  unfold Watcher.needsRebuild. apply queue_match_ok; [|by apply Forall_nil_2].
  intros m Hm. apply list_elem_of_fmap in Hm as ([k m'] & -> & Hin).
  by exists k.
Qed.

Lemma minimatches_true names pattern :
  minimatches minimatch names pattern = true ->
  exists file, file ∈ names /\
               (file = pattern \/ minimatch file pattern = true).
Proof.
  unfold minimatches. intros H. apply existsb_exists in H as (file & Hin & H).
  exists file. split; [by apply list_elem_of_In|].
  apply orb_prop in H as [H|H]; [left; by apply String.eqb_eq | by right].
Qed.

Lemma watches_true result :
  watches result = true ->
  exists patterns pattern file,
    watch result = Some patterns /\ pattern ∈ patterns /\
    (file ∈ changed \/ file ∈ removed) /\
    (file = pattern \/ minimatch file pattern = true).
Proof.
  unfold Watcher.watches. destruct (watch result) as [patterns|]; [|done].
  intros H. apply existsb_exists in H as (pattern & Hin & H).
  apply orb_prop in H as [H|H]; apply minimatches_true in H as (file & Hf & H).
  - exists patterns, pattern, file. repeat split; auto.
    by apply list_elem_of_In.
  - exists patterns, pattern, file. repeat split; auto.
    by apply list_elem_of_In.
Qed.

Lemma trigger_rebuilds_subset q : forall queue,
  q ∈ fst (trigger_rebuilds queue) ->
  q ∈ queue /\
  (queued_requestPath q = None \/
   exists p, queued_requestPath q = Some p /\
             shouldServe devRouter files (queued_match q) p false = Ok true).
Proof.
  induction queue as [|q0 queue IH]; cbn [Watcher.trigger_rebuilds fst].
  - intros H. by apply elem_of_nil in H.
  - destruct (queued_requestPath q0) as [p|] eqn:Hp.
    + destruct (shouldServe devRouter files (queued_match q0) p false)
        as [[]|e] eqn:Hs.
      * destruct (trigger_rebuilds queue) as [ts err]. cbn [fst] in *.
        intros H. apply elem_of_cons in H as [->|H].
        -- split; [by left|]. right. by exists p.
        -- apply IH in H as [H1 H2]. split; [by right | done].
      * intros H. apply IH in H as [H1 H2]. split; [by right | done].
      * intros H. by apply elem_of_nil in H.
    + destruct (trigger_rebuilds queue) as [ts err]. cbn [fst] in *.
      intros H. apply elem_of_cons in H as [->|H].
      * split; [by left | by left].
      * apply IH in H as [H1 H2]. split; [by right | done].
Qed.

(** X9. [handleFilesystemEvents] calls [triggerBuild] only for a build
    result of a registered match that has a [watch] array with a pattern
    that some changed or removed file equals or matches, and only when
    the result is keyed by [null] or [shouldServe] accepts its request
    path. When no file changed and none was removed, nothing is rebuilt
    and no [shouldServe] is asked. *)
Theorem rebuilds_only_for_watched_changes :
  (forall q,
     q ∈ fst (rebuilds minimatch devRouter files same_result
                changed removed reg) ->
     (exists k, (k, queued_match q) ∈ reg) /\
     (queued_requestPath q, queued_result q)
       ∈ buildResults (buildMatch (queued_match q)) /\
     (exists patterns pattern file,
        watch (queued_result q) = Some patterns /\ pattern ∈ patterns /\
        (file ∈ changed \/ file ∈ removed) /\
        (file = pattern \/ minimatch file pattern = true)) /\
     (queued_requestPath q = None \/
      exists p, queued_requestPath q = Some p /\
        shouldServe devRouter files (queued_match q) p false = Ok true)) /\
  (changed = [] -> removed = [] ->
   rebuilds minimatch devRouter files same_result changed removed reg
   = ([], None)).
Proof.
  pose proof needsRebuild_ok as Hok. rewrite Forall_forall in Hok. split.
  - intros q Hq. unfold rebuilds in Hq.
    apply trigger_rebuilds_subset in Hq as [Hin Hserve].
    destruct (Hok q Hin) as (Hreg & Hres & Hw).
    split; [done|]. split; [done|]. split; [|done].
    by apply watches_true.
  - intros Hc Hr. unfold rebuilds.
    destruct (needsRebuild reg) as [|q queue] eqn:E; [done|].
    destruct (Hok q) as (_ & _ & Hw); [by left|].
    apply watches_true in Hw as (ps & p & file & _ & _ & [Hf|Hf] & _);
      subst; by apply elem_of_nil in Hf.
Qed.

Lemma represented_app m e queue more :
  represented m e queue -> represented m e (queue ++ more).
Proof.
  intros (q & Hq & H). exists q. split; [|done].
  apply elem_of_app. by left.
Qed.

Lemma queue_result_keeps m0 e0 m : forall results acc,
  represented m0 e0 acc ->
  represented m0 e0 (fold_left (queue_result m) results acc).
Proof.
  induction results as [|e results IH]; intros acc H; cbn [fold_left];
    [done|].
  apply IH. unfold Watcher.queue_result.
  destruct (is_queued same_result acc m (fst e)); [done|].
  destruct (Watcher.watches minimatch changed removed (snd e)); [|done].
  by apply represented_app.
Qed.

Lemma queue_match_keeps m0 e0 : forall ms acc,
  represented m0 e0 acc ->
  represented m0 e0 (fold_left queue_match ms acc).
Proof.
  induction ms as [|m ms IH]; intros acc H; cbn [fold_left]; [done|].
  apply IH. unfold Watcher.queue_match. by apply queue_result_keeps.
Qed.

Lemma queue_result_adds m e : forall results acc,
  e ∈ results -> watches (snd e) = true ->
  represented m e (fold_left (queue_result m) results acc).
Proof.
  induction results as [|e' results IH]; intros acc Hin Hw;
    [by apply elem_of_nil in Hin|].
  cbn [fold_left]. apply elem_of_cons in Hin as [<-|Hin]; [|by apply IH].
  apply queue_result_keeps. unfold Watcher.queue_result.
  destruct (is_queued same_result acc m (fst e)) eqn:Hq.
  - unfold is_queued in Hq. apply existsb_exists in Hq as (q & Hin & Hq).
    exists q. split; [by apply list_elem_of_In | by right].
  - rewrite Hw. eexists. split; [|by left].
    apply elem_of_app. right. by left.
Qed.

Lemma queue_match_adds m e : forall ms acc,
  m ∈ ms -> e ∈ buildResults (buildMatch m) -> watches (snd e) = true ->
  represented m e (fold_left queue_match ms acc).
Proof.
  induction ms as [|m' ms IH]; intros acc Hin He Hw;
    [by apply elem_of_nil in Hin|].
  cbn [fold_left]. apply elem_of_cons in Hin as [<-|Hin]; [|by apply IH].
  apply queue_match_keeps. unfold Watcher.queue_match.
  by apply queue_result_adds.
Qed.

(** X10. A build result of a registered match whose [watch] array names
    a changed or removed file exactly is queued for a rebuild, whatever
    [minimatch] makes of the name as a pattern: the queue holds its entry,
    or an entry that holds the same result object. *)
Theorem watched_file_names_are_queued k m requestPath result patterns file :
  (k, m) ∈ reg ->
  (requestPath, result) ∈ buildResults (buildMatch m) ->
  watch result = Some patterns -> file ∈ patterns ->
  file ∈ changed \/ file ∈ removed ->
  exists q, q ∈ needsRebuild reg /\
    (q = {| queued_requestPath := requestPath; queued_match := m;
            queued_result := result |} \/
     same_result (match_src (queued_match q), queued_requestPath q)
       (match_src m, requestPath) = true).
Proof.
  intros Hreg Hres Hwatch Hpat Hfile.
  apply (queue_match_adds m (requestPath, result)); [|done|].
  - apply list_elem_of_fmap. by exists (k, m).
  - unfold Watcher.watches. cbn [snd]. rewrite Hwatch.
    apply existsb_exists. exists file. split; [by apply list_elem_of_In|].
    assert (forall names, file ∈ names ->
              minimatches minimatch names file = true) as Hyes.
    { intros names Hin. apply existsb_exists. exists file.
      split; [by apply list_elem_of_In|]. by rewrite String.eqb_refl. }
    destruct Hfile as [H|H]; rewrite (Hyes _ H); [done|].
    by rewrite orb_true_r.
Qed.

End RebuildFacts.

End WatcherFacts.

(** Three events and the timer: one batch with the three events. *)
Lemma burst_is_one_batch :
  exists a, Watcher.watch_run Watcher.idle Watcher.burst = Some a /\
    Watcher.batches a = [Watcher.enqueued Watcher.burst] /\
    Watcher.timers a = 1%nat /\
    Watcher.watchAggregationId a = None.
Proof.
  eexists. split; [reflexivity|].
  pose proof (enqueueFsEvent_hands_every_event_over_once Watcher.burst _
                eq_refl) as H.
  destruct H as [He _ _ Hn]. split; [|split]; [|exact Hn|reflexivity].
  reflexivity.
Defined.

(** [package.json] changes: the site build, which watches it, is
    rebuilt; the static match, which watches nothing, is not. *)
Lemma watched_file_names_are_queued_sample :
  exists q,
    q ∈ Watcher.needsRebuild Watcher.no_glob Watcher.own_result
          ["package.json"] [] Watcher.watched_registry /\
    (q = {| Watcher.queued_requestPath := None;
            Watcher.queued_match := Watcher.watched_site;
            Watcher.queued_result :=
              {| output := []; routes := None;
                 watch := Some ["src/**"; "package.json"];
                 distPath := Some "/app/dist" |} |} \/
     Watcher.own_result
       (Registry.match_src (Watcher.queued_match q),
        Watcher.queued_requestPath q)
       (Registry.match_src Watcher.watched_site, None) = true).
Proof.
  apply (watched_file_names_are_queued Watcher.no_glob Watcher.own_result
           ["package.json"] [] Watcher.watched_registry "package.json"
           Watcher.watched_site None _ ["src/**"; "package.json"]
           "package.json").
  - apply elem_of_cons. right. apply elem_of_cons. by left.
  - apply elem_of_cons. by left.
  - reflexivity.
  - apply elem_of_cons. right. apply elem_of_cons. by left.
  - left. apply elem_of_cons. by left.
Defined.

Lemma rebuilds_sample :
  Watcher.rebuilds Watcher.no_glob Registry.no_route ∅ Watcher.own_result
    [] [] Watcher.watched_registry = ([], None).
Proof.
  by apply (rebuilds_only_for_watched_changes Watcher.no_glob
              Registry.no_route ∅ Watcher.own_result [] []
              Watcher.watched_registry).
Defined.

(** ** The directory listing *)

Section ListingFacts.
Import Dispatcher Listing.
Variable relative : string -> string -> string.
Variable directoryTemplate : list FileEntry -> string -> string -> string.
Variable prefix : string.

Local Abbreviation is_hidden := (is_hidden prefix).
Local Abbreviation folder_of := (folder_of relative prefix).
Local Abbreviation listed_keys := (listed_keys relative prefix).
Local Abbreviation entry_of := (entry_of relative prefix).

Lemma listed_keys_sound p : forall keys dirs,
  p ∈ listed_keys dirs keys -> p ∈ keys /\ is_hidden p = false.
Proof.
  induction keys as [|k keys IH]; intros dirs; cbn [Listing.listed_keys].
  - intros H. by apply elem_of_nil in H.
  - destruct (is_hidden k) eqn:Hk.
    + intros H. apply IH in H as [H1 H2]. split; [by right | done].
    + destruct (folder_of k) as [dir|].
      * case_bool_decide.
        -- intros H'. apply IH in H' as [H1 H2]. split; [by right | done].
        -- intros H'. apply elem_of_cons in H' as [->|H'];
             [split; [by left | done]|].
           apply IH in H' as [H1 H2]. split; [by right | done].
      * intros H'. apply elem_of_cons in H' as [->|H'];
          [split; [by left | done]|].
        apply IH in H' as [H1 H2]. split; [by right | done].
Qed.

Lemma listed_keys_complete p : forall keys dirs,
  p ∈ keys -> is_hidden p = false ->
  match folder_of p with
  | Some dir =>
      dir ∈ dirs \/
      exists p', p' ∈ listed_keys dirs keys /\ folder_of p' = Some dir
  | None => p ∈ listed_keys dirs keys
  end.
Proof.
  induction keys as [|k keys IH]; intros dirs Hin Hp;
    [by apply elem_of_nil in Hin|].
  cbn [Listing.listed_keys]. apply elem_of_cons in Hin as [<-|Hin].
  - rewrite Hp. destruct (folder_of p) as [dir|] eqn:Hf; [|by left].
    case_bool_decide; [by left|]. right. exists p. split; [by left | done].
  - specialize (IH dirs Hin Hp) as IH0.
    destruct (is_hidden k); [done|].
    destruct (folder_of k) as [dirk|] eqn:Hk.
    + case_bool_decide; [done|].
      specialize (IH (dirs ∪ {[ dirk ]}) Hin Hp).
      destruct (folder_of p) as [dir|]; [|by right].
      destruct IH as [Hd|(p' & Hp' & Hf')].
      * apply elem_of_union in Hd as [Hd|Hd]; [by left|].
        apply elem_of_singleton in Hd as ->. right. exists k.
        split; [by left | done].
      * right. exists p'. split; [by right | done].
    + destruct (folder_of p) as [dir|]; [|by right].
      destruct IH0 as [Hd|(p' & Hp' & Hf')]; [by left|].
      right. exists p'. split; [by right | done].
Qed.

Lemma listed_keys_folders : forall keys dirs,
  NoDup (omap folder_of (listed_keys dirs keys)) /\
  forall dir, dir ∈ omap folder_of (listed_keys dirs keys) -> dir ∉ dirs.
Proof.
  induction keys as [|k keys IH]; intros dirs; cbn [Listing.listed_keys].
  - split; [apply NoDup_nil_2|]. intros dir H. by apply elem_of_nil in H.
  - destruct (is_hidden k); [apply IH|].
    destruct (folder_of k) as [dirk|] eqn:Hk.
    + case_bool_decide as Hin; [apply IH|].
      cbn [omap list_omap]. rewrite Hk.
      destruct (IH (dirs ∪ {[ dirk ]})) as [Hnd Hout]. split.
      * apply NoDup_cons. split; [|done]. intros H.
        apply Hout in H. apply H. apply elem_of_union. right.
        by apply elem_of_singleton.
      * intros dir H. apply elem_of_cons in H as [->|H]; [done|].
        apply Hout in H. intros Hd. apply H. apply elem_of_union. by left.
    + cbn [omap list_omap]. rewrite Hk. apply IH.
Qed.

Lemma folders_entries : forall ks,
  folders (entry_of <$> ks) = omap folder_of ks.
Proof.
  unfold folders. induction ks as [|k ks IH]; [done|].
  rewrite fmap_cons. cbn [List.filter omap list_omap].
  destruct (folder_of k) as [dir|] eqn:Hk.
  - assert (entry_type (entry_of k) = "folder") as ->
      by (unfold Listing.entry_of; by rewrite Hk).
    rewrite String.eqb_refl, fmap_cons. f_equal; [|exact IH].
    unfold Listing.entry_of. by rewrite Hk.
  - assert (entry_type (entry_of k) = "file") as ->
      by (unfold Listing.entry_of; by rewrite Hk).
    exact IH.
Qed.

Lemma entry_of_folder p p' dir :
  folder_of p = Some dir -> folder_of p' = Some dir ->
  entry_of p = entry_of p'.
Proof. intros H H'. unfold Listing.entry_of. by rewrite H, H'. Qed.

End ListingFacts.

Section ListingTheorem.
Import Dispatcher Listing.
Variable relative : string -> string -> string.
Variable directoryTemplate : list FileEntry -> string -> string -> string.

(** X11. The directory listing shows every registered source under the
    prefix other than [now.json] and [.nowignore], as a file or by its
    first folder below the prefix, and shows nothing else; no folder is
    listed twice; and there is no listing (the request is answered 404)
    exactly when no source is shown. *)
Theorem directoryListing_shows_the_sources_under_the_prefix
    (keys : list string) (requestPath : string) :
  let prefix := prefix_of requestPath in
  let es := entries relative keys requestPath in
  (forall p, p ∈ keys -> is_hidden prefix p = false ->
     entry_of relative prefix p ∈ es) /\
  (forall e, e ∈ es ->
     exists p, p ∈ keys /\ is_hidden prefix p = false /\
               e = entry_of relative prefix p) /\
  NoDup (folders es) /\
  (directoryListing relative directoryTemplate keys requestPath = None <->
   forall p, p ∈ keys -> is_hidden prefix p = true).
Proof.
  intros prefix es. subst es. unfold entries. fold prefix.
  assert (forall p, p ∈ keys -> is_hidden prefix p = false ->
            entry_of relative prefix p
              ∈ entry_of relative prefix
                  <$> listed_keys relative prefix ∅ keys) as Hall.
  { intros p Hin Hp.
    pose proof (listed_keys_complete relative prefix p keys ∅ Hin Hp) as H.
    destruct (folder_of relative prefix p) as [dir|] eqn:Hf.
    - destruct H as [H|(p' & Hp' & Hf')]; [by apply elem_of_empty in H|].
      rewrite (entry_of_folder relative prefix p p' dir Hf Hf').
      apply list_elem_of_fmap. by exists p'.
    - apply list_elem_of_fmap. by exists p. }
  assert (forall e,
            e ∈ entry_of relative prefix
                  <$> listed_keys relative prefix ∅ keys ->
            exists p, p ∈ keys /\ is_hidden prefix p = false /\
                      e = entry_of relative prefix p) as Honly.
  { intros e He. apply list_elem_of_fmap in He as (p & -> & Hp).
    apply listed_keys_sound in Hp as [H1 H2]. by exists p. }
  split; [done|]. split; [done|]. split.
  - rewrite folders_entries. apply listed_keys_folders.
  - unfold directoryListing, entries. fold prefix.
    destruct (entry_of relative prefix
                <$> listed_keys relative prefix ∅ keys) as [|e es] eqn:E.
    + split; [|done]. intros _ p Hin.
      destruct (is_hidden prefix p) eqn:Hp; [done|].
      specialize (Hall p Hin Hp). by apply elem_of_nil in Hall.
    + split; [done|]. intros H.
      destruct (Honly e) as (p & Hin & Hp & _); [by left|].
      rewrite (H p Hin) in Hp. discriminate.
Qed.

End ListingTheorem.

(** The sample sources at the root: the page, and the two folders, each
    once; [now.json] is not shown. *)
Lemma directoryListing_sample :
  Listing.entry_base
    <$> Listing.entries Listing.strip_prefix Listing.sources EmptyString
  = ["index.html"; "api"; "docs"] /\
  NoDup (Listing.folders
           (Listing.entries Listing.strip_prefix Listing.sources
              EmptyString)).
Proof.
  split; [reflexivity|].
  apply (directoryListing_shows_the_sources_under_the_prefix
           Listing.strip_prefix Listing.page_of Listing.sources EmptyString).
Defined.

(** ** Start-up *)

Section BootFacts.
Import Env Dispatcher Boot.

Lemma missing_names (base localEnv : gmap string string) name :
  name ∈ fst <$> filter (is_missing localEnv) (map_to_list base)
  <-> missing_reference base localEnv name.
Proof.
  rewrite list_elem_of_fmap. split.
  - intros ([k v] & -> & H). apply list_elem_of_filter in H as [Hm Hin].
    apply elem_of_map_to_list in Hin. unfold is_missing in Hm.
    cbn [fst snd] in *. apply Is_true_true in Hm.
    apply andb_prop in Hm as [Hat Hnone].
    apply bool_decide_eq_true in Hnone. by exists v.
  - intros (v & Hb & Hat & Hnone). exists (name, v). split; [done|].
    apply list_elem_of_filter. split; [|by apply elem_of_map_to_list].
    unfold is_missing. cbn [fst snd]. apply Is_true_true.
    rewrite Hat. by apply bool_decide_eq_true.
Qed.

Lemma missing_names_NoDup (base localEnv : gmap string string) :
  NoDup (fst <$> filter (is_missing localEnv) (map_to_list base)).
Proof.
  eapply sublist_NoDup; [apply (NoDup_fst_map_to_list base)|].
  apply fmap_sublist, sublist_filter.
Qed.

(** X12. [getLocalEnv] treats a file that does not exist as a file
    without variables; any other read error is thrown. Otherwise the
    server exits exactly when the base environment refers to a secret
    (a value that starts with [@]) that the file does not define, and
    the error then names each such variable once, and no other. *)
Theorem getLocalEnv_exits_on_missing_references
    (parseDotenv : string -> gmap string string) fileName base read localEnv :
  dotenv_of parseDotenv read = Ok localEnv ->
  let result := getLocalEnv parseDotenv fileName base read in
  dotenv_of parseDotenv (ReadFails "ENOENT") = Ok ∅ /\
  (forall code, code <> "ENOENT" ->
     getLocalEnv parseDotenv fileName base (ReadFails code)
     = EnvThrows code) /\
  ((forall name, ~ missing_reference (default ∅ base) localEnv name) ->
   exists env ignored, result = EnvLoaded env ignored) /\
  ((exists name, missing_reference (default ∅ base) localEnv name) ->
   exists missing, result = EnvExits missing /\ NoDup missing /\
     forall name, name ∈ missing
                  <-> missing_reference (default ∅ base) localEnv name).
Proof.
  intros Hread result. subst result. split; [done|]. split.
  { intros code Hcode. unfold getLocalEnv, dotenv_of.
    by destruct (String.eqb_spec code "ENOENT"). }
  unfold getLocalEnv. rewrite Hread. unfold validateEnvConfig. split.
  - intros Hnone. rewrite bool_decide_eq_true_2; [by eexists _, _|].
    destruct (fst <$> filter (is_missing localEnv)
                        (map_to_list (default ∅ base))) as [|k ks] eqn:E;
      [done|].
    exfalso. apply (Hnone k). apply missing_names. rewrite E. by left.
  - intros [name Hname]. rewrite bool_decide_eq_false_2.
    + eexists. split; [done|]. split; [apply missing_names_NoDup|].
      intros k. apply missing_names.
    + intros E. apply missing_names in Hname. rewrite E in Hname.
      by apply elem_of_nil in Hname.
Qed.

(** X13. When the requested port and the next [n - 1] ports are in use
    and the [n]-th port after it is free, the listen loop ends after
    [n + 1] calls of [listen], bound to that port, and the address shown
    is the one obtained with [[::]] and [127.0.0.1] written [localhost]. *)
Theorem listen_loop_binds_the_first_free_port
    (listen : ListenSpec -> Listened) (port : Z) (n fuel : nat)
    (address : string) :
  (forall k : nat, (k < n)%nat ->
     listen (Port (port + Z.of_nat k)) = ListenFails "EADDRINUSE") ->
  listen (Port (port + Z.of_nat n)) = Listening address ->
  (n < fuel)%nat ->
  listen_loop listen fuel (Port port)
  = Available (shown_address address) (Port (port + Z.of_nat n)).
Proof.
  revert port fuel. induction n as [|n IH]; intros port fuel Hbusy Hfree Hfuel.
  - destruct fuel as [|fuel]; [lia|]. cbn [listen_loop].
    replace (port + Z.of_nat 0) with port in Hfree by lia.
    rewrite Hfree. f_equal. f_equal. lia.
  - destruct fuel as [|fuel]; [lia|]. cbn [listen_loop].
    pose proof (Hbusy 0%nat ltac:(lia)) as H0.
    replace (port + Z.of_nat 0) with port in H0 by lia. rewrite H0.
    change (String.eqb "EADDRINUSE" "EADDRINUSE") with true. cbn iota.
    rewrite (IH (port + 1) fuel).
    + f_equal. f_equal. lia.
    + intros k Hk. specialize (Hbusy (S k) ltac:(lia)).
      by replace (port + 1 + Z.of_nat k) with (port + Z.of_nat (S k)) by lia.
    + by replace (port + 1 + Z.of_nat n) with (port + Z.of_nat (S n)) by lia.
    + lia.
Qed.

End BootFacts.

(** No [.env] file, and a base that refers to one secret: the server
    exits and names it. *)
Lemma getLocalEnv_sample :
  exists missing,
    Boot.getLocalEnv Boot.parse_nothing ".env" (Some Env.base_env)
      (Boot.ReadFails "ENOENT") = Boot.EnvExits missing /\
    forall name, name ∈ missing
                 <-> Boot.missing_reference Env.base_env ∅ name.
Proof.
  destruct (getLocalEnv_exits_on_missing_references Boot.parse_nothing ".env"
              (Some Env.base_env) (Boot.ReadFails "ENOENT") ∅ eq_refl)
    as (_ & _ & _ & H).
  destruct H as (missing & Hm & _ & Hin).
  - exists "API_KEY", "@api-key". repeat split.
  - exists missing. split; [exact Hm | exact Hin].
Defined.

(** Ports 3000 and 3001 are taken: the server comes up on 3002. *)
Lemma listen_loop_sample :
  Boot.listen_loop Boot.busy 5 (Boot.Port 3000)
  = Boot.Available "http://localhost:3002" (Boot.Port 3002).
Proof.
  apply (listen_loop_binds_the_first_free_port Boot.busy 3000 2 5
           "http://[::]:3002").
  - intros [|[|k]] Hk; [reflexivity | reflexivity | lia].
  - reflexivity.
  - lia.
Defined.

(** ** The scheduler, once more *)

Section SchedulerMore.
Import Scheduler.

Lemma teardown_lookup (l : Dict Asset) : forall (out : Dict Asset) name,
  dict_get (fold_left (fun o e => dict_delete (fst e) o) l out) name =
    if existsb (fun e => String.eqb (fst e) name) l then None
    else dict_get out name.
Proof.
  induction l as [|[k a] l IH]; intros out name; cbn [fold_left existsb fst];
    [done|].
  rewrite IH, dict_get_delete.
  destruct (String.eqb k name); [|done].
  by destruct (existsb _ l).
Qed.

(** X14. When a call of [triggerBuild] with a previous build result
    comes to start its build, every asset of that result is first removed
    from the outputs of the match (so it cannot be served while the build
    runs), the other outputs stay, the results and the timestamp of the
    match are untouched, and the build is registered under the key. *)
Theorem triggerBuild_removes_the_previous_outputs
    s t key m requestPath r mt out :
  tasks s !! t = Some (AwaitConfig key m requestPath (Some r)) ->
  buildMatches s !! m = Some mt ->
  buildOutput mt = Some out ->
  exists s' mt' out',
    triggerBuild_build s t = Some s' /\
    buildMatches s' !! m = Some mt' /\
    buildOutput mt' = Some out' /\
    (forall name, name ∈ fst <$> output r -> dict_get out' name = None) /\
    (forall name, name ∉ fst <$> output r ->
       dict_get out' name = dict_get out name) /\
    src mt' = src mt /\ buildTimestamp mt' = buildTimestamp mt /\
    buildResults mt' = buildResults mt /\
    inProgressBuilds s' !! key = Some (length (promises s)).
Proof.
  intros Ht Hm Hout. unfold triggerBuild_build. rewrite Ht.
  eexists _, (teardown (Some r) mt), _. split; [reflexivity|].
  cbn [buildMatches inProgressBuilds]. split.
  { by rewrite lookup_alter_eq, Hm. }
  unfold teardown. cbn [buildOutput set_buildOutput src buildTimestamp
    buildResults]. rewrite Hout. cbn [fmap option_fmap option_map].
  split; [reflexivity|].
  assert (forall name,
            existsb (fun e : string * Asset => String.eqb (fst e) name)
              (output r) = true <-> name ∈ fst <$> output r) as Hin.
  { intros name. rewrite existsb_exists. split.
    - intros ([k a] & Hk & E). apply String.eqb_eq in E. cbn [fst] in E.
      subst. apply list_elem_of_fmap. exists (name, a).
      split; [done | by apply list_elem_of_In].
    - intros H. apply list_elem_of_fmap in H as ([k a] & -> & Hk).
      exists (k, a). split; [by apply list_elem_of_In|].
      apply String.eqb_refl. }
  split; [|split; [|split; [|split; [|split]]]]; try reflexivity.
  - intros name Hn. rewrite teardown_lookup.
    apply Hin in Hn. by rewrite Hn.
  - intros name Hn. rewrite teardown_lookup.
    destruct (existsb _ (output r)) eqn:E; [|done].
    apply Hin in E. done.
  - by rewrite lookup_insert_eq.
Qed.

(** X15. When every trigger reaches its [executeBuild] before the next
    step of the event loop, and the calls waiting on a build resume as
    soon as it completes, then at any moment each key has at most one
    build in progress, and [inProgressBuilds] holds exactly the builds in
    progress, each under its key. *)
Theorem triggers_in_turn_share_one_build ms es s :
  turns (init ms) es = Some s ->
  forall key,
    (length (pending s key) <= 1)%nat /\
    forall p,
      inProgressBuilds s !! key = Some p <->
      exists b, promises s !! p = Some b /\ build_key b = key /\
                build_state b = None.
Proof.
  intros H key.
  assert (settled s) as Hs
    by (apply (settled_turns es (init ms) s); [apply settled_init | exact H]).
  split; [by apply settled_one_build_per_key|].
  destruct Hs as [He Hp _ _]. intros p. split; [apply He|].
  intros (b & Hb & <- & Hn). by apply Hp.
Qed.

End SchedulerMore.

(** The assets of the previous result are gone, the other page stays. *)
Lemma removes_the_previous_outputs_sample :
  exists s' mt' out',
    Scheduler.triggerBuild_build SchedulerSamples.rebuilding 0 = Some s' /\
    Scheduler.buildMatches s' !! "pages/index.js" = Some mt' /\
    buildOutput mt' = Some out' /\
    dict_get out' "about" = None /\
    dict_get out' "index" = Some (FileBlob "<html>").
Proof.
  destruct (triggerBuild_removes_the_previous_outputs
              SchedulerSamples.rebuilding 0 "pages/index.js-about"
              "pages/index.js" (Some "about") SchedulerData.about_html
              _ _ eq_refl eq_refl eq_refl)
    as (s' & mt' & out' & Hs & Hm & Ho & Hgone & Hkept & _).
  exists s', mt', out'. split; [exact Hs|]. split; [exact Hm|].
  split; [exact Ho|]. split.
  - apply Hgone. apply elem_of_cons. by left.
  - rewrite Hkept; [reflexivity|].
    intros H. apply elem_of_cons in H as [H|H]; [discriminate|].
    by apply elem_of_nil in H.
Defined.

(** Three triggers in turn: the second waits on the build of the first,
    the third comes after the build and within two seconds of it. *)
Lemma triggers_in_turn_sample :
  exists s,
    Scheduler.turns (Scheduler.init SchedulerData.one_match)
      SchedulerSamples.in_turn = Some s /\
    (length (Scheduler.pending s "pages/index.js-about") <= 1)%nat.
Proof.
  eexists. split; [by vm_compute|].
  apply (triggers_in_turn_share_one_build SchedulerData.one_match
           SchedulerSamples.in_turn).
  by vm_compute.
Defined.

(** ** The file index after a batch *)

Section FsEventsMore.
Import FsEvents.
Variable relative_cwd : string -> string.

Local Abbreviation handleEvent := (handleEvent relative_cwd).
Local Abbreviation handleEvents := (handleEvents relative_cwd).
Local Abbreviation mark_of := (mark_of relative_cwd).

Lemma handleEvents_app pre : forall post b,
  handleEvents (pre ++ post) b =
    match handleEvents pre b with
    | Done b1 => handleEvents post b1
    | Threw code b1 => Threw code b1
    end.
Proof.
  induction pre as [|[e st] pre IH]; intros post b; [done|].
  rewrite <- app_comm_cons. cbn [FsEvents.handleEvents].
  destruct (handleEvent e st b) as [b1|code b1]; [apply IH | done].
Qed.

(** What an event the loop handles does to the entry of a name. *)
Lemma handleEvent_files name e st b b1 :
  handleEvent e st b = Done b1 ->
  files b1 !! name =
    match mark_of (e, st) with
    | Some (n, mk) =>
        if String.eqb n name then
          match mk, st with
          | MarkChanged, StatOk mode => Some (FileFsRef (path e) mode)
          | _, _ => None
          end
        else files b !! name
    | None => files b !! name
    end.
Proof.
  unfold FsEvents.handleEvent, FsEvents.mark_of, handleFileModified,
    handleFileDeleted, handleFileCreated, fileChanged, fileRemoved.
  destruct (String.eqb_spec (type e) "add") as [Ha|Ha].
  - rewrite Ha. simpl. destruct st as [mode|code].
    + intros [= <-]. cbn [files].
      destruct (String.eqb_spec (relative_cwd (path e)) name) as [<-|Hne].
      * by rewrite lookup_insert_eq.
      * by rewrite lookup_insert_ne.
    + destruct (String.eqb code "ENOENT"); [|discriminate].
      intros [= <-]. cbn [files].
      destruct (String.eqb_spec (relative_cwd (path e)) name) as [<-|Hne].
      * by rewrite lookup_delete_eq.
      * by rewrite lookup_delete_ne.
  - destruct (String.eqb_spec (type e) "unlink") as [Hu|Hu].
    + intros [= <-]. cbn [files].
      destruct (String.eqb_spec (relative_cwd (path e)) name) as [<-|Hne].
      * by rewrite lookup_delete_eq.
      * by rewrite lookup_delete_ne.
    + simpl. destruct (String.eqb (type e) "change").
      * destruct st as [mode|code].
        -- intros [= <-]. cbn [files].
           destruct (String.eqb_spec (relative_cwd (path e)) name)
             as [<-|Hne].
           ++ by rewrite lookup_insert_eq.
           ++ by rewrite lookup_insert_ne.
        -- destruct (String.eqb code "ENOENT"); [|discriminate].
           intros [= <-]. cbn [files].
           destruct (String.eqb_spec (relative_cwd (path e)) name)
             as [<-|Hne].
           ++ by rewrite lookup_delete_eq.
           ++ by rewrite lookup_delete_ne.
      * by intros [= <-].
Qed.

Lemma handleEvents_untouched name : forall es b b',
  handleEvents es b = Done b' ->
  (forall ev mk, ev ∈ es -> mark_of ev <> Some (name, mk)) ->
  files b' !! name = files b !! name.
Proof.
  induction es as [|[e st] es IH]; intros b b'; cbn [FsEvents.handleEvents].
  - by intros [= <-].
  - destruct (handleEvent e st b) as [b1|code b1] eqn:E; [|discriminate].
    intros H Hno. rewrite (IH b1 b' H).
    + rewrite (handleEvent_files name e st b b1 E).
      destruct (mark_of (e, st)) as [[n mk]|] eqn:Hm; [|done].
      destruct (String.eqb_spec n name) as [->|Hne]; [|done].
      exfalso. apply (Hno (e, st) mk); [by left | done].
    + intros ev mk Hin. apply Hno. by right.
Qed.

(** X16. When a batch is handled to its end, the file index holds for
    every name what the last event about the name left: the file
    reference of the event's path with the mode of the stat when the file
    was added or changed and could be read, and nothing when it was
    unlinked or had vanished ([ENOENT]). A name that no event of the
    batch is about keeps its entry. *)
Theorem file_index_follows_the_last_event
    pre e st post b b' name :
  handleEvents (pre ++ (e, st) :: post) b = Done b' ->
  (forall ev mk, ev ∈ post -> mark_of ev <> Some (name, mk)) ->
  (relative_cwd (path e) = name ->
   (type e = "add" \/ type e = "change") ->
   forall mode, st = StatOk mode ->
   files b' !! name = Some (FileFsRef (path e) mode)) /\
  (relative_cwd (path e) = name ->
   type e = "unlink" \/
     ((type e = "add" \/ type e = "change") /\ st = StatThrows "ENOENT") ->
   files b' !! name = None) /\
  ((forall ev mk, ev ∈ pre ++ [(e, st)] -> mark_of ev <> Some (name, mk)) ->
   files b' !! name = files b !! name).
Proof.
  rewrite handleEvents_app. intros H Hpost.
  destruct (handleEvents pre b) as [b0|code b0] eqn:Hpre; [|discriminate].
  cbn [FsEvents.handleEvents] in H.
  destruct (handleEvent e st b0) as [b1|code b1] eqn:He; [|discriminate].
  pose proof (handleEvents_untouched name post b1 b' H Hpost) as Hlast.
  pose proof (handleEvent_files name e st b0 b1 He) as Hone.
  rewrite Hlast, Hone. clear Hlast Hone.
  split; [|split].
  - intros Hn Ht mode ->. unfold FsEvents.mark_of. rewrite Hn.
    destruct Ht as [-> | ->]; simpl; by rewrite String.eqb_refl.
  - intros Hn Ht. unfold FsEvents.mark_of. rewrite Hn.
    destruct Ht as [-> | [[-> | ->] ->]]; simpl;
      by rewrite String.eqb_refl.
  - intros Hno.
    destruct (mark_of (e, st)) as [[n mk]|] eqn:Hm.
    + destruct (String.eqb_spec n name) as [->|Hne].
      * exfalso. apply (Hno (e, st) mk); [|done].
        apply elem_of_app. right. by left.
      * apply (handleEvents_untouched name pre b b0 Hpre).
        intros ev mk' Hin. apply Hno. apply elem_of_app. by left.
    + apply (handleEvents_untouched name pre b b0 Hpre).
      intros ev mk' Hin. apply Hno. apply elem_of_app. by left.
Qed.

(** X17. A stat that fails with anything but [ENOENT] while an added or
    changed file is handled ends the batch with that error: the events
    before it have been applied, the events after it are not. *)
Theorem stat_error_ends_the_batch pre e code post b b0 :
  handleEvents pre b = Done b0 ->
  type e = "add" \/ type e = "change" ->
  code <> "ENOENT" ->
  handleEvents (pre ++ (e, StatThrows code) :: post) b = Threw code b0.
Proof.
  intros Hpre Ht Hcode. rewrite handleEvents_app, Hpre.
  cbn [FsEvents.handleEvents].
  assert (handleEvent e (StatThrows code) b0 = Threw code b0) as ->; [|done].
  unfold FsEvents.handleEvent, handleFileModified, handleFileCreated.
  destruct (String.eqb_spec code "ENOENT") as [E|_]; [done|].
  by destruct Ht as [-> | ->].
Qed.

(** X18. An event whose path starts with the [distPath] of some build
    result does nothing: the batch is handled as if the event were not in
    it. *)
Theorem events_under_a_distPath_are_dropped
    (matches : list BuildMatch) (fs : gmap string Asset) pre ev post d :
  d ∈ distPaths matches ->
  String.prefix d (path (fst ev)) = true ->
  handleFilesystemEvents relative_cwd matches fs (pre ++ ev :: post)
  = handleFilesystemEvents relative_cwd matches fs (pre ++ post).
Proof.
  intros Hd Hp. unfold handleFilesystemEvents, kept_events. f_equal.
  rewrite !filter_app. f_equal. rewrite filter_cons.
  rewrite decide_False; [done|]. intros H. apply Is_true_true in H.
  rewrite forallb_forall in H. apply list_elem_of_In in Hd.
  specialize (H d Hd). by rewrite Hp in H.
Qed.

End FsEventsMore.

(** [a.js] is changed: the index holds the file with the mode of the
    stat. *)
Lemma file_index_sample :
  exists b,
    FsEvents.handleEvents FsEvents.strip_app
      [({| FsEvents.type := "change"; FsEvents.path := "/app/a.js" |},
        FsEvents.StatOk 420)]
      {| FsEvents.files := ∅; FsEvents.changed := ∅;
         FsEvents.removed := ∅ |} = FsEvents.Done b /\
    FsEvents.files b !! "a.js" = Some (FileFsRef "/app/a.js" 420).
Proof.
  eexists. split; [reflexivity|].
  apply (file_index_follows_the_last_event FsEvents.strip_app []
           {| FsEvents.type := "change"; FsEvents.path := "/app/a.js" |}
           (FsEvents.StatOk 420) []
           {| FsEvents.files := ∅; FsEvents.changed := ∅;
              FsEvents.removed := ∅ |} _ "a.js" eq_refl).
  - intros ev mk H. by apply elem_of_nil in H.
  - reflexivity.
  - by right.
  - reflexivity.
Defined.

(** [b.js] cannot be read: the batch ends there, with [a.js] changed and
    not yet removed. *)
Lemma stat_error_sample :
  exists b0,
    FsEvents.handleEvents FsEvents.strip_app FsSamples.unreadable
      {| FsEvents.files := ∅; FsEvents.changed := ∅;
         FsEvents.removed := ∅ |} = FsEvents.Threw "EACCES" b0 /\
    FsEvents.files b0 !! "a.js" = Some (FileFsRef "/app/a.js" 420).
Proof.
  eexists. split.
  - apply (stat_error_ends_the_batch FsEvents.strip_app
             [({| FsEvents.type := "change"; FsEvents.path := "/app/a.js" |},
               FsEvents.StatOk 420)]
             {| FsEvents.type := "change"; FsEvents.path := "/app/b.js" |}
             "EACCES"
             [({| FsEvents.type := "unlink"; FsEvents.path := "/app/a.js" |},
               FsEvents.StatThrows "ENOENT")]).
    + reflexivity.
    + by right.
    + discriminate.
  - reflexivity.
Defined.

(** The event under [/app/dist] of the sample batch is dropped. *)
Lemma events_under_a_distPath_sample :
  FsEvents.handleFilesystemEvents FsEvents.strip_app [FsEvents.site] ∅
    FsEvents.sample_batch
  = FsEvents.handleFilesystemEvents FsEvents.strip_app [FsEvents.site] ∅
      (take 3 FsEvents.sample_batch ++ drop 4 FsEvents.sample_batch).
Proof.
  apply (events_under_a_distPath_are_dropped FsEvents.strip_app
           [FsEvents.site] ∅ (take 3 FsEvents.sample_batch)
           ({| FsEvents.type := "add"; FsEvents.path := "/app/dist/out.js" |},
            FsEvents.StatOk 420)
           (drop 4 FsEvents.sample_batch) "/app/dist").
  - apply elem_of_cons. by left.
  - reflexivity.
Defined.

(** ** The asset that is found *)

Section AssetsMore.
Import Assets.

Lemma find_first_of_its_key {A} (p : string * A -> bool) (l : Dict A) k v :
  (forall e e', fst e = fst e' -> p e = p e') ->
  List.find p l = Some (k, v) -> dict_get l k = Some v.
Proof.
  intros Hp. induction l as [|[k0 v0] l IH]; [discriminate|].
  cbn [List.find dict_get].
  destruct (p (k0, v0)) eqn:E.
  - intros [= -> ->]. by rewrite String.eqb_refl.
  - intros H. destruct (String.eqb_spec k0 k) as [->|_]; [|by apply IH].
    apply find_some in H as [_ H].
    rewrite (Hp (k, v0) (k, v) eq_refl) in E. congruence.
Qed.


End AssetsMore.


(** ** The headers sent to a function *)

Section ProxyHeaders.
Import Env RequestId Dispatcher Outcomes.

Lemma dict_get_map_to_list (m : gmap string string) name :
  dict_get (fmap (M:=list) (prod_map id Some) (map_to_list m)) name
  = Some <$> m !! name.
Proof.
  assert (fst <$> fmap (M:=list) (prod_map id (@Some string)) (map_to_list m)
          = fst <$> map_to_list m) as Hkeys.
  { induction (map_to_list m) as [|[k v] l IH]; [done|].
    rewrite !fmap_cons. cbn [fst prod_map id]. by rewrite IH. }
  destruct (m !! name) as [v|] eqn:E; cbn [fmap option_fmap option_map].
  - apply dict_get_Some.
    + rewrite Hkeys. apply NoDup_fst_map_to_list.
    + apply list_elem_of_fmap. exists (name, v).
      split; [done | by apply elem_of_map_to_list].
  - apply dict_get_None. rewrite Hkeys. intros Hin.
    apply list_elem_of_fmap in Hin as ([k v] & -> & Hin).
    apply elem_of_map_to_list in Hin. cbn [fst] in E. congruence.
Qed.

(** X20. The headers sent to a function carry the server's own values
    for the forwarding headers, whatever the request said under these
    names: the address of the connection (or [127.0.0.1]) as the client,
    the request's [host] as the forwarded host and deployment URL, the
    request id, and [Connection: close]. Every other request header is
    passed on as it came. *)
Theorem getNowProxyHeaders_overrides_the_request (r : Request) (id : string) :
  let hs := getNowProxyHeaders r id in
  let ip := getRequestIp r in
  dict_get hs "Connection" = Some (Some "close") /\
  dict_get hs "x-forwarded-host" = Some (headers r !! "host") /\
  dict_get hs "x-forwarded-proto" = Some (Some "http") /\
  dict_get hs "x-forwarded-for" = Some (Some ip) /\
  dict_get hs "x-real-ip" = Some (Some ip) /\
  dict_get hs "x-now-trace" = Some (Some "dev1") /\
  dict_get hs "x-now-deployment-url" = Some (headers r !! "host") /\
  dict_get hs "x-now-id" = Some (Some id) /\
  dict_get hs "x-zeit-co-forwarded-for" = Some (Some ip) /\
  (forall name, name ∉ forwarded_names ->
     dict_get hs name = Some <$> headers r !! name).
Proof.
  cbn zeta. unfold getNowProxyHeaders. cbn [fold_left fst snd].
  repeat split; try (rewrite !dict_get_set; reflexivity).
  intros name Hn. rewrite !dict_get_set.
  assert (forall k, k ∈ forwarded_names -> String.eqb k name = false) as Hk.
  { intros k Hin. apply String.eqb_neq. by intros ->. }
  rewrite !Hk by (unfold forwarded_names;
                  repeat first [apply list_elem_of_here
                               | apply list_elem_of_further]).
  apply dict_get_map_to_list.
Qed.

(** *** The log id *)

Lemma append_assoc_string (a b c : string) :
  (a +:+ b) +:+ c = a +:+ (b +:+ c).
Proof.
  induction a as [|x a IH]; [done|].
  change (String x ((a +:+ b) +:+ c) = String x (a +:+ (b +:+ c))).
  by f_equal.
Qed.

Lemma split_on_none sep a :
  all_chars (fun c => negb (Ascii.eqb c sep)) a = true ->
  split_on sep a = [a].
Proof.
  induction a as [|c a IH]; [done|]. cbn [all_chars split_on].
  intros H. apply andb_prop in H as [Hc Ha].
  apply negb_true_iff in Hc. by rewrite Hc, (IH Ha).
Qed.

Lemma split_on_app sep a b :
  all_chars (fun c => negb (Ascii.eqb c sep)) a = true ->
  split_on sep (a +:+ String sep b) = a :: split_on sep b.
Proof.
  induction a as [|c a IH]; cbn [all_chars split_on String.append].
  - intros _. change (EmptyString +:+ String sep b) with (String sep b).
    cbn [split_on]. by rewrite Ascii.eqb_refl.
  - intros H. apply andb_prop in H as [Hc Ha].
    apply negb_true_iff in Hc.
    change (String c a +:+ String sep b) with (String c (a +:+ String sep b)).
    cbn [split_on]. by rewrite Hc, (IH Ha).
Qed.

Lemma digits_no_hyphen s : all_chars is_digit s = true -> no_hyphen s = true.
Proof.
  apply all_chars_weaken. intros c Hc.
  by destruct (Ascii.eqb_spec c "-") as [->|_].
Qed.

Lemma hex_no_hyphen s : all_chars is_hex s = true -> no_hyphen s = true.
Proof.
  apply all_chars_weaken. intros c Hc.
  by destruct (Ascii.eqb_spec c "-") as [->|_].
Qed.

Lemma generateRequestId_split podId now random :
  no_hyphen podId = true ->
  split_on "-" (generateRequestId podId now random)
  = ["dev1:" +:+ podId; decimal now; to_hex random].
Proof.
  intros Hp. unfold generateRequestId. cbn [join].
  change ("-" +:+ to_hex random) with (String "-" (to_hex random)).
  change ("-" +:+ ?s) with (String "-" s).
  rewrite <- (append_assoc_string "dev1:" podId).
  rewrite split_on_app.
  - rewrite split_on_app by apply digits_no_hyphen, decimal_digits.
    rewrite split_on_none; [done|].
    apply hex_no_hyphen, to_hex_ok.
  - change (no_hyphen ("dev1:" +:+ podId) = true). unfold no_hyphen in *.
    by rewrite all_chars_app, Hp.
Qed.

(** X21. For a request id made by [generateRequestId] from a pod id
    without a hyphen, the [x-now-log-id] sent to the function is the last
    part of the id: the twelve hex digits of the random bytes. *)
Theorem function_log_id_is_the_random_part
    (r : Request) podId now random :
  no_hyphen podId = true ->
  dict_get (getNowProxyHeaders r (generateRequestId podId now random))
    "x-now-log-id"
  = Some (Some (to_hex random)).
Proof.
  intros Hp. unfold getNowProxyHeaders. cbn [fold_left fst snd].
  rewrite !dict_get_set.
  change (String.eqb "x-zeit-co-forwarded-for" "x-now-log-id") with false.
  change (String.eqb "x-now-log-id" "x-now-log-id") with true. cbn iota.
  by rewrite generateRequestId_split.
Qed.

(** ** Error responses *)

(** What [sendError] leaves. *)
Lemma sendError_run id errorCode code st :
  sendError id errorCode code st =
    (Ok tt,
     {| req := req st;
        res :=
          end_with (ErrorBody (negotiate (req st)) code errorCode)
            (setHeader "content-type"
               match negotiate (req st) with
               | AsJson => "application/json"
               | AsHtml => "text/html; charset=utf-8"
               | AsPlain => "text/plain; charset=utf-8"
               end
               (setResponseHeaders id [] (set_statusCode code (res st))));
        effects := effects st |}).
Proof. reflexivity. Qed.

(** X22. [sendError] ends the response with the status given and the
    body negotiated from the request's [Accept] header (JSON when it
    mentions [json], even beside [html]; plain text when there is none),
    and writes the content type and the five platform headers over
    whatever the response held under these names, a [cache-control] set
    by a route included; the other headers of the response stay. *)
Theorem sendError_writes_the_platform_headers id errorCode code st :
  exists st',
    sendError id errorCode code st = (Ok tt, st') /\
    req st' = req st /\ effects st' = effects st /\
    statusCode (res st') = code /\
    body (res st') = Some (ErrorBody (negotiate (req st)) code errorCode) /\
    res_headers (res st') !! "cache-control"
      = Some "public, max-age=0, must-revalidate" /\
    res_headers (res st') !! "server" = Some "now" /\
    res_headers (res st') !! "x-now-trace" = Some "dev1" /\
    res_headers (res st') !! "x-now-id" = Some id /\
    res_headers (res st') !! "x-now-cache" = Some "MISS" /\
    res_headers (res st') !! "content-type"
      = Some match negotiate (req st) with
             | AsJson => "application/json"
             | AsHtml => "text/html; charset=utf-8"
             | AsPlain => "text/plain; charset=utf-8"
             end /\
    (forall name, name ∉ error_header_names ->
       res_headers (res st') !! name = res_headers (res st) !! name) /\
    (forall accept, headers (req st) !! "accept" = Some accept ->
       includes "json" accept = true -> negotiate (req st) = AsJson) /\
    (headers (req st) !! "accept" = None -> negotiate (req st) = AsPlain).
Proof.
  eexists. split; [apply sendError_run|].
  cbn [req res effects]. unfold end_with. cbn [statusCode body res_headers].
  assert (forall name,
            res_headers
              (setHeader "content-type"
                 match negotiate (req st) with
                 | AsJson => "application/json"
                 | AsHtml => "text/html; charset=utf-8"
                 | AsPlain => "text/plain; charset=utf-8"
                 end
                 (setResponseHeaders id [] (set_statusCode code (res st))))
              !! name
            = if String.eqb "content-type" name then
                Some match negotiate (req st) with
                     | AsJson => "application/json"
                     | AsHtml => "text/html; charset=utf-8"
                     | AsPlain => "text/plain; charset=utf-8"
                     end
              else
                lastHeader name
                  [("cache-control", "public, max-age=0, must-revalidate");
                   ("server", "now"); ("x-now-trace", "dev1");
                   ("x-now-id", id); ("x-now-cache", "MISS")]
                  (res_headers (res st) !! name)) as Hlook.
  { intros name. rewrite setHeader_lookup. unfold setResponseHeaders.
    by rewrite setHeaders_lookup. }
  split; [done|]. split; [done|]. split.
  { unfold setHeader, setResponseHeaders. cbn [statusCode].
    by rewrite statusCode_setHeaders. }
  split; [done|].
  rewrite !Hlook.
  split; [reflexivity|]. split; [reflexivity|]. split; [reflexivity|].
  split; [reflexivity|]. split; [reflexivity|]. split; [reflexivity|].
  split; [|split].
  - intros name Hn. rewrite Hlook.
    assert (forall k, k ∈ error_header_names -> String.eqb k name = false)
      as Hk.
    { intros k Hin. apply String.eqb_neq. by intros ->. }
    cbn [lastHeader fst snd].
    change (lower "cache-control") with "cache-control".
    change (lower "server") with "server".
    change (lower "x-now-trace") with "x-now-trace".
    change (lower "x-now-id") with "x-now-id".
    change (lower "x-now-cache") with "x-now-cache".
    by rewrite !Hk by (unfold error_header_names;
                       repeat first [apply list_elem_of_here
                                    | apply list_elem_of_further]).
  - intros accept Ha Hj. unfold negotiate. rewrite Ha.
    change (default "text/plain" (Some accept)) with accept.
    by rewrite Hj.
  - intros Ha. unfold negotiate. by rewrite Ha.
Qed.

End ProxyHeaders.

(** The address a proxy wrote is replaced by the address of the
    connection; the [accept] header is passed on. *)
Lemma getNowProxyHeaders_sample :
  dict_get (Dispatcher.getNowProxyHeaders Outcomes.spoofed
              Dispatcher.sample_id) "x-forwarded-for"
    = Some (Some "192.168.1.5") /\
  dict_get (Dispatcher.getNowProxyHeaders Outcomes.spoofed
              Dispatcher.sample_id) "accept"
    = Some (Some "text/html,application/json").
Proof.
  destruct (getNowProxyHeaders_overrides_the_request Outcomes.spoofed
              Dispatcher.sample_id)
    as (_ & _ & _ & Hfor & _ & _ & _ & _ & _ & Hrest).
  split; [exact Hfor|].
  rewrite Hrest; [reflexivity|].
  unfold Outcomes.forwarded_names. intros H.
  repeat (apply elem_of_cons in H as [H|H]; [discriminate H|]).
  by apply elem_of_nil in H.
Defined.

Lemma function_log_id_sample :
  dict_get (Dispatcher.getNowProxyHeaders Outcomes.spoofed
              (RequestId.generateRequestId "q4wlg" 1562364135397
                 Dispatcher.sample_random)) "x-now-log-id"
  = Some (Some "7a873ac99c8e").
Proof.
  apply (function_log_id_is_the_random_part Outcomes.spoofed "q4wlg"
           1562364135397 Dispatcher.sample_random).
  reflexivity.
Defined.

(** A browser that accepts HTML and JSON gets the 404 as JSON. *)
Lemma sendError_sample :
  exists st',
    Dispatcher.sendError Dispatcher.sample_id (Some "FILE_NOT_FOUND") 404
      (Dispatcher.start Outcomes.spoofed) = (Dispatcher.Ok tt, st') /\
    Dispatcher.res_headers (Dispatcher.res st') !! "content-type"
      = Some "application/json".
Proof.
  destruct (sendError_writes_the_platform_headers Dispatcher.sample_id
              (Some "FILE_NOT_FOUND") 404 (Dispatcher.start Outcomes.spoofed))
    as (st' & Hrun & _ & _ & _ & _ & _ & _ & _ & _ & _ & Hct & _ & Hjson & _).
  exists st'. split; [exact Hrun|]. rewrite Hct.
  by rewrite (Hjson "text/html,application/json").
Defined.

(** ** The ways through the dispatcher *)

Section DispatcherPaths.
Import Assets RequestId Dispatcher Outcomes.
Local Open Scope dispatch_scope.

Lemma builds_invoke es fn payload :
  builds (es ++ [Invoke fn payload]) = builds es.
Proof. unfold builds. rewrite omap_app. cbn. by rewrite app_nil_r. Qed.

(** *** No build from a nested call *)

Lemma serveAsset_no_build w id found status args st :
  no_build_between st (snd (serveAsset w id found status args st)).
Proof.
  unfold no_build_between, serveAsset, send404, sendError, bind, get_req,
    modify_res, modify_req, lift, emit, ret.
  repeat case_match; simplify_eq; cbn [snd effects req res];
    rewrite ?builds_invoke; reflexivity.
Qed.

Lemma serveMatch_no_build w id m p key status args n st :
  no_build_between st (snd (serveMatch w id m p key status args (S n) st)).
Proof.
  unfold serveMatch, resolveAsset, bind, get_req, ret.
  cbn [Nat.eqb]. rewrite andb_false_r.
  apply serveAsset_no_build.
Qed.

Lemma serveRouted_no_build rec w id routes n st :
  no_build_between st (snd (serveRouted rec w id routes (S n) st)).
Proof.
  unfold serveRouted, sendRedirect, send404, sendError,
    renderDirectoryListing, bind, lift, get_req, get_res, modify_res,
    modify_req, ret, throw.
  cbn [Nat.eqb].
  repeat (case_match; simplify_eq; cbn [snd fst effects req res] in *);
    try reflexivity;
    try (exfalso;
         match goal with
         | H : _ && false = true |- _ =>
             rewrite andb_false_r in H; discriminate H
         end);
    try match goal with
        | |- no_build_between ?st (snd (serveMatch _ _ _ _ _ _ _ _ ?st1)) =>
            exact (serveMatch_no_build _ _ _ _ _ _ _ _ st1)
        end.
Qed.

Lemma cleanUrl_no_build w id st :
  no_build_between st (snd (cleanUrl w id st)).
Proof.
  unfold no_build_between, cleanUrl, sendRedirect, bind, get_req, modify_res,
    modify_req, ret.
  repeat (case_match; simplify_eq; cbn [snd fst effects req res] in *);
    reflexivity.
Qed.

Lemma serveBody_no_build rec w id routes n st :
  no_build_between st (snd (serveBody rec w id routes (S n) st)).
Proof.
  unfold serveBody, bind.
  pose proof (cleanUrl_no_build w id st) as Hclean.
  destruct (cleanUrl w id st) as [[[]|e] st1]; cbn [snd] in *; try done.
  pose proof (serveRouted_no_build rec w id routes n st1) as H.
  unfold no_build_between in *. congruence.
Qed.

(** *** At most one build for a request *)

Lemma builds_trigger es m requestPath :
  builds (es ++ [TriggerBuild m requestPath]) = builds es ++ [(m, requestPath)].
Proof. unfold builds. by rewrite omap_app. Qed.

Lemma serveMatch_one_build w id m p key status args lvl st :
  one_build_at_most st (snd (serveMatch w id m p key status args lvl st)).
Proof.
  unfold serveMatch, resolveAsset, bind, get_req, emit, lift, ret.
  destruct (_ && _).
  - right. exists m, key. destruct (triggerBuild w m key) as [m'|e].
    + rewrite serveAsset_no_build. cbn [effects]. apply builds_trigger.
    + cbn [snd effects]. apply builds_trigger.
  - left. apply serveAsset_no_build.
Qed.

Lemma serveRouted_one_build rec w id routes lvl st :
  (forall routes' st1, no_build_between st1 (snd (rec routes' 1%nat st1))) ->
  one_build_at_most st (snd (serveRouted rec w id routes lvl st)).
Proof.
  intros Hrec. destruct lvl as [|n];
    [|left; apply serveRouted_no_build].
  unfold serveRouted, sendRedirect, send404, sendError,
    renderDirectoryListing, bind, lift, get_req, get_res, modify_res,
    modify_req, ret, throw.
  cbn [Nat.eqb Nat.add].
  repeat (case_match; simplify_eq; cbn [snd fst effects req res] in *);
    try (left; reflexivity);
    try match goal with
        | |- one_build_at_most ?st (snd (serveMatch _ _ _ _ _ _ _ _ ?st1)) =>
            exact (serveMatch_one_build _ _ _ _ _ _ _ _ st1)
        end;
    try match goal with
        | E : rec ?rs 1%nat ?st1 = (_, ?s) |- _ =>
            left; pose proof (Hrec rs st1) as Hb; rewrite E in Hb; exact Hb
        end.
Qed.

(** X23. One call of [serveProjectAsNowV2] triggers at most one build,
    however it ends, and none at a call level above 0 (the call made for
    the routes of a build result). *)
Theorem a_request_triggers_at_most_one_build w id routes lvl st :
  let st' := snd (serveProjectAsNowV2 w id routes lvl st) in
  one_build_at_most st st' /\
  (lvl <> 0%nat -> builds (effects st') = builds (effects st)).
Proof.
  cbn zeta. split.
  - unfold serveProjectAsNowV2, serveBody, bind.
    pose proof (cleanUrl_no_build w id st) as Hclean.
    destruct (cleanUrl w id st) as [[[]|e] st1]; cbn [snd] in *;
      try (by left).
    destruct (serveRouted_one_build (serveNested w id) w id routes lvl st1)
      as [H | (m & key & H)].
    + intros routes' st2. apply serveBody_no_build.
    + left. unfold no_build_between in *. congruence.
    + right. exists m, key. unfold no_build_between in *. congruence.
  - destruct lvl as [|n]; [done|]. intros _. unfold serveProjectAsNowV2.
    exact (serveBody_no_build (serveNested w id) w id routes n st).
Qed.

(** *** Every way out ends the response *)

Lemma serveAsset_finishes w id found status args st st' :
  serveAsset w id found status args st = (Ok tt, st') -> finished st'.
Proof.
  unfold finished, serveAsset, send404, sendError, bind, get_req,
    modify_res, modify_req, lift, emit, ret.
  repeat (case_match; simplify_eq; cbn [snd fst effects req res body] in *);
    intros; simplify_eq; cbn [res body end_with]; by eexists.
Qed.

Lemma serveMatch_finishes w id m p key status args lvl st st' :
  serveMatch w id m p key status args lvl st = (Ok tt, st') -> finished st'.
Proof.
  unfold serveMatch, bind.
  destruct (resolveAsset w m p key lvl st) as [[found|e] st1]; [|discriminate].
  apply serveAsset_finishes.
Qed.

Lemma serveRouted_finishes rec w id routes lvl st st' :
  (lvl = 0%nat -> forall routes' st1 st2,
     rec routes' 1%nat st1 = (Ok tt, st2) -> finished st2) ->
  serveRouted rec w id routes lvl st = (Ok tt, st') -> finished st'.
Proof.
  intros Hrec.
  unfold serveRouted, sendRedirect, send404, sendError,
    renderDirectoryListing, bind, lift, get_req, get_res, modify_res,
    modify_req, ret, throw.
  repeat (case_match; simplify_eq; cbn [snd fst effects req res] in *);
    intros; simplify_eq;
    try (unfold finished; cbn [res body end_with]; by eexists);
    try match goal with
        | H : serveMatch _ _ _ _ _ _ _ _ _ = (Ok tt, _) |- _ =>
            exact (serveMatch_finishes _ _ _ _ _ _ _ _ _ _ H)
        end;
    match goal with
    | H : _ && (?l =? 0)%nat = true, E : rec _ _ _ = (Ok _, ?s) |- _ =>
        apply andb_prop in H as [_ H]; apply Nat.eqb_eq in H; subst l;
        repeat match goal with u : () |- _ => destruct u end;
        exact (Hrec eq_refl _ _ _ E)
    end.
Qed.

Lemma serveBody_finishes rec w id routes lvl st st' :
  (lvl = 0%nat -> forall routes' st1 st2,
     rec routes' 1%nat st1 = (Ok tt, st2) -> finished st2) ->
  serveBody rec w id routes lvl st = (Ok tt, st') -> finished st'.
Proof.
  intros Hrec. unfold serveBody, bind.
  destruct (cleanUrl w id st) as [[[]|e] st1] eqn:E; [| |discriminate].
  - intros [= <-]. revert E.
    unfold finished, cleanUrl, sendRedirect, bind, get_req, modify_res,
      modify_req, ret, throw.
    repeat (case_match; simplify_eq; cbn [snd fst effects req res] in *);
      intros; simplify_eq; cbn [res body end_with]; by eexists.
  - by apply serveRouted_finishes.
Qed.

(** X24. [devServerHandler] leaves no request unanswered: whether the
    server is stopping, the dispatcher returns or an error escapes it,
    the response is ended (or handed to the static handler or the proxy)
    when the handler returns. *)
Theorem devServerHandler_answers_every_request w srv now random r :
  finished (devServerHandler w srv now random r).
Proof.
  unfold devServerHandler. destruct (stopping srv).
  - unfold finished. cbn. by eexists.
  - destruct (dispatch w _ (start r)) as [[[]|message] st] eqn:E.
    + revert E. unfold dispatch, bind, lift.
      destruct (getNowConfig w) as [nowConfig|e]; [|discriminate].
      unfold serveProjectAsNowV2. apply serveBody_finishes.
      intros _ routes' st1 st2. unfold serveNested.
      apply serveBody_finishes. discriminate.
    + unfold finished. destruct (body (res st)) eqn:Hb.
      * rewrite Hb. by eexists.
      * cbn. by eexists.
Qed.

End DispatcherPaths.
